(** * vault-go: keystore, cryptographic core, audit query and operation facade

    A shallow embedding of the Go sources of [glinharesb/vault-go]
    ([internal/crypto], [internal/keystore], [internal/audit],
    [internal/server]) and the properties of its specification that are
    settled against it.

    Conventions.
    - A Go [[]byte] is a [list Byte.byte]; a Go [string] is a [string].
    - A Go [int] that the code only compares and copies is a [Z].
    - A [*KeyEntry] is a location in an explicit heap: the store keeps
      pointers, and the facade mutates entries through them.
    - A Go function returning [(T, error)] returns a [result], [Ok t]
      for a [nil] error; a function returning only an [error] returns an
      [option error], [None] for [nil].
    - Effects (the heap, the store map, the file system, the audit channel,
      the clock, the random source) are threaded through the [Go] monad. *)

From Stdlib Require Import ZArith NArith List Bool Lia.
From Stdlib.Strings Require Byte.
From stdpp Require Import base gmap strings list sorting pretty countable.

Local Open Scope Z_scope.

(* ===================================================================== *)
(** * Basic Go data *)
(* ===================================================================== *)

Abbreviation byte := Byte.byte.
Abbreviation bytes := (list Byte.byte).

(** [time.Time], as an instant: nanoseconds since Go's zero time
    (January 1, year 1, 00:00:00 UTC). *)
Definition Time : Type := Z.
Definition Time_IsZero (t : Time) : bool := t =? 0.
Definition Time_Before (t u : Time) : bool := t <? u.
Definition Time_After (t u : Time) : bool := u <? t.

(** Go [error] values of the keystore package: the two sentinels and the
    errors built by [fmt.Errorf]. *)
Inductive error : Type :=
  | ErrKeyNotFound
  | ErrKeyInactive
  | Errorf (msg : string).

Definition error_Error (e : error) : string :=
  match e with
  | ErrKeyNotFound => "key not found"
  | ErrKeyInactive => "key is not active"
  | Errorf msg => msg
  end.

#[global] Instance error_eq_dec : EqDecision error.
Proof. solve_decision. Defined.

(** The outcome of a Go function returning [(T, error)]: it returns either
    a value with a [nil] error, or the zero value with an error. *)
Inductive result (E A : Type) : Type :=
  | Ok (a : A)
  | Err (e : E).
Arguments Ok {E A} a.
Arguments Err {E A} e.

(** [crypto/elliptic]: the named curves. *)
Inductive elliptic_Curve : Type := P224 | P256 | P384 | P521.

#[global] Instance elliptic_Curve_eq_dec : EqDecision elliptic_Curve.
Proof. solve_decision. Defined.

(** [crypto/ecdsa]: key structures, with [*big.Int] as [Z]. *)
Record ecdsa_PublicKey : Type := {
  Curve : elliptic_Curve;
  X : Z;
  Y : Z;
}.

Record ecdsa_PrivateKey : Type := {
  PublicKey : ecdsa_PublicKey;
  D : Z;
}.

(* ===================================================================== *)
(** * Bytes *)
(* ===================================================================== *)

Definition byte_to_Z (b : byte) : Z := Z.of_N (Byte.to_N b).
Definition byte_of_Z (z : Z) : byte :=
  default Byte.x00 (Byte.of_N (Z.to_N (z mod 256))).

Definition byte_xor (a b : byte) : byte :=
  byte_of_Z (Z.lxor (byte_to_Z a) (byte_to_Z b)).

#[global] Instance byte_eq_dec : EqDecision byte := Byte.byte_eq_dec.

(* ===================================================================== *)
(** * The Go libraries the crypto package calls

    [crypto/sha256], [crypto/hmac], [golang.org/x/crypto/hkdf],
    [crypto/aes] and [crypto/cipher] (GCM) are not part of the repository;
    they are modelled here from the standards they implement and checked
    against the standards' test vectors below. *)
(* ===================================================================== *)

(** Big-endian serialisation of the low [8*n] bits of [z]. *)
Definition be_bytes (n : nat) (z : Z) : bytes :=
  map (fun i : nat => byte_of_Z (Z.shiftr z (8 * Z.of_nat (n - 1 - i)))) (seq 0 n).

Definition be_Z (bs : bytes) : Z :=
  fold_left (fun acc b => Z.lor (Z.shiftl acc 8) (byte_to_Z b)) bs 0.

(** The first [n] big-endian 32-bit words of [bs]. *)
Fixpoint be_words (n : nat) (bs : bytes) : list Z :=
  match n with
  | O => []
  | S n' => be_Z (take 4 bs) :: be_words n' (drop 4 bs)
  end.

Module sha256.
(** [crypto/sha256] (FIPS 180-4). *)

Definition Size : nat := 32.
Definition BlockSize : nat := 64.

Definition w32 (x : Z) : Z := Z.land x 0xffffffff.
Definition add32 (x y : Z) : Z := w32 (x + y).
Definition rotr (n x : Z) : Z :=
  Z.lor (Z.shiftr x n) (w32 (Z.shiftl x (32 - n))).
Definition not32 (x : Z) : Z := Z.lxor x 0xffffffff.

Definition Ch (x y z : Z) : Z := Z.lxor (Z.land x y) (Z.land (not32 x) z).
Definition Maj (x y z : Z) : Z :=
  Z.lxor (Z.lxor (Z.land x y) (Z.land x z)) (Z.land y z).
Definition Sigma0 (x : Z) : Z := Z.lxor (Z.lxor (rotr 2 x) (rotr 13 x)) (rotr 22 x).
Definition Sigma1 (x : Z) : Z := Z.lxor (Z.lxor (rotr 6 x) (rotr 11 x)) (rotr 25 x).
Definition sigma0 (x : Z) : Z := Z.lxor (Z.lxor (rotr 7 x) (rotr 18 x)) (Z.shiftr x 3).
Definition sigma1 (x : Z) : Z := Z.lxor (Z.lxor (rotr 17 x) (rotr 19 x)) (Z.shiftr x 10).

(** The first primes, by trial division. *)
Definition is_prime (n : nat) : bool :=
  forallb (fun d => negb (n mod d =? 0)%nat) (seq 2 (n - 2)).
Definition primes (count : nat) : list Z :=
  map Z.of_nat (take count (List.filter is_prime (seq 2 400))).

(** The largest [r < 2^bits] with [r^3 <= n], bit by bit. *)
Fixpoint cube_root (bits : nat) (n r : Z) : Z :=
  match bits with
  | O => r
  | S b =>
      let r' := r + 2 ^ Z.of_nat b in
      cube_root b n (if r' * r' * r' <=? n then r' else r)
  end.

(** The round constants: the first 32 bits of the fractional parts of the
    cube roots of the first 64 primes. *)
Definition K : list Z :=
  Eval vm_compute in
    map (fun p => w32 (cube_root 36 (p * 2 ^ 96) 0)) (primes 64).

(** The eight working variables / the chaining value. *)
Record digest : Type := Digest {
  h0 : Z; h1 : Z; h2 : Z; h3 : Z; h4 : Z; h5 : Z; h6 : Z; h7 : Z;
}.

(** The initial hash value: the first 32 bits of the fractional parts of
    the square roots of the first 8 primes. *)
Definition init : digest :=
  Eval vm_compute in
    match map (fun p => w32 (Z.sqrt (p * 2 ^ 64))) (primes 8) with
    | [a; b; c; d; e; f; g; h] => Digest a b c d e f g h
    | _ => Digest 0 0 0 0 0 0 0 0
    end.

(** Message schedule: [ws] holds W[t-1], W[t-2], ... (most recent first). *)
Fixpoint schedule (n : nat) (ws : list Z) : list Z :=
  match n with
  | O => ws
  | S n' =>
      let w := add32 (add32 (sigma1 (nth 1 ws 0)) (nth 6 ws 0))
                     (add32 (sigma0 (nth 14 ws 0)) (nth 15 ws 0)) in
      schedule n' (w :: ws)
  end.

Definition round (s : digest) (kw : Z * Z) : digest :=
  let (k, w) := kw in
  let t1 := add32 (add32 (add32 (h7 s) (Sigma1 (h4 s))) (add32 (Ch (h4 s) (h5 s) (h6 s)) k)) w in
  let t2 := add32 (Sigma0 (h0 s)) (Maj (h0 s) (h1 s) (h2 s)) in
  Digest (add32 t1 t2) (h0 s) (h1 s) (h2 s) (add32 (h3 s) t1) (h4 s) (h5 s) (h6 s).

Definition block (s : digest) (p : bytes) : digest :=
  let w := rev (schedule 48 (rev (be_words 16 p))) in
  let r := fold_left round (combine K w) s in
  Digest (add32 (h0 s) (h0 r)) (add32 (h1 s) (h1 r)) (add32 (h2 s) (h2 r))
         (add32 (h3 s) (h3 r)) (add32 (h4 s) (h4 r)) (add32 (h5 s) (h5 r))
         (add32 (h6 s) (h6 r)) (add32 (h7 s) (h7 r)).

Fixpoint blocks (n : nat) (s : digest) (p : bytes) : digest :=
  match n with
  | O => s
  | S n' => blocks n' (block s (take 64 p)) (drop 64 p)
  end.

Definition pad (msg : bytes) : bytes :=
  let len := length msg in
  let zeros := ((55 + 64 - len mod 64) mod 64)%nat in
  msg ++ [Byte.x80] ++ replicate zeros Byte.x00 ++ be_bytes 8 (8 * Z.of_nat len).

Definition Sum256 (data : bytes) : bytes :=
  let p := pad data in
  let s := blocks (length p / 64) init p in
  be_bytes 4 (h0 s) ++ be_bytes 4 (h1 s) ++ be_bytes 4 (h2 s) ++ be_bytes 4 (h3 s) ++
  be_bytes 4 (h4 s) ++ be_bytes 4 (h5 s) ++ be_bytes 4 (h6 s) ++ be_bytes 4 (h7 s).

End sha256.

Module hmac.
(** [crypto/hmac] over SHA-256 (RFC 2104). *)
Definition normalize (key : bytes) : bytes :=
  let k := if (sha256.BlockSize <? length key)%nat then sha256.Sum256 key else key in
  k ++ replicate (sha256.BlockSize - length k) Byte.x00.

Definition Sum (key data : bytes) : bytes :=
  let k := normalize key in
  let ipad := map (byte_xor Byte.x36) k in
  let opad := map (byte_xor Byte.x5c) k in
  sha256.Sum256 (opad ++ sha256.Sum256 (ipad ++ data)).
End hmac.

Module hkdf.
(** [golang.org/x/crypto/hkdf] over SHA-256 (RFC 5869). *)
Definition Extract (secret : bytes) (salt : option bytes) : bytes :=
  let salt := match salt with
              | None => replicate sha256.Size Byte.x00
              | Some s => s
              end in
  hmac.Sum salt secret.

Record reader : Type := { prk : bytes; info : bytes }.

Definition Expand (pseudorandomKey info : bytes) : reader :=
  {| prk := pseudorandomKey; info := info |}.

Definition New (secret : bytes) (salt : option bytes) (info : bytes) : reader :=
  Expand (Extract secret salt) info.

(** The blocks T(counter), T(counter+1), ... *)
Fixpoint blocks (f : reader) (prev : bytes) (counter : Z) (n : nat) : bytes :=
  match n with
  | O => []
  | S n' =>
      let t := hmac.Sum (prk f) (prev ++ info f ++ [byte_of_Z counter]) in
      t ++ blocks f t (counter + 1) n'
  end.

(** [io.ReadFull] of [need] bytes from a fresh reader: [None] is the
    "entropy limit reached" error. *)
Definition ReadFull (f : reader) (need : nat) : option bytes :=
  if (255 * sha256.Size <? need)%nat then None
  else Some (take need (blocks f [] 1 ((need + sha256.Size - 1) / sha256.Size)%nat)).
End hkdf.

Module aes.
(** [crypto/aes]: the AES block cipher (FIPS 197), on bytes as [Z]. *)

Definition BlockSize : nat := 16.

Definition xtime (x : Z) : Z :=
  Z.land (Z.lxor (Z.shiftl x 1) (if Z.testbit x 7 then 0x1b else 0)) 0xff.

(** Multiplication in GF(2^8) modulo x^8 + x^4 + x^3 + x + 1. *)
Fixpoint gmul_aux (n : nat) (a b : Z) : Z :=
  match n with
  | O => 0
  | S n' => Z.lxor (if Z.testbit b 0 then a else 0)
                   (gmul_aux n' (xtime a) (Z.shiftr b 1))
  end.
Definition gmul (a b : Z) : Z := gmul_aux 8 a b.

Definition gsquare (a : Z) : Z := gmul a a.

(** a^254: the multiplicative inverse, with 0 mapped to 0. *)
Definition ginv (a : Z) : Z :=
  let a2 := gsquare a in
  let a4 := gsquare a2 in
  let a8 := gsquare a4 in
  let a16 := gsquare a8 in
  let a32 := gsquare a16 in
  let a64 := gsquare a32 in
  let a128 := gsquare a64 in
  gmul a128 (gmul a64 (gmul a32 (gmul a16 (gmul a8 (gmul a4 a2))))).

Definition rotl8 (x n : Z) : Z :=
  Z.land (Z.lor (Z.shiftl x n) (Z.shiftr x (8 - n))) 0xff.

Definition sbox_calc (a : Z) : Z :=
  let b := ginv a in
  Z.lxor (Z.lxor (Z.lxor (Z.lxor (Z.lxor b (rotl8 b 1)) (rotl8 b 2)) (rotl8 b 3)) (rotl8 b 4)) 0x63.

Definition sbox0 : list Z :=
  Eval vm_compute in map (fun i : nat => sbox_calc (Z.of_nat i)) (seq 0 256).

Definition SubByte (x : Z) : Z := nth (Z.to_nat x) sbox0 0.

Definition SubWord (w : Z) : Z :=
  Z.lor (Z.lor (Z.lor
    (Z.shiftl (SubByte (Z.land (Z.shiftr w 24) 0xff)) 24)
    (Z.shiftl (SubByte (Z.land (Z.shiftr w 16) 0xff)) 16))
    (Z.shiftl (SubByte (Z.land (Z.shiftr w 8) 0xff)) 8))
    (SubByte (Z.land w 0xff)).

Definition RotWord (w : Z) : Z :=
  Z.land (Z.lor (Z.shiftl w 8) (Z.shiftr w 24)) 0xffffffff.

(** Key expansion; [ws] holds the words produced so far, most recent first,
    [i] is the index of the next word and [rc] the current round constant. *)
Fixpoint expand (n : nat) (Nk : nat) (i : nat) (rc : Z) (ws : list Z) : list Z :=
  match n with
  | O => ws
  | S n' =>
      let temp := nth 0 ws 0 in
      let '(temp, rc') :=
        if (i mod Nk =? 0)%nat
        then (Z.lxor (SubWord (RotWord temp)) (Z.shiftl rc 24), xtime rc)
        else if (6 <? Nk)%nat && (i mod Nk =? 4)%nat
             then (SubWord temp, rc)
             else (temp, rc) in
      expand n' Nk (S i) rc' (Z.lxor (nth (Nk - 1) ws 0) temp :: ws)
  end.

(** The cipher.Block returned by NewCipher: the number of rounds and the
    expanded encryption key. *)
Record Block : Type := { Nr : nat; enc : list Z }.

Inductive KeySizeError : Type := KeySizeError_of (k : nat).

Definition NewCipher (key : bytes) : result KeySizeError Block :=
  let k := length key in
  if bool_decide (k = 16 \/ k = 24 \/ k = 32)%nat then
    let Nk := (k / 4)%nat in
    let nr := (Nk + 6)%nat in
    let w0 := rev (be_words Nk key) in
    Ok {| Nr := nr; enc := rev (expand (4 * (nr + 1) - Nk) Nk Nk 1 w0) |}
  else Err (KeySizeError_of k).

Definition AddRoundKey (c : Block) (round : nat) (s : list Z) : list Z :=
  map (fun i : nat =>
         let w := nth (4 * round + i / 4) (enc c) 0 in
         Z.lxor (nth i s 0) (Z.land (Z.shiftr w (24 - 8 * Z.of_nat (i mod 4))) 0xff))
      (seq 0 16).

Definition SubBytes (s : list Z) : list Z := map SubByte s.

Definition ShiftRows (s : list Z) : list Z :=
  map (fun i : nat => nth (i mod 4 + 4 * ((i / 4 + i mod 4) mod 4)) s 0) (seq 0 16).

Definition MixColumns (s : list Z) : list Z :=
  map (fun i : nat =>
         let c := (4 * (i / 4))%nat in
         let r := (i mod 4)%nat in
         let a j := nth (c + (r + j) mod 4) s 0 in
         Z.lxor (Z.lxor (Z.lxor (gmul 2 (a 0%nat)) (gmul 3 (a 1%nat))) (a 2%nat)) (a 3%nat))
      (seq 0 16).

Fixpoint rounds (c : Block) (n : nat) (round : nat) (s : list Z) : list Z :=
  match n with
  | O => s
  | S n' => rounds c n' (S round)
              (AddRoundKey c round (MixColumns (ShiftRows (SubBytes s))))
  end.

Definition Encrypt (c : Block) (src : bytes) : bytes :=
  let s := AddRoundKey c 0 (map byte_to_Z src) in
  let s := rounds c (Nr c - 1) 1 s in
  map byte_of_Z (AddRoundKey c (Nr c) (ShiftRows (SubBytes s))).

End aes.

Module cipher.
(** [crypto/cipher]: Galois/Counter Mode over a 128-bit block cipher
    (NIST SP 800-38D), with the standard 12-byte nonce and 16-byte tag. *)

Definition gcmStandardNonceSize : nat := 12.
Definition gcmTagSize : nat := 16.

Record AEAD : Type := { block : aes.Block }.

(** [NewGCM] fails only for a cipher whose block size is not 128 bits. *)
Definition NewGCM (b : aes.Block) : result error AEAD :=
  if bool_decide (aes.BlockSize = 16%nat) then Ok {| block := b |}
  else Err (Errorf "cipher: NewGCM requires 128-bit block cipher").
Definition NonceSize (g : AEAD) : nat := gcmStandardNonceSize.
Definition Overhead (g : AEAD) : nat := gcmTagSize.

(** Multiplication in GF(2^128); a block is the big-endian integer of its
    16 bytes, so the coefficient of x^i is bit [127 - i]. *)
Fixpoint gfmul_aux (n : nat) (x v z : Z) : Z :=
  match n with
  | O => z
  | S n' =>
      let z' := if Z.testbit x (Z.of_nat n') then Z.lxor z v else z in
      let v' := if Z.testbit v 0
                then Z.lxor (Z.shiftr v 1) (Z.shiftl 0xe1 120)
                else Z.shiftr v 1 in
      gfmul_aux n' x v' z'
  end.
Definition gfmul (x y : Z) : Z := gfmul_aux 128 x y 0.

(** One GHASH pass over [data], zero-padded to whole blocks. *)
Fixpoint ghash_update (n : nat) (h y : Z) (data : bytes) : Z :=
  match n with
  | O => y
  | S n' =>
      let chunk := take 16 data in
      let x := be_Z (chunk ++ replicate (16 - length chunk) Byte.x00) in
      ghash_update n' h (gfmul (Z.lxor y x) h) (drop 16 data)
  end.

Definition nblocks (data : bytes) : nat := ((length data + 15) / 16)%nat.

Definition ghash (h : Z) (aad ct : bytes) : Z :=
  let y := ghash_update (nblocks aad) h 0 aad in
  let y := ghash_update (nblocks ct) h y ct in
  let lens := Z.lor (Z.shiftl (8 * Z.of_nat (length aad)) 64) (8 * Z.of_nat (length ct)) in
  gfmul (Z.lxor y lens) h.

(** The counter block: the nonce followed by a 32-bit big-endian counter. *)
Definition counter (nonce : bytes) (n : Z) : bytes :=
  nonce ++ be_bytes 4 (n mod 2 ^ 32).

Definition keystream (g : AEAD) (nonce : bytes) (n : nat) : bytes :=
  take n (flat_map (fun i : nat => aes.Encrypt (block g) (counter nonce (2 + Z.of_nat i)))
                   (seq 0 ((n + 15) / 16))).

Definition counterCrypt (g : AEAD) (nonce data : bytes) : bytes :=
  zip_with byte_xor data (keystream g nonce (length data)).

Definition auth (g : AEAD) (nonce ct aad : bytes) : bytes :=
  let h := be_Z (aes.Encrypt (block g) (replicate 16 Byte.x00)) in
  let mask := be_Z (aes.Encrypt (block g) (counter nonce 1)) in
  be_bytes 16 (Z.lxor (ghash h aad ct) mask).

(** [Seal] appends the ciphertext and the tag to [dst]. *)
Definition Seal (g : AEAD) (dst nonce plaintext additionalData : bytes) : bytes :=
  let ct := counterCrypt g nonce plaintext in
  dst ++ ct ++ auth g nonce ct additionalData.

(** [Open]: [None] is the error "cipher: message authentication failed". *)
Definition Open (g : AEAD) (dst nonce ciphertext additionalData : bytes) : option bytes :=
  if (length ciphertext <? gcmTagSize)%nat then None
  else
    let n := (length ciphertext - gcmTagSize)%nat in
    let ct := take n ciphertext in
    let tag := drop n ciphertext in
    if bool_decide (auth g nonce ct additionalData = tag)
    then Some (dst ++ counterCrypt g nonce ct)
    else None.

End cipher.

(** The bytes of a string literal, [[]byte("...")]. *)
Definition bytes_of_string (s : string) : bytes := String.list_byte_of_string s.

(** AES and GCM on big-endian numerals, as the standards print their
    vectors. *)
Definition aes_encrypt_hex (nk : nat) (k p : Z) : option Z :=
  match aes.NewCipher (be_bytes nk k) with
  | Ok c => Some (be_Z (aes.Encrypt c (be_bytes 16 p)))
  | Err _ => None
  end.

Definition gcm_seal_hex (nk : nat) (k iv : Z) (np : nat) (p : Z) (na : nat) (a : Z) : option Z :=
  match aes.NewCipher (be_bytes nk k) with
  | Ok c =>
      match cipher.NewGCM c with
      | Ok g => Some (be_Z (cipher.Seal g [] (be_bytes 12 iv) (be_bytes np p) (be_bytes na a)))
      | Err _ => None
      end
  | Err _ => None
  end.

(* ===================================================================== *)
(** * package keystore: the data model (store.go) *)
(* ===================================================================== *)

Definition KeyAlgorithm : Type := Z.
Definition AlgorithmECDSAP256 : KeyAlgorithm := 1.
Definition AlgorithmECDSAP384 : KeyAlgorithm := 2.

Definition KeyAlgorithm_String (a : KeyAlgorithm) : string :=
  if a =? AlgorithmECDSAP256 then "ECDSA_P256"
  else if a =? AlgorithmECDSAP384 then "ECDSA_P384"
  else "UNKNOWN".

Definition KeyStatus : Type := Z.
Definition StatusActive : KeyStatus := 1.
Definition StatusRotated : KeyStatus := 2.
Definition StatusDeactivated : KeyStatus := 3.

Definition KeyStatus_String (s : KeyStatus) : string :=
  if s =? StatusActive then "ACTIVE"
  else if s =? StatusRotated then "ROTATED"
  else if s =? StatusDeactivated then "DEACTIVATED"
  else "UNKNOWN".

Record KeyEntry : Type := {
  ID : string;
  Algorithm : KeyAlgorithm;
  Status : KeyStatus;
  PrivateKey : ecdsa_PrivateKey;
  CreatedAt : Time;
  RotatedAt : Time;
  Labels : gmap string string;
}.

Definition KeyEntry_with_Status (s : KeyStatus) (e : KeyEntry) : KeyEntry :=
  {| ID := ID e; Algorithm := Algorithm e; Status := s;
     PrivateKey := PrivateKey e; CreatedAt := CreatedAt e;
     RotatedAt := RotatedAt e; Labels := Labels e |}.

Definition KeyEntry_with_RotatedAt (t : Time) (e : KeyEntry) : KeyEntry :=
  {| ID := ID e; Algorithm := Algorithm e; Status := Status e;
     PrivateKey := PrivateKey e; CreatedAt := CreatedAt e;
     RotatedAt := t; Labels := Labels e |}.

(** A [*KeyEntry]: [nil] is never allocated. *)
Definition loc : Type := nat.
Definition nil_loc : loc := 0%nat.

(** [persistedKey] (persistent.go): the JSON-serializable form of a
    [KeyEntry]. *)
Record persistedKey : Type := {
  pk_ID : string;
  pk_Algorithm : KeyAlgorithm;
  pk_Status : KeyStatus;
  pk_PrivateKeyDER : bytes;
  pk_CreatedAt : Time;
  pk_RotatedAt : Time;
  pk_Labels : gmap string string;
}.

(* ===================================================================== *)
(** * package audit: the data model (logger.go) *)
(* ===================================================================== *)

Record Entry : Type := {
  Entry_ID : string;
  Entry_Timestamp : Time;
  Entry_Operation : string;
  Entry_KeyID : string;
  Entry_Status : string;
  Entry_PeerAddress : string;
  Entry_Metadata : gmap string string;
}.

(* ===================================================================== *)
(** * The generated protobuf package and gRPC status errors *)
(* ===================================================================== *)

(** Modelled from the spec: the generated package [gen/vault/v1] is not
    among the sources.  Its enumerations are "stable integers
    (1=ACTIVE/P256, 2=ROTATED/P384, 3=DEACTIVATED)" with 0 for the
    unspecified value; its messages carry the fields the servers read and
    write. *)
Definition pb_KeyAlgorithm : Type := Z.
Definition KEY_ALGORITHM_UNSPECIFIED : pb_KeyAlgorithm := 0.
Definition KEY_ALGORITHM_ECDSA_P256 : pb_KeyAlgorithm := 1.
Definition KEY_ALGORITHM_ECDSA_P384 : pb_KeyAlgorithm := 2.

Definition pb_KeyStatus : Type := Z.
Definition KEY_STATUS_UNSPECIFIED : pb_KeyStatus := 0.
Definition KEY_STATUS_ACTIVE : pb_KeyStatus := 1.
Definition KEY_STATUS_ROTATED : pb_KeyStatus := 2.
Definition KEY_STATUS_DEACTIVATED : pb_KeyStatus := 3.

Inductive pb_KeyEventType : Type :=
  | KEY_EVENT_TYPE_CREATED
  | KEY_EVENT_TYPE_ROTATED
  | KEY_EVENT_TYPE_DEACTIVATED.

(** [timestamppb.Timestamp] pointers: [None] is [nil]. *)
Record KeyMetadata : Type := {
  meta_KeyId : string;
  meta_Algorithm : pb_KeyAlgorithm;
  meta_Status : pb_KeyStatus;
  meta_CreatedAt : option Time;
  meta_RotatedAt : option Time;
  meta_Labels : gmap string string;
}.

Record KeyEvent : Type := {
  event_Type : pb_KeyEventType;
  event_Metadata : KeyMetadata;
  event_Timestamp : Time;
}.

Record GenerateKeyResponse : Type := { GenerateKey_Metadata : KeyMetadata }.
Record GetPublicKeyResponse : Type := {
  GetPublicKey_KeyId : string;
  GetPublicKey_PublicKeyDer : bytes;
  GetPublicKey_Algorithm : pb_KeyAlgorithm;
}.
Record RotateKeyResponse : Type := { OldKey : KeyMetadata; NewKey : KeyMetadata }.
Record DeactivateKeyResponse : Type := { Deactivate_Metadata : KeyMetadata }.
Record SignResponse : Type := { Signature : bytes; Sign_KeyId : string }.
Record VerifyResponse : Type := { Valid : bool }.
Record EncryptResponse : Type := { Ciphertext : bytes; Encrypt_KeyId : string }.
Record DecryptResponse : Type := { Plaintext : bytes }.
Record DeriveKeyResponse : Type := { DerivedKey : bytes }.

(** [google.golang.org/grpc/codes] and [status]. *)
Inductive Code : Type :=
  | InvalidArgument
  | NotFound
  | FailedPrecondition
  | Unauthenticated
  | ResourceExhausted
  | Internal.

Record Status_error : Type := { code : Code; message : string }.

Definition status_Error (c : Code) (msg : string) : Status_error :=
  {| code := c; message := msg |}.

(* ===================================================================== *)
(** * The process state and the [Go] monad *)
(* ===================================================================== *)

Record World : Type := {
  heap : gmap loc KeyEntry;            (* the allocated [KeyEntry] objects *)
  keys : gmap string loc;              (* [MemoryStore.keys] *)
  files : gmap string bytes;           (* the file system, by path *)
  audit_entries : list Entry;          (* [Logger.entries], a buffered channel *)
  audit_bufferSize : nat;              (* its capacity *)
  audit_store : list Entry;            (* [Logger.store] *)
  subscribers : list (list KeyEvent);  (* [KeyManagementServer.subscribers] *)
  rng : nat;                           (* position in the random source *)
  ticks : nat;                         (* number of clock readings so far *)
}.

Definition set_heap (f : gmap loc KeyEntry -> gmap loc KeyEntry) (w : World) : World :=
  {| heap := f (heap w); keys := keys w; files := files w;
     audit_entries := audit_entries w; audit_bufferSize := audit_bufferSize w;
     audit_store := audit_store w; subscribers := subscribers w;
     rng := rng w; ticks := ticks w |}.

Definition set_keys (f : gmap string loc -> gmap string loc) (w : World) : World :=
  {| heap := heap w; keys := f (keys w); files := files w;
     audit_entries := audit_entries w; audit_bufferSize := audit_bufferSize w;
     audit_store := audit_store w; subscribers := subscribers w;
     rng := rng w; ticks := ticks w |}.

Definition set_files (f : gmap string bytes -> gmap string bytes) (w : World) : World :=
  {| heap := heap w; keys := keys w; files := f (files w);
     audit_entries := audit_entries w; audit_bufferSize := audit_bufferSize w;
     audit_store := audit_store w; subscribers := subscribers w;
     rng := rng w; ticks := ticks w |}.

Definition set_audit_entries (f : list Entry -> list Entry) (w : World) : World :=
  {| heap := heap w; keys := keys w; files := files w;
     audit_entries := f (audit_entries w); audit_bufferSize := audit_bufferSize w;
     audit_store := audit_store w; subscribers := subscribers w;
     rng := rng w; ticks := ticks w |}.

Definition set_audit_store (f : list Entry -> list Entry) (w : World) : World :=
  {| heap := heap w; keys := keys w; files := files w;
     audit_entries := audit_entries w; audit_bufferSize := audit_bufferSize w;
     audit_store := f (audit_store w); subscribers := subscribers w;
     rng := rng w; ticks := ticks w |}.

Definition set_subscribers (f : list (list KeyEvent) -> list (list KeyEvent)) (w : World) : World :=
  {| heap := heap w; keys := keys w; files := files w;
     audit_entries := audit_entries w; audit_bufferSize := audit_bufferSize w;
     audit_store := audit_store w; subscribers := f (subscribers w);
     rng := rng w; ticks := ticks w |}.

Definition set_rng (f : nat -> nat) (w : World) : World :=
  {| heap := heap w; keys := keys w; files := files w;
     audit_entries := audit_entries w; audit_bufferSize := audit_bufferSize w;
     audit_store := audit_store w; subscribers := subscribers w;
     rng := f (rng w); ticks := ticks w |}.

Definition set_ticks (f : nat -> nat) (w : World) : World :=
  {| heap := heap w; keys := keys w; files := files w;
     audit_entries := audit_entries w; audit_bufferSize := audit_bufferSize w;
     audit_store := audit_store w; subscribers := subscribers w;
     rng := rng w; ticks := f (ticks w) |}.

(** A run of a Go function from a state: it returns, or it panics. *)
Inductive run (A : Type) : Type :=
  | Done (a : A) (w : World)
  | Panic (msg : string).
Arguments Done {A} a w.
Arguments Panic {A} msg.

Definition Go (A : Type) : Type := World -> run A.

#[global] Instance Go_ret : MRet Go := fun A a w => Done a w.
#[global] Instance Go_bind : MBind Go := fun A B f m w =>
  match m w with
  | Done a w' => f a w'
  | Panic msg => Panic msg
  end.

Definition gets {A : Type} (f : World -> A) : Go A := fun w => Done (f w) w.
Definition modify (f : World -> World) : Go unit := fun w => Done tt (f w).
Definition panic {A : Type} (msg : string) : Go A := fun _ => Panic msg.

(** Pointer operations on [*KeyEntry]. *)
Definition new (e : KeyEntry) : Go loc := fun w =>
  let p := fresh ({[nil_loc]} ∪ dom (heap w)) in
  Done p (set_heap <[p := e]> w).

Definition load (p : loc) : Go KeyEntry := fun w =>
  match heap w !! p with
  | Some e => Done e w
  | None => Panic "invalid memory address or nil pointer dereference"
  end.

(** [p.f]: read a field through a pointer. *)
Definition field {A : Type} (f : KeyEntry -> A) (p : loc) : Go A :=
  e ← load p; mret (f e).

(** [p.f = v]: [upd] is the field update. *)
Definition assign (p : loc) (upd : KeyEntry -> KeyEntry) : Go unit :=
  e ← load p; modify (set_heap <[p := upd e]>).

(* ===================================================================== *)
(** * The environment and the libraries taken as interfaces *)
(* ===================================================================== *)

(** The operating-system random source, the UUID generator, the wall
    clock and the (unspecified) iteration order of Go maps. *)
Class Env : Type := {
  rand_byte : nat -> byte;
  rand_fails : nat -> bool;
  uuid_NewString : nat -> string;
  time_Now : nat -> Time;
  map_range : nat -> list (string * loc) -> list (string * loc);
}.

(** [crypto/ecdsa]; the first argument of the randomized operations is
    the position of the random source. *)
Class ECDSA : Type := {
  ecdsa_GenerateKey : elliptic_Curve -> nat -> option ecdsa_PrivateKey;
  ecdsa_SignASN1 : nat -> ecdsa_PrivateKey -> bytes -> option bytes;
  ecdsa_VerifyASN1 : ecdsa_PublicKey -> bytes -> bytes -> bool;
}.

(** What [x509.ParsePKCS8PrivateKey] can return. *)
Inductive pkcs8_key : Type :=
  | pkcs8_ecdsa (k : ecdsa_PrivateKey)
  | pkcs8_other.

(** [crypto/x509]; [None] is an error. *)
Class X509 : Type := {
  x509_MarshalPKCS8PrivateKey : ecdsa_PrivateKey -> option bytes;
  x509_ParsePKCS8PrivateKey : bytes -> option pkcs8_key;
  x509_MarshalPKIXPublicKey : ecdsa_PublicKey -> option bytes;
}.

(** [encoding/json] at the type [[]persistedKey]; [None] is an error. *)
Class JSON : Type := {
  json_MarshalIndent : list persistedKey -> option bytes;
  json_Unmarshal : bytes -> option (list persistedKey);
}.

Section Environment.
Context `{Env}.

(** [rand.Read(b)] with [len(b) = n]. *)
Definition rand_Read (n : nat) : Go (result error bytes) := fun w =>
  if rand_fails (rng w) then Done (Err (Errorf "crypto/rand: read failed")) w
  else Done (Ok (map rand_byte (seq (rng w) n))) (set_rng (fun r => (r + n)%nat) w).

(** [uuid.NewString()] *)
Definition uuid_New : Go string := fun w =>
  Done (uuid_NewString (rng w)) (set_rng S w).

(** [time.Now()] *)
Definition Now : Go Time := fun w =>
  Done (time_Now (ticks w)) (set_ticks S w).

(** The pairs visited by [for k, v := range m]. *)
Definition range (m : gmap string loc) : Go (list (string * loc)) := fun w =>
  Done (map_range (rng w) (map_to_list m)) (set_rng S w).

End Environment.

(** The file system: [os.WriteFile], [os.Rename], [os.ReadFile],
    [os.Stat] on regular files (directories and I/O failures are not
    modelled: [os.MkdirAll] succeeds). *)
Definition os_MkdirAll (dir : string) : Go (option error) := mret None.

Definition os_WriteFile (name : string) (data : bytes) : Go (option error) :=
  modify (set_files <[name := data]>);; mret None.

Definition os_Rename (oldpath newpath : string) : Go (option error) :=
  fs ← gets files;
  match fs !! oldpath with
  | None => mret (Some (Errorf ("rename " +:+ oldpath +:+ " " +:+ newpath +:+ ": no such file or directory")))
  | Some data =>
      modify (set_files (fun fs => <[newpath := data]> (delete oldpath fs)));;
      mret None
  end.

Definition os_ReadFile (name : string) : Go (result error bytes) :=
  fs ← gets files;
  match fs !! name with
  | None => mret (Err (Errorf ("open " +:+ name +:+ ": no such file or directory")))
  | Some data => mret (Ok data)
  end.

Definition os_Stat (name : string) : Go (option error) :=
  fs ← gets files;
  match fs !! name with
  | None => mret (Some (Errorf ("stat " +:+ name +:+ ": no such file or directory")))
  | Some _ => mret None
  end.

(* ===================================================================== *)
(** * package crypto (aesgcm.go, hkdf.go, ecdsa.go) *)
(* ===================================================================== *)

Definition KeySizeError_Error (e : aes.KeySizeError) : string :=
  match e with
  | aes.KeySizeError_of k => "crypto/aes: invalid key size " +:+ pretty k
  end.

Section crypto.
Context `{Env} `{ECDSA} `{X509}.

(** [EncryptAESGCM] encrypts plaintext using AES-256-GCM.  The returned
    ciphertext has the nonce prepended: [nonce | encrypted | tag]. *)
Definition EncryptAESGCM (key plaintext aad : bytes) : Go (result error bytes) :=
  match aes.NewCipher key with
  | Err err => mret (Err (Errorf ("aes new cipher: " +:+ KeySizeError_Error err)))
  | Ok block =>
      match cipher.NewGCM block with
      | Err err => mret (Err (Errorf ("aes gcm: " +:+ error_Error err)))
      | Ok gcm =>
          r ← rand_Read (cipher.NonceSize gcm);
          match r with
          | Err err => mret (Err (Errorf ("generate nonce: " +:+ error_Error err)))
          | Ok nonce =>
              let ciphertext := cipher.Seal gcm nonce nonce plaintext aad in
              mret (Ok ciphertext)
          end
      end
  end.

(** [DecryptAESGCM] decrypts ciphertext produced by [EncryptAESGCM]; it
    expects the nonce prepended to the ciphertext. *)
Definition DecryptAESGCM (key ciphertext aad : bytes) : result error bytes :=
  match aes.NewCipher key with
  | Err err => Err (Errorf ("aes new cipher: " +:+ KeySizeError_Error err))
  | Ok block =>
      match cipher.NewGCM block with
      | Err err => Err (Errorf ("aes gcm: " +:+ error_Error err))
      | Ok gcm =>
          let nonceSize := cipher.NonceSize gcm in
          if (length ciphertext <? nonceSize)%nat
          then Err (Errorf "ciphertext too short")
          else
            let nonce := take nonceSize ciphertext in
            let ct := drop nonceSize ciphertext in
            match cipher.Open gcm [] nonce ct aad with
            | None =>
                Err (Errorf "aes gcm decrypt: cipher: message authentication failed")
            | Some plaintext => Ok plaintext
            end
      end
  end.

(** [GenerateAESKey] generates a random 256-bit AES key. *)
Definition GenerateAESKey : Go (result error bytes) :=
  r ← rand_Read 32;
  match r with
  | Err err => mret (Err (Errorf ("generate aes key: " +:+ error_Error err)))
  | Ok key => mret (Ok key)
  end.

(** [DeriveKey] derives a key from the root key material using
    HKDF-SHA256; [context] is the HKDF info parameter. *)
Definition DeriveKey (rootKey context : bytes) (length : Z) : result error bytes :=
  if (length <=? 0) || (64 <? length)
  then Err (Errorf ("invalid derived key length: " +:+ pretty length +:+ " (must be 1-64)"))
  else
    let r := hkdf.New rootKey None context in
    match hkdf.ReadFull r (Z.to_nat length) with
    | None => Err (Errorf "hkdf derive: hkdf: entropy limit reached")
    | Some derived => Ok derived
    end.

Definition GenerateECDSAKey (curve : elliptic_Curve) : Go (result error ecdsa_PrivateKey) := fun w =>
  match ecdsa_GenerateKey curve (rng w) with
  | None => Done (Err (Errorf "generate ecdsa key: crypto/rand: read failed")) (set_rng S w)
  | Some key => Done (Ok key) (set_rng S w)
  end.

(** [SignECDSA] signs the SHA-256 digest of [data]. *)
Definition SignECDSA (key : ecdsa_PrivateKey) (data : bytes) : Go (result error bytes) := fun w =>
  let hash := sha256.Sum256 data in
  match ecdsa_SignASN1 (rng w) key hash with
  | None => Done (Err (Errorf "ecdsa sign: crypto/rand: read failed")) (set_rng S w)
  | Some sig => Done (Ok sig) (set_rng S w)
  end.

Definition VerifyECDSA (pub : ecdsa_PublicKey) (data signature : bytes) : bool :=
  let hash := sha256.Sum256 data in
  ecdsa_VerifyASN1 pub hash signature.

Definition MarshalPublicKey (pub : ecdsa_PublicKey) : result error bytes :=
  match x509_MarshalPKIXPublicKey pub with
  | None => Err (Errorf "marshal public key: x509: unsupported public key")
  | Some der => Ok der
  end.

Definition MarshalPrivateKey (key : ecdsa_PrivateKey) : result error bytes :=
  match x509_MarshalPKCS8PrivateKey key with
  | None => Err (Errorf "marshal private key: x509: unknown curve while marshaling to PKCS#8")
  | Some der => Ok der
  end.

Definition UnmarshalPrivateKey (der : bytes) : result error ecdsa_PrivateKey :=
  match x509_ParsePKCS8PrivateKey der with
  | None => Err (Errorf "parse private key: x509: failed to parse private key")
  | Some parsed =>
      match parsed with
      | pkcs8_ecdsa key => Ok key
      | pkcs8_other => Err (Errorf "not an ECDSA private key")
      end
  end.

End crypto.

(* ===================================================================== *)
(** * package keystore: MemoryStore (memory.go) *)
(* ===================================================================== *)

(** The [Store] interface (store.go). *)
Record Store : Type := {
  Store_Put : loc -> Go (option error);
  Store_Get : string -> Go (result error loc);
  Store_List : KeyStatus -> Go (result error (list loc));
  Store_UpdateStatus : string -> KeyStatus -> Go (option error);
  Store_Delete : string -> Go (option error);
}.

Definition NewMemoryStore : Go unit := modify (set_keys (fun _ => ∅)).

Definition MemoryStore_Put (entry : loc) : Go (option error) :=
  id ← field ID entry;
  m ← gets keys;
  match m !! id with
  | Some _ => mret (Some (Errorf ("key " +:+ id +:+ " already exists")))
  | None =>
      modify (set_keys <[id := entry]>);;
      mret None
  end.

Definition MemoryStore_Get (id : string) : Go (result error loc) :=
  m ← gets keys;
  match m !! id with
  | None => mret (Err ErrKeyNotFound)
  | Some entry => mret (Ok entry)
  end.

(** The loop of [List]: [result] accumulates the matching entries. *)
Fixpoint MemoryStore_List_loop (filter : KeyStatus) (kvs : list (string * loc))
    (result : list loc) : Go (list loc) :=
  match kvs with
  | [] => mret result
  | (_, entry) :: kvs' =>
      st ← field Status entry;
      if (filter =? 0) || (st =? filter)
      then MemoryStore_List_loop filter kvs' (result ++ [entry])
      else MemoryStore_List_loop filter kvs' result
  end.

Definition MemoryStore_UpdateStatus (id : string) (status : KeyStatus) : Go (option error) :=
  m ← gets keys;
  match m !! id with
  | None => mret (Some ErrKeyNotFound)
  | Some entry =>
      assign entry (KeyEntry_with_Status status);;
      mret None
  end.

Definition MemoryStore_Delete (id : string) : Go (option error) :=
  m ← gets keys;
  match m !! id with
  | None => mret (Some ErrKeyNotFound)
  | Some _ =>
      modify (set_keys (delete id));;
      mret None
  end.

Section keystore.
Context `{Env} `{X509} `{JSON}.

Definition MemoryStore_List (filter : KeyStatus) : Go (result error (list loc)) :=
  m ← gets keys;
  kvs ← range m;
  result ← MemoryStore_List_loop filter kvs [];
  mret (Ok result).

Definition MemoryStore : Store := {|
  Store_Put := MemoryStore_Put;
  Store_Get := MemoryStore_Get;
  Store_List := MemoryStore_List;
  Store_UpdateStatus := MemoryStore_UpdateStatus;
  Store_Delete := MemoryStore_Delete;
|}.

(* ------------------------------------------------------------------- *)
(** ** PersistentStore (persistent.go) *)
(* ------------------------------------------------------------------- *)

(** The loop of [save] over the entries of the map. *)
Fixpoint PersistentStore_save_loop (kvs : list (string * loc))
    (keys : list persistedKey) : Go (result error (list persistedKey)) :=
  match kvs with
  | [] => mret (Ok keys)
  | (_, p) :: kvs' =>
      e ← load p;
      match MarshalPrivateKey (PrivateKey e) with
      | Err err =>
          mret (Err (Errorf ("marshal key " +:+ ID e +:+ ": " +:+ error_Error err)))
      | Ok der =>
          PersistentStore_save_loop kvs'
            (keys ++ [ {| pk_ID := ID e;
                          pk_Algorithm := Algorithm e;
                          pk_Status := Status e;
                          pk_PrivateKeyDER := der;
                          pk_CreatedAt := CreatedAt e;
                          pk_RotatedAt := RotatedAt e;
                          pk_Labels := Labels e |} ])
      end
  end.

(** [save] writes all keys to a temp file then atomically renames it. *)
Definition PersistentStore_save (path : string) : Go (option error) :=
  m ← gets keys;
  kvs ← range m;
  r ← PersistentStore_save_loop kvs [];
  match r with
  | Err err => mret (Some err)
  | Ok keys =>
      match json_MarshalIndent keys with
      | None => mret (Some (Errorf "marshal json: json: unsupported value"))
      | Some data =>
          let tmpPath := path +:+ ".tmp" in
          err ← os_WriteFile tmpPath data;
          match err with
          | Some err => mret (Some (Errorf ("write temp file: " +:+ error_Error err)))
          | None =>
              err ← os_Rename tmpPath path;
              match err with
              | Some err => mret (Some (Errorf ("atomic rename: " +:+ error_Error err)))
              | None => mret None
              end
          end
      end
  end.

(** The loop of [load] over the decoded records. *)
Fixpoint PersistentStore_load_loop (keys : list persistedKey) : Go (option error) :=
  match keys with
  | [] => mret None
  | pk :: keys' =>
      match UnmarshalPrivateKey (pk_PrivateKeyDER pk) with
      | Err err =>
          mret (Some (Errorf ("unmarshal key " +:+ pk_ID pk +:+ ": " +:+ error_Error err)))
      | Ok privKey =>
          p ← new {| ID := pk_ID pk;
                     Algorithm := pk_Algorithm pk;
                     Status := pk_Status pk;
                     PrivateKey := privKey;
                     CreatedAt := pk_CreatedAt pk;
                     RotatedAt := pk_RotatedAt pk;
                     Labels := pk_Labels pk |};
          modify (set_keys <[pk_ID pk := p]>);;
          PersistentStore_load_loop keys'
      end
  end.

(** [load] reads keys from the persisted file. *)
Definition PersistentStore_load (path : string) : Go (option error) :=
  r ← os_ReadFile path;
  match r with
  | Err err => mret (Some (Errorf ("read file: " +:+ error_Error err)))
  | Ok data =>
      match json_Unmarshal data with
      | None => mret (Some (Errorf "unmarshal json: invalid input"))
      | Some keys => PersistentStore_load_loop keys
      end
  end.

(** [filepath.Dir] is only passed to [os.MkdirAll]. *)
Definition filepath_Dir (path : string) : string := path.

(** [NewPersistentStore] creates a store that persists to the given file
    path; if the file exists, it loads keys from it on startup. *)
Definition NewPersistentStore (path : string) : Go (option error) :=
  NewMemoryStore;;
  err ← os_MkdirAll (filepath_Dir path);
  match err with
  | Some err => mret (Some (Errorf ("create data dir: " +:+ error_Error err)))
  | None =>
      err ← os_Stat path;
      match err with
      | None =>
          err ← PersistentStore_load path;
          match err with
          | Some err => mret (Some (Errorf ("load existing data: " +:+ error_Error err)))
          | None => mret None
          end
      | Some _ => mret None
      end
  end.

Definition PersistentStore_Put (path : string) (entry : loc) : Go (option error) :=
  err ← MemoryStore_Put entry;
  match err with
  | Some err => mret (Some err)
  | None => PersistentStore_save path
  end.

Definition PersistentStore_UpdateStatus (path : string) (id : string) (status : KeyStatus)
    : Go (option error) :=
  err ← MemoryStore_UpdateStatus id status;
  match err with
  | Some err => mret (Some err)
  | None => PersistentStore_save path
  end.

Definition PersistentStore_Delete (path : string) (id : string) : Go (option error) :=
  err ← MemoryStore_Delete id;
  match err with
  | Some err => mret (Some err)
  | None => PersistentStore_save path
  end.

Definition PersistentStore (path : string) : Store := {|
  Store_Put := PersistentStore_Put path;
  Store_Get := MemoryStore_Get;
  Store_List := MemoryStore_List;
  Store_UpdateStatus := PersistentStore_UpdateStatus path;
  Store_Delete := PersistentStore_Delete path;
|}.

End keystore.

(* ===================================================================== *)
(** * package audit (logger.go) *)
(* ===================================================================== *)

Section audit.
Context `{Env}.

(** [Log] sends an entry to the async processing pipeline; when the
    buffer is full the entry is dropped. *)
Definition Logger_Log (operation keyID status peerAddr : string)
    (metadata : gmap string string) : Go unit :=
  id ← uuid_New;
  now ← Now;
  let entry := {| Entry_ID := id; Entry_Timestamp := now;
                  Entry_Operation := operation; Entry_KeyID := keyID;
                  Entry_Status := status; Entry_PeerAddress := peerAddr;
                  Entry_Metadata := metadata |} in
  ch ← gets audit_entries;
  cap ← gets audit_bufferSize;
  if (length ch <? cap)%nat
  then modify (set_audit_entries (fun ch => ch ++ [entry]))
  else mret tt.

End audit.

(** One iteration of [processLoop]: the oldest queued entry is appended to
    the retained store (the JSON line written to [out] and the fan-out to
    subscribers leave the store untouched). *)
Definition Logger_processLoop_step : Go bool :=
  ch ← gets audit_entries;
  match ch with
  | [] => mret false
  | entry :: ch' =>
      modify (set_audit_entries (fun _ => ch'));;
      modify (set_audit_store (fun st => st ++ [entry]));;
      mret true
  end.

(** The filters of [Query]: [true] when the loop executes [continue]. *)
Definition Query_skips (keyID operation : string) (start end_ : Time) (e : Entry) : bool :=
  (negb (String.eqb keyID "") && negb (String.eqb (Entry_KeyID e) keyID))
  || (negb (String.eqb operation "") && negb (String.eqb (Entry_Operation e) operation))
  || (negb (Time_IsZero start) && Time_Before (Entry_Timestamp e) start)
  || (negb (Time_IsZero end_) && Time_After (Entry_Timestamp e) end_).

(** The loop [for i := len(l.store) - 1; i >= 0; i--] of [Query]; [n] is
    [i + 1]. *)
Fixpoint Query_loop (store : list Entry) (keyID operation : string) (start end_ : Time)
    (limit : Z) (n : nat) (results : list Entry) : list Entry :=
  match n with
  | O => results
  | S i =>
      match store !! i with
      | None => results
      | Some e =>
          if Query_skips keyID operation start end_ e
          then Query_loop store keyID operation start end_ limit i results
          else
            let results := results ++ [e] in
            if (0 <? limit) && (limit <=? Z.of_nat (length results))
            then results
            else Query_loop store keyID operation start end_ limit i results
      end
  end.

(** [Query] returns stored audit entries matching the filter criteria. *)
Definition Query (store : list Entry) (keyID operation : string) (start end_ : Time)
    (limit : Z) : list Entry :=
  Query_loop store keyID operation start end_ limit (length store) [].

Definition Logger_Query (keyID operation : string) (start end_ : Time) (limit : Z)
    : Go (list Entry) :=
  store ← gets audit_store;
  mret (Query store keyID operation start end_ limit).

(* ===================================================================== *)
(** * package hsm *)
(* ===================================================================== *)

(** The [Provider] interface. *)
Record Provider : Type := {
  Provider_GenerateKey : elliptic_Curve -> Go (result error ecdsa_PrivateKey);
  Provider_Sign : ecdsa_PrivateKey -> bytes -> Go (result error bytes);
  Provider_Verify : ecdsa_PublicKey -> bytes -> bytes -> bool;
}.

(** [SoftwareHSM] delegates to package crypto. *)
Definition SoftwareHSM `{ECDSA} : Provider := {|
  Provider_GenerateKey := GenerateECDSAKey;
  Provider_Sign := SignECDSA;
  Provider_Verify := VerifyECDSA;
|}.

(* ===================================================================== *)
(** * package server (keymgmt.go, signing.go, encryption.go) *)
(* ===================================================================== *)

Definition status_Errorf (c : Code) (prefix : string) (err : error) : Status_error :=
  status_Error c (prefix +:+ error_Error err).

Definition keyError (err : error) : Status_error :=
  if decide (err = ErrKeyNotFound)
  then status_Error NotFound "key not found"
  else status_Error Internal (error_Error err).

Definition resolveCurve (algo : pb_KeyAlgorithm)
    : result Status_error (elliptic_Curve * KeyAlgorithm) :=
  if (algo =? KEY_ALGORITHM_ECDSA_P256) || (algo =? KEY_ALGORITHM_UNSPECIFIED)
  then Ok (P256, AlgorithmECDSAP256)
  else if algo =? KEY_ALGORITHM_ECDSA_P384
  then Ok (P384, AlgorithmECDSAP384)
  else Err (status_Error InvalidArgument ("unsupported algorithm: " +:+ pretty algo)).

Definition algoToProto (a : KeyAlgorithm) : pb_KeyAlgorithm :=
  if a =? AlgorithmECDSAP256 then KEY_ALGORITHM_ECDSA_P256
  else if a =? AlgorithmECDSAP384 then KEY_ALGORITHM_ECDSA_P384
  else KEY_ALGORITHM_UNSPECIFIED.

Definition statusToProto (s : KeyStatus) : pb_KeyStatus :=
  if s =? StatusActive then KEY_STATUS_ACTIVE
  else if s =? StatusRotated then KEY_STATUS_ROTATED
  else if s =? StatusDeactivated then KEY_STATUS_DEACTIVATED
  else KEY_STATUS_UNSPECIFIED.

Definition statusFromProto (s : pb_KeyStatus) : KeyStatus :=
  if s =? KEY_STATUS_ACTIVE then StatusActive
  else if s =? KEY_STATUS_ROTATED then StatusRotated
  else if s =? KEY_STATUS_DEACTIVATED then StatusDeactivated
  else 0.

(** [entryToProto] reads the entry through its pointer. *)
Definition entryToProto (p : loc) : Go KeyMetadata :=
  e ← load p;
  let meta := {| meta_KeyId := ID e;
                 meta_Algorithm := algoToProto (Algorithm e);
                 meta_Status := statusToProto (Status e);
                 meta_CreatedAt := Some (CreatedAt e);
                 meta_RotatedAt := None;
                 meta_Labels := Labels e |} in
  if negb (Time_IsZero (RotatedAt e))
  then mret {| meta_KeyId := meta_KeyId meta;
               meta_Algorithm := meta_Algorithm meta;
               meta_Status := meta_Status meta;
               meta_CreatedAt := meta_CreatedAt meta;
               meta_RotatedAt := Some (RotatedAt e);
               meta_Labels := meta_Labels meta |}
  else mret meta.

(** A non-blocking send on a channel of capacity [cap]. *)
Definition try_send {A : Type} (cap : nat) (x : A) (ch : list A) : list A :=
  if (length ch <? cap)%nat then ch ++ [x] else ch.

Section server.
Context `{Env} `{ECDSA} `{X509}.

(** The servers share one store, one provider and one audit logger. *)
Variable store : Store.
Variable hsm : Provider.

Definition broadcastEvent (eventType : pb_KeyEventType) (meta : KeyMetadata) : Go unit :=
  now ← Now;
  let event := {| event_Type := eventType; event_Metadata := meta;
                  event_Timestamp := now |} in
  modify (set_subscribers (map (try_send 32 event))).

Definition GenerateKey (Algorithm_ : pb_KeyAlgorithm) (Labels_ : gmap string string)
    : Go (result Status_error GenerateKeyResponse) :=
  match resolveCurve Algorithm_ with
  | Err err => mret (Err err)
  | Ok (curve, algo) =>
      r ← Provider_GenerateKey hsm curve;
      match r with
      | Err err => mret (Err (status_Errorf Internal "generate key: " err))
      | Ok key =>
          id ← uuid_New;
          now ← Now;
          entry ← new {| ID := id; Algorithm := algo; Status := StatusActive;
                         PrivateKey := key; CreatedAt := now; RotatedAt := 0;
                         Labels := Labels_ |};
          err ← Store_Put store entry;
          match err with
          | Some err => mret (Err (status_Errorf Internal "store key: " err))
          | None =>
              meta ← entryToProto entry;
              broadcastEvent KEY_EVENT_TYPE_CREATED meta;;
              id ← field ID entry;
              Logger_Log "GenerateKey" id "OK" "" ∅;;
              mret (Ok {| GenerateKey_Metadata := meta |})
          end
      end
  end.

Definition GetPublicKey (KeyId : string) : Go (result Status_error GetPublicKeyResponse) :=
  r ← Store_Get store KeyId;
  match r with
  | Err err => mret (Err (keyError err))
  | Ok entry =>
      e ← load entry;
      match MarshalPublicKey (PublicKey (PrivateKey e)) with
      | Err err => mret (Err (status_Errorf Internal "marshal public key: " err))
      | Ok der =>
          mret (Ok {| GetPublicKey_KeyId := ID e;
                      GetPublicKey_PublicKeyDer := der;
                      GetPublicKey_Algorithm := algoToProto (Algorithm e) |})
      end
  end.

Definition RotateKey (KeyId : string) : Go (result Status_error RotateKeyResponse) :=
  r ← Store_Get store KeyId;
  match r with
  | Err err => mret (Err (keyError err))
  | Ok old =>
      st ← field Status old;
      if negb (st =? StatusActive)
      then mret (Err (status_Error FailedPrecondition "can only rotate active keys"))
      else
        (* Generate new key with same algorithm *)
        algo ← field Algorithm old;
        match resolveCurve (algoToProto algo) with
        | Err err => mret (Err err)
        | Ok (curve, _) =>
            r ← Provider_GenerateKey hsm curve;
            match r with
            | Err err => mret (Err (status_Errorf Internal "generate key: " err))
            | Ok newKey =>
                id ← uuid_New;
                algo ← field Algorithm old;
                now ← Now;
                labels ← field Labels old;
                newEntry ← new {| ID := id; Algorithm := algo; Status := StatusActive;
                                  PrivateKey := newKey; CreatedAt := now; RotatedAt := 0;
                                  Labels := labels |};
                err ← Store_UpdateStatus store KeyId StatusRotated;
                match err with
                | Some err => mret (Err (status_Errorf Internal "update old key: " err))
                | None =>
                    assign old (KeyEntry_with_Status StatusRotated);;
                    now ← Now;
                    assign old (KeyEntry_with_RotatedAt now);;
                    err ← Store_Put store newEntry;
                    match err with
                    | Some err => mret (Err (status_Errorf Internal "store new key: " err))
                    | None =>
                        oldMeta ← entryToProto old;
                        newMeta ← entryToProto newEntry;
                        broadcastEvent KEY_EVENT_TYPE_ROTATED newMeta;;
                        newID ← field ID newEntry;
                        Logger_Log "RotateKey" KeyId "OK" "" {[ "new_key_id" := newID ]};;
                        mret (Ok {| OldKey := oldMeta; NewKey := newMeta |})
                    end
                end
            end
        end
  end.

Definition DeactivateKey (KeyId : string) : Go (result Status_error DeactivateKeyResponse) :=
  err ← Store_UpdateStatus store KeyId StatusDeactivated;
  match err with
  | Some err => mret (Err (keyError err))
  | None =>
      r ← Store_Get store KeyId;
      let entry := match r with Ok entry => entry | Err _ => nil_loc end in
      meta ← entryToProto entry;
      broadcastEvent KEY_EVENT_TYPE_DEACTIVATED meta;;
      Logger_Log "DeactivateKey" KeyId "OK" "" ∅;;
      mret (Ok {| Deactivate_Metadata := meta |})
  end.

(* ------------------------------------------------------------------- *)
(** ** SigningServer (signing.go) *)
(* ------------------------------------------------------------------- *)

Definition Sign (KeyId : string) (Data : bytes) : Go (result Status_error SignResponse) :=
  r ← Store_Get store KeyId;
  match r with
  | Err err => mret (Err (keyError err))
  | Ok entry =>
      st ← field Status entry;
      if negb (st =? StatusActive)
      then mret (Err (status_Error FailedPrecondition "key is not active"))
      else
        key ← field PrivateKey entry;
        r ← Provider_Sign hsm key Data;
        match r with
        | Err err =>
            Logger_Log "Sign" KeyId "ERROR" "" ∅;;
            mret (Err (status_Errorf Internal "sign: " err))
        | Ok sig =>
            Logger_Log "Sign" KeyId "OK" "" ∅;;
            mret (Ok {| Signature := sig; Sign_KeyId := KeyId |})
        end
  end.

Definition Verify (KeyId : string) (Data Signature_ : bytes)
    : Go (result Status_error VerifyResponse) :=
  r ← Store_Get store KeyId;
  match r with
  | Err err => mret (Err (keyError err))
  | Ok entry =>
      key ← field PrivateKey entry;
      let valid := Provider_Verify hsm (PublicKey key) Data Signature_ in
      Logger_Log "Verify" KeyId "OK" "" ∅;;
      mret (Ok {| Valid := valid |})
  end.

(* ------------------------------------------------------------------- *)
(** ** EncryptionServer (encryption.go) *)
(* ------------------------------------------------------------------- *)

(** [deriveSymmetricKey] produces a 32-byte AES key from an ECDSA key via
    HKDF. *)
Definition deriveSymmetricKey (entry : loc) : Go (result error bytes) :=
  key ← field PrivateKey entry;
  match MarshalPrivateKey key with
  | Err err => mret (Err err)
  | Ok privBytes => mret (DeriveKey privBytes (bytes_of_string "vault-aes-gcm") 32)
  end.

Definition Encrypt (KeyId : string) (Plaintext_ Aad : bytes)
    : Go (result Status_error EncryptResponse) :=
  r ← Store_Get store KeyId;
  match r with
  | Err err => mret (Err (keyError err))
  | Ok entry =>
      st ← field Status entry;
      if negb (st =? StatusActive)
      then mret (Err (status_Error FailedPrecondition "key is not active"))
      else
        (* Derive a symmetric key from the ECDSA private key bytes for AES-GCM. *)
        r ← deriveSymmetricKey entry;
        match r with
        | Err err => mret (Err (status_Errorf Internal "derive symmetric key: " err))
        | Ok symKey =>
            r ← EncryptAESGCM symKey Plaintext_ Aad;
            match r with
            | Err err =>
                Logger_Log "Encrypt" KeyId "ERROR" "" ∅;;
                mret (Err (status_Errorf Internal "encrypt: " err))
            | Ok ct =>
                Logger_Log "Encrypt" KeyId "OK" "" ∅;;
                mret (Ok {| Ciphertext := ct; Encrypt_KeyId := KeyId |})
            end
        end
  end.

Definition Decrypt (KeyId : string) (Ciphertext_ Aad : bytes)
    : Go (result Status_error DecryptResponse) :=
  r ← Store_Get store KeyId;
  match r with
  | Err err => mret (Err (keyError err))
  | Ok entry =>
      r ← deriveSymmetricKey entry;
      match r with
      | Err err => mret (Err (status_Errorf Internal "derive symmetric key: " err))
      | Ok symKey =>
          match DecryptAESGCM symKey Ciphertext_ Aad with
          | Err err =>
              Logger_Log "Decrypt" KeyId "ERROR" "" ∅;;
              mret (Err (status_Errorf InvalidArgument "decrypt: " err))
          | Ok pt =>
              Logger_Log "Decrypt" KeyId "OK" "" ∅;;
              mret (Ok {| Plaintext := pt |})
          end
      end
  end.

(** [EncryptionServer.DeriveKey]; [Length] is the request's integer
    field. *)
Definition EncryptionServer_DeriveKey (RootKeyId : string) (Context_ : bytes) (Length : Z)
    : Go (result Status_error DeriveKeyResponse) :=
  r ← Store_Get store RootKeyId;
  match r with
  | Err err => mret (Err (keyError err))
  | Ok entry =>
      st ← field Status entry;
      if negb (st =? StatusActive)
      then mret (Err (status_Error FailedPrecondition "root key is not active"))
      else
        let length := Length in
        if (length <=? 0) || (64 <? length)
        then mret (Err (status_Error InvalidArgument "length must be 1-64 bytes"))
        else
          key ← field PrivateKey entry;
          match MarshalPrivateKey key with
          | Err err => mret (Err (status_Errorf Internal "marshal root key: " err))
          | Ok rootBytes =>
              match DeriveKey rootBytes Context_ length with
              | Err err => mret (Err (status_Errorf Internal "derive key: " err))
              | Ok derived =>
                  Logger_Log "DeriveKey" RootKeyId "OK" "" ∅;;
                  mret (Ok {| DerivedKey := derived |})
              end
          end
  end.

End server.

(* ===================================================================== *)
(** * The other operations of the servers and the shell

    [ListKeys] (keymgmt.go), [BatchSign] and [StreamSign] (signing.go),
    [Logger.Close] with the processing loop (logger.go) and the bearer
    token check (interceptor/auth.go). *)
(* ===================================================================== *)

(** Modelled from the spec: further messages of the generated package,
    with the fields the servers read and write; a [SignResult] and a
    [StreamSignResponse] are "per-item {signature, error}". *)
Record ListKeysResponse : Type := { Keys : list KeyMetadata }.
Record SignResult : Type := { SignResult_Signature : bytes; SignResult_Error : string }.
Record BatchSignResponse : Type := { Results : list (option SignResult) }.
Record StreamSignRequest : Type := { StreamSign_KeyId : string; StreamSign_Data : bytes }.
Record StreamSignResponse : Type := {
  StreamSign_Signature : bytes;
  StreamSign_Error : string;
}.

(** The order in which the goroutines started by one function run: the
    scheduler's choice among the tasks, each an index with its datum. *)
Class Scheduler : Type := {
  go_order : nat -> list (nat * bytes) -> list (nat * bytes);
}.

(** A bidirectional stream as the handler sees it: the results of the
    successive calls of [Recv] ([io.EOF] follows the last one; [Err] is
    any other error), and the error of the [n]-th call of [Send], if it
    fails. *)
Record SignStream : Type := {
  stream_Recv : list (result error StreamSignRequest);
  stream_Send : nat -> option error;
}.

(** The loop of [ListKeys] over the entries the store returned. *)
Fixpoint ListKeys_loop (entries : list loc) (keys : list KeyMetadata)
    : Go (list KeyMetadata) :=
  match entries with
  | [] => mret keys
  | e :: entries' =>
      meta ← entryToProto e;
      ListKeys_loop entries' (keys ++ [meta])
  end.

Section operations.
Context `{Env} `{ECDSA} `{X509} `{Scheduler}.

Variable store : Store.
Variable hsm : Provider.

Definition ListKeys (StatusFilter : pb_KeyStatus)
    : Go (result Status_error ListKeysResponse) :=
  let filter := statusFromProto StatusFilter in
  r ← Store_List store filter;
  match r with
  | Err err => mret (Err (status_Errorf Internal "list keys: " err))
  | Ok entries =>
      keys ← ListKeys_loop entries [];
      mret (Ok {| Keys := keys |})
  end.

(** The body of one goroutine of [BatchSign]: it signs [data] and writes
    [results[i]]. *)
Definition BatchSign_worker (entry : loc) (i : nat) (data : bytes)
    (results : list (option SignResult)) : Go (list (option SignResult)) :=
  key ← field PrivateKey entry;
  r ← Provider_Sign hsm key data;
  match r with
  | Err err =>
      mret (<[i := Some {| SignResult_Signature := [];
                           SignResult_Error := error_Error err |}]> results)
  | Ok sig =>
      mret (<[i := Some {| SignResult_Signature := sig; SignResult_Error := "" |}]> results)
  end.

(** The goroutines of [BatchSign], in the order the scheduler runs them,
    until [wg.Wait()] returns. *)
Fixpoint BatchSign_run (entry : loc) (tasks : list (nat * bytes))
    (results : list (option SignResult)) : Go (list (option SignResult)) :=
  match tasks with
  | [] => mret results
  | (i, data) :: tasks' =>
      results ← BatchSign_worker entry i data results;
      BatchSign_run entry tasks' results
  end.

Definition BatchSign (KeyId : string) (Data : list bytes)
    : Go (result Status_error BatchSignResponse) :=
  r ← Store_Get store KeyId;
  match r with
  | Err err => mret (Err (keyError err))
  | Ok entry =>
      st ← field Status entry;
      if negb (st =? StatusActive)
      then mret (Err (status_Error FailedPrecondition "key is not active"))
      else
        let results := replicate (length Data) None in
        tasks ← (fun w => Done (go_order (rng w) (imap (fun i data => (i, data)) Data))
                               (set_rng S w));
        results ← BatchSign_run entry tasks results;
        Logger_Log "BatchSign" KeyId "OK" "" ∅;;
        mret (Ok {| Results := results |})
  end.

(** [stream.Send(resp)] inside the loop of [StreamSign]: a failure ends
    the handler with the error, otherwise the loop goes on ([continue]);
    [sent] are the responses sent so far. *)
Definition StreamSign_send (stream : SignStream) (resp : StreamSignResponse)
    (sent : list StreamSignResponse)
    (continue : list StreamSignResponse -> Go (option error * list StreamSignResponse))
    : Go (option error * list StreamSignResponse) :=
  match stream_Send stream (length sent) with
  | Some sendErr => mret (Some sendErr, sent)
  | None => continue (sent ++ [resp])
  end.

(** The loop of [StreamSign] over what [Recv] returns. *)
Fixpoint StreamSign_loop (stream : SignStream)
    (recv : list (result error StreamSignRequest)) (sent : list StreamSignResponse)
    : Go (option error * list StreamSignResponse) :=
  match recv with
  | [] => mret (None, sent)
  | Err err :: _ => mret (Some err, sent)
  | Ok req :: recv' =>
      r ← Store_Get store (StreamSign_KeyId req);
      match r with
      | Err _ =>
          StreamSign_send stream
            {| StreamSign_Signature := []; StreamSign_Error := "key not found" |}
            sent (StreamSign_loop stream recv')
      | Ok entry =>
          st ← field Status entry;
          if negb (st =? StatusActive)
          then
            StreamSign_send stream
              {| StreamSign_Signature := []; StreamSign_Error := "key is not active" |}
              sent (StreamSign_loop stream recv')
          else
            key ← field PrivateKey entry;
            r ← Provider_Sign hsm key (StreamSign_Data req);
            match r with
            | Err err =>
                StreamSign_send stream
                  {| StreamSign_Signature := []; StreamSign_Error := error_Error err |}
                  sent (StreamSign_loop stream recv')
            | Ok sig =>
                StreamSign_send stream
                  {| StreamSign_Signature := sig; StreamSign_Error := "" |}
                  sent (StreamSign_loop stream recv')
            end
      end
  end.

(** [StreamSign] returns the error that ended the stream ([None] at
    [io.EOF]); the second component is what it sent, in order. *)
Definition StreamSign (stream : SignStream)
    : Go (option error * list StreamSignResponse) :=
  StreamSign_loop stream (stream_Recv stream) [].

End operations.

(** [processLoop] once the channel has been closed: [for entry := range
    l.entries] takes the queued entries one by one and ends on the empty
    queue; [n] bounds the iterations. *)
Fixpoint Logger_processLoop (n : nat) : Go unit :=
  match n with
  | O => mret tt
  | S n' =>
      more ← Logger_processLoop_step;
      if more : bool then Logger_processLoop n' else mret tt
  end.

(** [Close] closes the channel and waits for the loop to drain it. *)
Definition Logger_Close : Go unit :=
  ch ← gets audit_entries;
  Logger_processLoop (length ch).

(** [metadata.MD] of the incoming context, with its keys in lower case;
    [None] when the context carries no metadata. *)
Definition MD : Type := gmap string (list string).

Definition MD_Get (md : MD) (k : string) : list string := default [] (md !! k).

(** [strings.TrimPrefix] *)
Definition strings_TrimPrefix (s prefix : string) : string :=
  if String.prefix prefix s
  then String.substring (String.length prefix) (String.length s - String.length prefix) s
  else s.

Definition validateToken (md : option MD) (expected : string) : option Status_error :=
  match md with
  | None => Some (status_Error Unauthenticated "missing metadata")
  | Some md =>
      let values := MD_Get md "authorization" in
      match values with
      | [] => Some (status_Error Unauthenticated "missing authorization header")
      | v :: _ =>
          let token := strings_TrimPrefix v "Bearer " in
          if negb (String.eqb token expected)
          then Some (status_Error Unauthenticated "invalid token")
          else None
      end
  end.

(** [AuthUnary token] around a handler; [md] is the metadata of the
    request's context. *)
Definition AuthUnary {A : Type} (token : string) (md : option MD)
    (handler : Go (result Status_error A)) : Go (result Status_error A) :=
  match validateToken md token with
  | Some err => mret (Err err)
  | None => handler
  end.

(* ===================================================================== *)
(** * The vocabulary of the properties *)
(* ===================================================================== *)

(* ------------------------------------------------------------------- *)
(** ** The store *)
(* ------------------------------------------------------------------- *)

(** The entry stored under an id, read through the store's pointer. *)
Definition entry_at (w : World) (id : string) : option KeyEntry :=
  p ← keys w !! id; heap w !! p.

(** The store as a map from ids to entries, read through the pointers. *)
Definition view (w : World) : gmap string KeyEntry :=
  omap (fun p => heap w !! p) (keys w).

(** Every pointer of the store is allocated and is stored under the id of
    the entry it points to: the invariant that [Put], [UpdateStatus],
    [Delete] and [load] maintain. *)
Definition store_wf (w : World) : Prop :=
  forall (id : string) (p : loc),
    keys w !! id = Some p -> exists e, heap w !! p = Some e /\ ID e = id.

Definition ptrs_valid (w : World) : Prop :=
  forall (id : string) (p : loc), keys w !! id = Some p -> is_Some (heap w !! p).

(** [w'] has the heap, the store map and the files of [w]. *)
Definition same_store (w w' : World) : Prop :=
  heap w' = heap w /\ keys w' = keys w /\ files w' = files w.

(** The test of the loop of [List] on the entry behind a pointer. *)
Definition List_selects (filter : KeyStatus) (w : World) (p : loc) : bool :=
  match heap w !! p with
  | Some e => (filter =? 0) || (Status e =? filter)
  | None => false
  end.

(* ------------------------------------------------------------------- *)
(** ** The facade *)
(* ------------------------------------------------------------------- *)

(** The curve [RotateKey] generates the new key on. *)
Definition rotation_curve (a : KeyAlgorithm) : elliptic_Curve :=
  if a =? AlgorithmECDSAP384 then P384 else P256.

(* ------------------------------------------------------------------- *)
(** ** The audit query *)
(* ------------------------------------------------------------------- *)

(** The filter in the specification's words: key id and operation match
    when non-empty, the timestamp is not before [start] when [start] is
    non-zero and not after [end_] when [end_] is non-zero. *)
Definition Query_matches (keyID operation : string) (start end_ : Time) (e : Entry) : bool :=
  (String.eqb keyID "" || String.eqb (Entry_KeyID e) keyID)
  && (String.eqb operation "" || String.eqb (Entry_Operation e) operation)
  && ((start =? 0) || (start <=? Entry_Timestamp e))
  && ((end_ =? 0) || (Entry_Timestamp e <=? end_)).

(** The answer of [Query] in closed form: the matching retained records,
    the most recently retained first, truncated to [limit] when
    [limit > 0]. *)
Definition Query_latest_first (store : list Entry) (keyID operation : string)
    (start end_ : Time) (limit : Z) : list Entry :=
  let matching := List.filter (Query_matches keyID operation start end_) (rev store) in
  if 0 <? limit then take (Z.to_nat limit) matching else matching.

(** The loop of [Query] over the entries it visits, the most recently
    retained first. *)
Fixpoint Query_visit (keyID operation : string) (start end_ : Time) (limit : Z)
    (l : list Entry) (results : list Entry) : list Entry :=
  match l with
  | [] => results
  | e :: l' =>
      if Query_skips keyID operation start end_ e
      then Query_visit keyID operation start end_ limit l' results
      else
        let results := results ++ [e] in
        if (0 <? limit) && (limit <=? Z.of_nat (length results))
        then results
        else Query_visit keyID operation start end_ limit l' results
  end.

Definition newer_first (a b : Entry) : Prop := Entry_Timestamp b <= Entry_Timestamp a.
Definition older_first (a b : Entry) : Prop := Entry_Timestamp a <= Entry_Timestamp b.

(** The answer in the specification's words: [results] are the retained
    records that match, in reverse chronological order (no record comes
    before one with a later timestamp), truncated to [limit] when
    [limit > 0].  Records with the same timestamp may come in either
    order. *)
Definition Query_spec (store : list Entry) (keyID operation : string) (start end_ : Time)
    (limit : Z) (results : list Entry) : Prop :=
  exists matching : list Entry,
    matching ≡ₚ List.filter (Query_matches keyID operation start end_) store
    /\ StronglySorted newer_first matching
    /\ results = (if 0 <? limit then take (Z.to_nat limit) matching else matching).

(* ------------------------------------------------------------------- *)
(** ** AES keys and HKDF *)
(* ------------------------------------------------------------------- *)

Definition valid_aes_key_length (n : nat) : Prop := n = 16%nat \/ n = 24%nat \/ n = 32%nat.

(** HKDF-SHA256 in the words of RFC 5869: [PRK = HMAC(salt, IKM)],
    [T(0)] is empty, [T(i) = HMAC(PRK, T(i-1) | info | i)] and the output
    is the first [L] octets of [T(1) | T(2) | ... | T(N)] with
    [N = ceil(L / 32)]. *)
Fixpoint HKDF_T (PRK info : bytes) (i : nat) : bytes :=
  match i with
  | O => []
  | S j => hmac.Sum PRK (HKDF_T PRK info j ++ info ++ [byte_of_Z (Z.of_nat i)])
  end.

Definition HKDF_SHA256 (IKM salt info : bytes) (L : nat) : bytes :=
  let PRK := hmac.Sum salt IKM in
  take L (flat_map (HKDF_T PRK info) (seq 1 ((L + 31) / 32))).

(* ------------------------------------------------------------------- *)
(** ** The persisted file *)
(* ------------------------------------------------------------------- *)

(** The record [save] writes for an entry whose key serializes to [der]. *)
Definition persisted (e : KeyEntry) (der : bytes) : persistedKey :=
  {| pk_ID := ID e; pk_Algorithm := Algorithm e; pk_Status := Status e;
     pk_PrivateKeyDER := der; pk_CreatedAt := CreatedAt e;
     pk_RotatedAt := RotatedAt e; pk_Labels := Labels e |}.

(** A process restart: the memory is gone, the files remain. *)
Definition restart (w : World) : World :=
  {| heap := ∅; keys := ∅; files := files w;
     audit_entries := []; audit_bufferSize := audit_bufferSize w; audit_store := [];
     subscribers := []; rng := rng w; ticks := ticks w |}.

Section saved.
Context `{X509} `{JSON}.

(** The contracts of the libraries are stated for the values they
    represent faithfully:
    - [key_valid] holds of the keys that [x509] serializes (a supported
      curve, a public point that belongs to the private scalar);
    - [json_faithful] holds of the records that [encoding/json] represents
      exactly (strings that are valid UTF-8, years within 0..9999). *)
Variable key_valid : ecdsa_PrivateKey -> Prop.
Variable json_faithful : persistedKey -> Prop.

(** [pk] is the record saved for [e], and its key parses back. *)
Definition saved_as (e : KeyEntry) (pk : persistedKey) : Prop :=
  x509_MarshalPKCS8PrivateKey (PrivateKey e) = Some (pk_PrivateKeyDER pk)
  /\ x509_ParsePKCS8PrivateKey (pk_PrivateKeyDER pk) = Some (pkcs8_ecdsa (PrivateKey e))
  /\ pk = persisted e (pk_PrivateKeyDER pk).

(** [data] is a file that [save] writes for a store whose entries are
    [m]: it decodes to the records saved for the entries of [m], one per
    id. *)
Definition saved_file (m : string -> option KeyEntry) (data : bytes) : Prop :=
  exists (es : list KeyEntry) (pks : list persistedKey),
    json_Unmarshal data = Some pks
    /\ Forall2 saved_as es pks
    /\ NoDup (ID <$> es)
    /\ (forall e, e ∈ es -> m (ID e) = Some e)
    /\ (forall id e, m id = Some e -> e ∈ es /\ ID e = id).

(** The entries of the store are keys that [x509] serializes and records
    that [encoding/json] represents exactly. *)
Definition serializable (w : World) : Prop :=
  (forall id e, entry_at w id = Some e -> key_valid (PrivateKey e))
  /\ (forall id e der,
        entry_at w id = Some e ->
        x509_MarshalPKCS8PrivateKey (PrivateKey e) = Some der ->
        json_faithful (persisted e der)).

End saved.

(* ------------------------------------------------------------------- *)
(** ** The other operations *)
(* ------------------------------------------------------------------- *)

(** The metadata [entryToProto] builds for an entry. *)
Definition KeyMetadata_of (e : KeyEntry) : KeyMetadata :=
  {| meta_KeyId := ID e;
     meta_Algorithm := algoToProto (Algorithm e);
     meta_Status := statusToProto (Status e);
     meta_CreatedAt := Some (CreatedAt e);
     meta_RotatedAt := if Time_IsZero (RotatedAt e) then None else Some (RotatedAt e);
     meta_Labels := Labels e |}.

(** The test of the loop of [List], on an entry. *)
Definition List_matches (filter : KeyStatus) (e : KeyEntry) : bool :=
  (filter =? 0) || (Status e =? filter).

(** [w'] is [w] but for the position of the random source: the same
    heap, store, files, audit queue and retained records, subscribers
    and clock. *)
Definition same_but_rng (w w' : World) : Prop := w' = set_rng (fun _ => rng w') w.

Section outcomes.
Context `{Env} `{ECDSA}.

(** The entry that [Log] builds in the state [w]. *)
Definition logged (operation keyID status : string) (metadata : gmap string string)
    (w : World) : Entry :=
  {| Entry_ID := uuid_NewString (rng w); Entry_Timestamp := time_Now (ticks w);
     Entry_Operation := operation; Entry_KeyID := keyID; Entry_Status := status;
     Entry_PeerAddress := ""; Entry_Metadata := metadata |}.

(** A per-item outcome of signing [data] under [key]: a signature that
    [ecdsa.SignASN1] returned for the SHA-256 digest with no error text,
    or no signature with the text of its failure. *)
Definition signed_by (key : ecdsa_PrivateKey) (data sig : bytes) (err : string) : Prop :=
  (exists s, ecdsa_SignASN1 s key (sha256.Sum256 data) = Some sig /\ err = "")
  \/ (exists s, ecdsa_SignASN1 s key (sha256.Sum256 data) = None
                /\ sig = [] /\ err = "ecdsa sign: crypto/rand: read failed").

(** What [StreamSign] answers to a request in the state [w]. *)
Definition StreamSign_answer (w : World) (req : StreamSignRequest)
    (resp : StreamSignResponse) : Prop :=
  match entry_at w (StreamSign_KeyId req) with
  | None => resp = {| StreamSign_Signature := []; StreamSign_Error := "key not found" |}
  | Some e =>
      if Status e =? StatusActive
      then signed_by (PrivateKey e) (StreamSign_Data req)
             (StreamSign_Signature resp) (StreamSign_Error resp)
      else resp = {| StreamSign_Signature := []; StreamSign_Error := "key is not active" |}
  end.

End outcomes.

(** The requests that the bearer-token check lets through: the first
    value of the authorization header is the token behind "Bearer ", or
    the bare token when the token does not itself start with "Bearer ". *)
Definition bearer_accepted (md : option MD) (expected : string) : Prop :=
  exists (m : MD) (v : string) (rest : list string),
    md = Some m
    /\ m !! "authorization" = Some (v :: rest)
    /\ (v = "Bearer " +:+ expected
        \/ (v = expected /\ String.prefix "Bearer " expected = false)).

(** What one broadcast of [event] does to the channels of the watchers:
    every channel with fewer than 32 pending events has [event] appended,
    a full channel is as it was, and the channels are the same ones. *)
Definition notified (event : KeyEvent) (w w' : World) : Prop :=
  length (subscribers w') = length (subscribers w)
  /\ forall (i : nat) (ch : list KeyEvent),
       subscribers w !! i = Some ch ->
       subscribers w' !! i = Some (if (length ch <? 32)%nat then ch ++ [event] else ch).

(* ===================================================================== *)
(** * A concrete environment and concrete states

    Instances of the interfaces under which the operations run on closed
    inputs: a random source of zero bytes that never fails, numbered
    UUIDs, a clock that advances by one, maps visited in the order of
    [map_to_list], and simple stand-ins for ECDSA, PKCS#8 and JSON that
    satisfy the contracts assumed of the libraries. *)
(* ===================================================================== *)

Definition example_Env : Env := {|
  rand_byte := fun _ => Byte.x00;
  rand_fails := fun _ => false;
  uuid_NewString := fun n => "uuid-" +:+ pretty n;
  time_Now := fun n => 1000 + Z.of_nat n;
  map_range := fun _ l => l;
|}.

(** A stand-in signature scheme: the public [X] of a valid key is its
    private [D], a signature is [D] followed by the digest. *)
Definition example_ECDSA : ECDSA := {|
  ecdsa_GenerateKey := fun c n =>
    Some {| PublicKey := {| Curve := c; X := Z.of_nat n; Y := 0 |}; D := Z.of_nat n |};
  ecdsa_SignASN1 := fun _ k hash => Some (be_bytes 8 (D k) ++ hash);
  ecdsa_VerifyASN1 := fun pub hash sig => bool_decide (sig = be_bytes 8 (X pub) ++ hash);
|}.

Definition example_key_valid (k : ecdsa_PrivateKey) : Prop := X (PublicKey k) = D k.

(** A stand-in serialization of any countable type: the bits of its
    code, one per byte. *)
Fixpoint pos_to_bytes (p : positive) : bytes :=
  match p with
  | xH => []
  | xO q => Byte.x00 :: pos_to_bytes q
  | xI q => Byte.x01 :: pos_to_bytes q
  end.

Fixpoint pos_of_bytes (bs : bytes) : option positive :=
  match bs with
  | [] => Some xH
  | b :: bs' =>
      q ← pos_of_bytes bs';
      if decide (b = Byte.x00) then Some (xO q)
      else if decide (b = Byte.x01) then Some (xI q)
      else None
  end.

Definition example_encode {A : Type} `{Countable A} (x : A) : bytes :=
  pos_to_bytes (encode x).
Definition example_decode {A : Type} `{Countable A} (bs : bytes) : option A :=
  pos_of_bytes bs ≫= decode.

#[global] Instance byte_countable : Countable byte.
Proof.
  apply (inj_countable' Byte.to_N (fun n => default Byte.x00 (Byte.of_N n))).
  intros b. by rewrite Byte.of_to_N.
Defined.

#[global] Instance elliptic_Curve_countable : Countable elliptic_Curve.
Proof.
  apply (inj_countable'
           (fun c => match c with P224 => 0 | P256 => 1 | P384 => 2 | P521 => 3 end)%nat
           (fun n => match n with 0 => P224 | 1 => P256 | 2 => P384 | _ => P521 end)%nat).
  by intros [].
Defined.

#[global] Instance ecdsa_PublicKey_eq_dec : EqDecision ecdsa_PublicKey.
Proof. solve_decision. Defined.
#[global] Instance ecdsa_PrivateKey_eq_dec : EqDecision ecdsa_PrivateKey.
Proof. solve_decision. Defined.
#[global] Instance persistedKey_eq_dec : EqDecision persistedKey.
Proof. solve_decision. Defined.

#[global] Instance ecdsa_PrivateKey_countable : Countable ecdsa_PrivateKey.
Proof.
  apply (inj_countable'
           (fun k => (Curve (PublicKey k), X (PublicKey k), Y (PublicKey k), D k))
           (fun '(c, x, y, d) => {| PublicKey := {| Curve := c; X := x; Y := y |}; D := d |})).
  by intros [[] ?].
Defined.

#[global] Instance persistedKey_countable : Countable persistedKey.
Proof.
  apply (inj_countable'
           (fun pk => (pk_ID pk, pk_Algorithm pk, pk_Status pk, pk_PrivateKeyDER pk,
                       pk_CreatedAt pk, pk_RotatedAt pk, pk_Labels pk))
           (fun '(i, a, s, d, c, r, l) =>
              {| pk_ID := i; pk_Algorithm := a; pk_Status := s; pk_PrivateKeyDER := d;
                 pk_CreatedAt := c; pk_RotatedAt := r; pk_Labels := l |})).
  by intros [].
Defined.

Definition example_X509 : X509 := {|
  x509_MarshalPKCS8PrivateKey := fun k => Some (example_encode k);
  x509_ParsePKCS8PrivateKey := fun der => pkcs8_ecdsa <$> example_decode der;
  x509_MarshalPKIXPublicKey := fun pub =>
    Some (example_encode {| PublicKey := pub; D := 0 |});
|}.

Definition example_JSON : JSON := {|
  json_MarshalIndent := fun ks => Some (example_encode ks);
  json_Unmarshal := fun data => example_decode data;
|}.

Definition example_key (n : Z) : ecdsa_PrivateKey :=
  {| PublicKey := {| Curve := P256; X := n; Y := 0 |}; D := n |}.

Definition example_entry (id : string) (status : KeyStatus) (n : Z) : KeyEntry :=
  {| ID := id; Algorithm := AlgorithmECDSAP256; Status := status;
     PrivateKey := example_key n; CreatedAt := 500; RotatedAt := 0;
     Labels := {[ "env" := "test" ]} |}.

(** Two stored keys, [key-1] ACTIVE and [key-2] ROTATED, and two
    allocated entries with the id [key-3] that are not stored. *)
Definition example_world : World :=
  {| heap := {[ 1%nat := example_entry "key-1" StatusActive 11;
                2%nat := example_entry "key-2" StatusRotated 22;
                3%nat := example_entry "key-3" StatusActive 33;
                4%nat := example_entry "key-3" StatusDeactivated 44 ]};
     keys := {[ "key-1" := 1%nat; "key-2" := 2%nat ]};
     files := ∅;
     audit_entries := [];
     audit_bufferSize := 1024;
     audit_store := [];
     subscribers := [[]];
     rng := 0;
     ticks := 0 |}.

(** [example_world] with the id [uuid-1], the next one generated, already
    taken. *)
Definition example_world_taken : World :=
  set_keys <["uuid-1" := 2%nat]> example_world.

(** A 32-byte key, a plaintext and two additional-data strings of two
    blocks each.  [aad_collide] differs from [aad_zero] in both blocks: its
    first block is the field element 1 and its second block is the hash
    subkey [H = AES_K(0^128)] of the all-zero 32-byte key, so that their
    GHASH values coincide. *)
Definition key_zero32 : bytes := replicate 32 Byte.x00.
Definition key_zero16 : bytes := replicate 16 Byte.x00.
Definition plaintext_secret : bytes := bytes_of_string "secret".
Definition aad_zero : bytes := replicate 32 Byte.x00.
Definition aad_collide : bytes :=
  (Byte.x80 :: replicate 15 Byte.x00) ++ be_bytes 16 0xdc95c078a2408989ad48a21492842087.

Section concrete.
#[local] Existing Instance example_Env.

(** The frame that [EncryptAESGCM] returns for [plaintext_secret] and
    [aad_zero] under [key_zero32] in [example_world]. *)
Definition framed_secret : bytes :=
  Eval vm_compute in
    match EncryptAESGCM key_zero32 plaintext_secret aad_zero example_world with
    | Done (Ok framed) _ => framed
    | _ => []
    end.

End concrete.

(** The key schedules of the two zero keys. *)
Definition block_zero32 : aes.Block :=
  Eval vm_compute in
    match aes.NewCipher key_zero32 with
    | Ok b => b
    | Err _ => {| aes.Nr := 0; aes.enc := [] |}
    end.

Definition block_zero16 : aes.Block :=
  Eval vm_compute in
    match aes.NewCipher key_zero16 with
    | Ok b => b
    | Err _ => {| aes.Nr := 0; aes.enc := [] |}
    end.

(** Retained audit records, in the order they were logged. *)
Definition example_audit (id : string) (ts : Time) (operation keyID : string) : Entry :=
  {| Entry_ID := id; Entry_Timestamp := ts; Entry_Operation := operation;
     Entry_KeyID := keyID; Entry_Status := "OK"; Entry_PeerAddress := "";
     Entry_Metadata := ∅ |}.

Definition example_audit_store : list Entry :=
  [ example_audit "a1" 10 "GenerateKey" "key-1";
    example_audit "a2" 20 "Sign" "key-1";
    example_audit "a3" 30 "GenerateKey" "key-2";
    example_audit "a4" 40 "Sign" "key-1";
    example_audit "a5" 50 "Verify" "key-1" ].

(** Two retained records of [key-1]; the one retained last carries the
    earlier timestamp. *)
Definition example_audit_store_late : list Entry :=
  [ example_audit "b1" 20 "Sign" "key-1";
    example_audit "b2" 10 "Sign" "key-1" ].

(** A logger whose buffer of capacity 1 is full, and two subscribers, the
    first with a full channel. *)
Definition example_world_full : World :=
  {| heap := ∅; keys := ∅; files := ∅;
     audit_entries := [example_audit "a1" 10 "Sign" "key-1"];
     audit_bufferSize := 1;
     audit_store := [example_audit "a0" 5 "GenerateKey" "key-1"];
     subscribers :=
       [ replicate 32 {| event_Type := KEY_EVENT_TYPE_CREATED;
                         event_Metadata :=
                           {| meta_KeyId := "key-1";
                              meta_Algorithm := KEY_ALGORITHM_ECDSA_P256;
                              meta_Status := KEY_STATUS_ACTIVE;
                              meta_CreatedAt := Some 500; meta_RotatedAt := None;
                              meta_Labels := ∅ |};
                         event_Timestamp := 500 |};
         [] ];
     rng := 0;
     ticks := 0 |}.

(** A scheduler that runs the goroutines of a batch last to first. *)
Definition example_Scheduler : Scheduler := {| go_order := fun _ l => rev l |}.

(** A stream of three requests, for the ACTIVE [key-1], the ROTATED
    [key-2] and an unknown id, that then reports EOF, and whose sends
    succeed. *)
Definition example_request (id : string) : StreamSignRequest :=
  {| StreamSign_KeyId := id; StreamSign_Data := [Byte.x68; Byte.x69] |}.

Definition example_stream : SignStream :=
  {| stream_Recv :=
       Ok <$> [example_request "key-1"; example_request "key-2"; example_request "key-9"];
     stream_Send := fun _ => None |}.

(** [example_world] with a key file that does not decode. *)
Definition example_world_corrupt : World :=
  set_files <["data/keys.json" := [Byte.x7b]]> example_world.

(* ===================================================================== *)
(** * Properties *)
(* ===================================================================== *)

(* ------------------------------------------------------------------- *)
(** ** Bytes *)
(* ------------------------------------------------------------------- *)

Lemma byte_to_Z_range b : 0 <= byte_to_Z b < 256.
Proof.
  unfold byte_to_Z. pose proof (Byte.to_N_bounded b). lia.
Qed.

Lemma byte_of_to_Z b : byte_of_Z (byte_to_Z b) = b.
Proof.
  unfold byte_of_Z. rewrite Z.mod_small by apply byte_to_Z_range.
  unfold byte_to_Z. rewrite N2Z.id, Byte.of_to_N. done.
Qed.

Lemma byte_to_of_Z z : byte_to_Z (byte_of_Z z) = z mod 256.
Proof.
  unfold byte_of_Z, byte_to_Z.
  assert (Hr : 0 <= z mod 256 < 256) by (apply Z.mod_pos_bound; lia).
  destruct (Byte.of_N (Z.to_N (z mod 256))) as [b|] eqn:E.
  - apply Byte.to_of_N in E. simpl. rewrite E. lia.
  - apply Byte.of_N_None_iff in E. lia.
Qed.

Lemma Z_lxor_small a b : 0 <= a < 256 -> 0 <= b < 256 -> 0 <= Z.lxor a b < 256.
Proof.
  intros Ha Hb. split; [apply Z.lxor_nonneg; lia|].
  change 256 with (2 ^ 8).
  destruct (Z.eq_dec (Z.lxor a b) 0) as [->|Hne]; [lia|].
  apply Z.log2_lt_pow2; [pose proof (Z.lxor_nonneg a b); lia|].
  eapply Z.le_lt_trans; [apply Z.log2_lxor; lia|].
  apply Z.max_lub_lt.
  - destruct (Z.eq_dec a 0) as [->|]; [simpl; lia|]. apply Z.log2_lt_pow2; lia.
  - destruct (Z.eq_dec b 0) as [->|]; [simpl; lia|]. apply Z.log2_lt_pow2; lia.
Qed.

Lemma byte_xor_cancel_r a b : byte_xor (byte_xor a b) b = a.
Proof.
  unfold byte_xor. rewrite byte_to_of_Z.
  rewrite Z.mod_small by (apply Z_lxor_small; apply byte_to_Z_range).
  rewrite Z.lxor_assoc, Z.lxor_nilpotent, Z.lxor_0_r. apply byte_of_to_Z.
Qed.

(* ------------------------------------------------------------------- *)
(** ** Test vectors of the library models *)
(* ------------------------------------------------------------------- *)

(** The models of [crypto/sha256], [crypto/hmac], [x/crypto/hkdf],
    [crypto/aes] and [crypto/cipher] reproduce the published vectors of
    FIPS 180-4 (SHA-256), RFC 4231 (HMAC), RFC 5869 (HKDF), FIPS 197 (AES)
    and of the GCM specification (test cases 2, 4, 14 and 16). *)

Example sha256_abc :
  be_Z (sha256.Sum256 (bytes_of_string "abc"))
  = 0xba7816bf8f01cfea414140de5dae2223b00361a396177a9cb410ff61f20015ad.
Proof. vm_compute. reflexivity. Qed.

Example sha256_two_blocks :
  be_Z (sha256.Sum256
          (bytes_of_string "abcdbcdecdefdefgefghfghighijhijkijkljklmklmnlmnomnopnopq"))
  = 0x248d6a61d20638b8e5c026930c3e6039a33ce45964ff2167f6ecedd419db06c1.
Proof. vm_compute. reflexivity. Qed.

Example hmac_rfc4231_2 :
  be_Z (hmac.Sum (bytes_of_string "Jefe") (bytes_of_string "what do ya want for nothing?"))
  = 0x5bdcc146bf60754e6a042426089575c75a003f089d2739839dec58b964ec3843.
Proof. vm_compute. reflexivity. Qed.

Example hkdf_rfc5869_1 :
  be_Z <$> hkdf.ReadFull
             (hkdf.New (replicate 22 Byte.x0b)
                       (Some (be_bytes 13 0x000102030405060708090a0b0c))
                       (be_bytes 10 0xf0f1f2f3f4f5f6f7f8f9)) 42
  = Some 0x3cb25f25faacd57a90434f64d0362f2a2d2d0a90cf1a5a4c5db02d56ecc4c5bf34007208d5b887185865.
Proof. vm_compute. reflexivity. Qed.

Example hkdf_rfc5869_3 :
  be_Z <$> hkdf.ReadFull (hkdf.New (replicate 22 Byte.x0b) None []) 42
  = Some 0x8da4e775a563c18f715f802a063c5a31b8a11f5c5ee1879ec3454e5f3c738d2d9d201395faa4b61a96c8.
Proof. vm_compute. reflexivity. Qed.

Example aes128_fips197 :
  aes_encrypt_hex 16 0x000102030405060708090a0b0c0d0e0f 0x00112233445566778899aabbccddeeff
  = Some 0x69c4e0d86a7b0430d8cdb78070b4c55a.
Proof. vm_compute. reflexivity. Qed.

Example aes192_fips197 :
  aes_encrypt_hex 24 0x000102030405060708090a0b0c0d0e0f1011121314151617
                  0x00112233445566778899aabbccddeeff
  = Some 0xdda97ca4864cdfe06eaf70a0ec0d7191.
Proof. vm_compute. reflexivity. Qed.

Example aes256_fips197 :
  aes_encrypt_hex 32 0x000102030405060708090a0b0c0d0e0f101112131415161718191a1b1c1d1e1f
                  0x00112233445566778899aabbccddeeff
  = Some 0x8ea2b7ca516745bfeafc49904b496089.
Proof. vm_compute. reflexivity. Qed.

Example gcm_test_case_2 :
  gcm_seal_hex 16 0 0 16 0 0 0
  = Some 0x0388dace60b6a392f328c2b971b2fe78ab6e47d42cec13bdf53a67b21257bddf.
Proof. vm_compute. reflexivity. Qed.

Example gcm_test_case_4 :
  gcm_seal_hex 16 0xfeffe9928665731c6d6a8f9467308308 0xcafebabefacedbaddecaf888
    60 0xd9313225f88406e5a55909c5aff5269a86a7a9531534f7da2e4c303d8a318a721c3c0c95956809532fcf0e2449a6b525b16aedf5aa0de657ba637b39
    20 0xfeedfacedeadbeeffeedfacedeadbeefabaddad2
  = Some 0x42831ec2217774244b7221b784d0d49ce3aa212f2c02a4e035c17e2329aca12e21d514b25466931c7d8f6a5aac84aa051ba30b396a0aac973d58e0915bc94fbc3221a5db94fae95ae7121a47.
Proof. vm_compute. reflexivity. Qed.

Example gcm_test_case_14 :
  gcm_seal_hex 32 0 0 16 0 0 0
  = Some 0xcea7403d4d606b6e074ec5d3baf39d18d0d1c8a799996bf0265b98b5d48ab919.
Proof. vm_compute. reflexivity. Qed.

Example gcm_test_case_16 :
  gcm_seal_hex 32 0xfeffe9928665731c6d6a8f9467308308feffe9928665731c6d6a8f9467308308
    0xcafebabefacedbaddecaf888
    60 0xd9313225f88406e5a55909c5aff5269a86a7a9531534f7da2e4c303d8a318a721c3c0c95956809532fcf0e2449a6b525b16aedf5aa0de657ba637b39
    20 0xfeedfacedeadbeeffeedfacedeadbeefabaddad2
  = Some 0x522dc1f099567d07f47f37a32a84427d643a8cdcbfe5c0c97598a2bd2555d1aa8cb08e48590dbb3da7b08b1056828838c5f61e6393ba7a0abcc9f66276fc6ece0f4e1768cddf8853bb2d551b.
Proof. vm_compute. reflexivity. Qed.

(* ------------------------------------------------------------------- *)
(** ** Lengths in the library models *)
(* ------------------------------------------------------------------- *)

Lemma length_be_bytes (n : nat) (z : Z) : length (be_bytes n z) = n.
Proof. unfold be_bytes. by rewrite length_map, length_seq. Qed.

Lemma length_Sum256 (data : bytes) : length (sha256.Sum256 data) = sha256.Size.
Proof. unfold sha256.Sum256. by rewrite !length_app, !length_be_bytes. Qed.

Lemma length_hmac_Sum (key data : bytes) : length (hmac.Sum key data) = sha256.Size.
Proof. apply length_Sum256. Qed.

Lemma length_hkdf_blocks (f : hkdf.reader) (prev : bytes) (counter : Z) (n : nat) :
  length (hkdf.blocks f prev counter n) = (sha256.Size * n)%nat.
Proof.
  revert prev counter. induction n as [|n IH]; intros prev counter; cbn [hkdf.blocks].
  - cbn. lia.
  - rewrite length_app, length_hmac_Sum, IH. lia.
Qed.

Lemma hkdf_ReadFull_length (f : hkdf.reader) (need : nat) :
  (need <= 255 * sha256.Size)%nat ->
  exists out, hkdf.ReadFull f need = Some out /\ length out = need.
Proof.
  intros Hn. unfold hkdf.ReadFull.
  replace (255 * sha256.Size <? need)%nat with false by (symmetry; apply Nat.ltb_ge; lia).
  eexists; split; [reflexivity|].
  rewrite length_take, length_hkdf_blocks.
  assert (need <= sha256.Size * ((need + sha256.Size - 1) / sha256.Size))%nat; [|lia].
  unfold sha256.Size.
  pose proof (Nat.div_mod_eq (need + 32 - 1) 32) as Hd.
  pose proof (Nat.mod_upper_bound (need + 32 - 1) 32). lia.
Qed.

Lemma length_aes_Encrypt (c : aes.Block) (src : bytes) :
  length (aes.Encrypt c src) = aes.BlockSize.
Proof.
  unfold aes.Encrypt, aes.AddRoundKey. by rewrite !length_map, length_seq.
Qed.

Lemma length_flat_map_const {A B : Type} (f : A -> list B) (k : nat) (l : list A) :
  (forall x, length (f x) = k) -> length (flat_map f l) = (k * length l)%nat.
Proof.
  intros Hf. induction l as [|x l IH]; cbn; [lia|].
  rewrite length_app, Hf, IH. lia.
Qed.

Lemma length_keystream (g : cipher.AEAD) (nonce : bytes) (n : nat) :
  length (cipher.keystream g nonce n) = n.
Proof.
  unfold cipher.keystream. rewrite length_take.
  rewrite (length_flat_map_const _ 16) by (intros; apply length_aes_Encrypt).
  rewrite length_seq.
  pose proof (Nat.div_mod_eq (n + 15) 16) as Hd.
  pose proof (Nat.mod_upper_bound (n + 15) 16). lia.
Qed.

Lemma length_counterCrypt (g : cipher.AEAD) (nonce data : bytes) :
  length (cipher.counterCrypt g nonce data) = length data.
Proof.
  unfold cipher.counterCrypt. rewrite length_zip_with, length_keystream. lia.
Qed.

Lemma length_auth (g : cipher.AEAD) (nonce ct aad : bytes) :
  length (cipher.auth g nonce ct aad) = cipher.gcmTagSize.
Proof. unfold cipher.auth. apply length_be_bytes. Qed.

Lemma zip_with_byte_xor_cancel (data ks : bytes) :
  length ks = length data ->
  zip_with byte_xor (zip_with byte_xor data ks) ks = data.
Proof.
  revert ks. induction data as [|d data IH]; intros [|k ks] Hl; try done.
  cbn. rewrite byte_xor_cancel_r, IH; [done|]. cbn in Hl. lia.
Qed.

(** Counter mode is an involution: decrypting is encrypting again. *)
Lemma counterCrypt_involutive (g : cipher.AEAD) (nonce data : bytes) :
  cipher.counterCrypt g nonce (cipher.counterCrypt g nonce data) = data.
Proof.
  unfold cipher.counterCrypt at 1. rewrite length_counterCrypt.
  unfold cipher.counterCrypt. apply zip_with_byte_xor_cancel, length_keystream.
Qed.

(** [Open] accepts exactly the frames whose tag is the one recomputed over
    the ciphertext: it inverts [Seal]. *)
Lemma Open_Seal (g : cipher.AEAD) (nonce plaintext aad : bytes) :
  cipher.Open g [] nonce (cipher.Seal g [] nonce plaintext aad) aad = Some plaintext.
Proof.
  unfold cipher.Open, cipher.Seal. cbn [app].
  set (ct := cipher.counterCrypt g nonce plaintext).
  rewrite length_app, length_auth.
  replace (length ct + cipher.gcmTagSize <? cipher.gcmTagSize)%nat with false
    by (symmetry; apply Nat.ltb_ge; lia).
  replace (length ct + cipher.gcmTagSize - cipher.gcmTagSize)%nat with (length ct) by lia.
  rewrite take_app_length, drop_app_length.
  rewrite bool_decide_eq_true_2 by done.
  unfold ct. by rewrite counterCrypt_involutive.
Qed.

(* ------------------------------------------------------------------- *)
(** ** The monad *)
(* ------------------------------------------------------------------- *)

(** Unfolding of the monad's operations on a given state. *)
Lemma bind_Done {A B : Type} (m : Go A) (f : A -> Go B) (w w' : World) (a : A) :
  m w = Done a w' -> (x ← m; f x) w = f a w'.
Proof. intros E. unfold mbind, Go_bind. by rewrite E. Qed.

Lemma field_Done {A : Type} (f : KeyEntry -> A) (p : loc) (e : KeyEntry) (w : World) :
  heap w !! p = Some e -> field f p w = Done (f e) w.
Proof. intros E. unfold field, load, mbind, Go_bind. by rewrite E. Qed.

Lemma load_Done (p : loc) (e : KeyEntry) (w : World) :
  heap w !! p = Some e -> load p w = Done e w.
Proof. intros E. unfold load. by rewrite E. Qed.

Lemma assign_Done (p : loc) (upd : KeyEntry -> KeyEntry) (e : KeyEntry) (w : World) :
  heap w !! p = Some e -> assign p upd w = Done tt (set_heap <[p := upd e]> w).
Proof. intros E. unfold assign, load, mbind, Go_bind. by rewrite E. Qed.

Lemma new_Done (e : KeyEntry) (w : World) :
  exists p, new e w = Done p (set_heap <[p := e]> w)
            /\ heap w !! p = None /\ p <> nil_loc.
Proof.
  unfold new. set (p := fresh _). exists p. split; [reflexivity|].
  pose proof (is_fresh ({[nil_loc]} ∪ dom (heap w))) as Hf. fold p in Hf.
  split.
  - apply not_elem_of_dom. set_solver.
  - set_solver.
Qed.

(* ------------------------------------------------------------------- *)
(** ** MemoryStore *)
(* ------------------------------------------------------------------- *)

Lemma MemoryStore_Get_found (id : string) (p : loc) (w : World) :
  keys w !! id = Some p -> MemoryStore_Get id w = Done (Ok p) w.
Proof. intros E. unfold MemoryStore_Get, gets, mbind, Go_bind. by rewrite E. Qed.

Lemma MemoryStore_Get_missing (id : string) (w : World) :
  keys w !! id = None -> MemoryStore_Get id w = Done (Err ErrKeyNotFound) w.
Proof. intros E. unfold MemoryStore_Get, gets, mbind, Go_bind. by rewrite E. Qed.

Lemma MemoryStore_Put_fresh (p : loc) (e : KeyEntry) (w : World) :
  heap w !! p = Some e -> keys w !! ID e = None ->
  MemoryStore_Put p w = Done None (set_keys <[ID e := p]> w).
Proof.
  intros Hp Hk. unfold MemoryStore_Put.
  rewrite (bind_Done _ _ _ _ _ (field_Done ID p e w Hp)).
  unfold gets, modify, mbind, Go_bind, mret, Go_ret. by rewrite Hk.
Qed.

Lemma MemoryStore_Put_exists (p q : loc) (e : KeyEntry) (w : World) :
  heap w !! p = Some e -> keys w !! ID e = Some q ->
  MemoryStore_Put p w = Done (Some (Errorf ("key " +:+ ID e +:+ " already exists"))) w.
Proof.
  intros Hp Hk. unfold MemoryStore_Put.
  rewrite (bind_Done _ _ _ _ _ (field_Done ID p e w Hp)).
  unfold gets, mbind, Go_bind, mret, Go_ret. by rewrite Hk.
Qed.

Lemma MemoryStore_UpdateStatus_found (id : string) (status : KeyStatus) (p : loc)
    (e : KeyEntry) (w : World) :
  keys w !! id = Some p -> heap w !! p = Some e ->
  MemoryStore_UpdateStatus id status w
  = Done None (set_heap <[p := KeyEntry_with_Status status e]> w).
Proof.
  intros Hk Hp. unfold MemoryStore_UpdateStatus.
  rewrite (bind_Done (gets keys) _ w w (keys w) eq_refl), Hk.
  by rewrite (bind_Done _ _ _ _ _ (assign_Done _ _ _ _ Hp)).
Qed.

Lemma MemoryStore_UpdateStatus_missing (id : string) (status : KeyStatus) (w : World) :
  keys w !! id = None ->
  MemoryStore_UpdateStatus id status w = Done (Some ErrKeyNotFound) w.
Proof.
  intros Hk. unfold MemoryStore_UpdateStatus, gets, mbind, Go_bind. by rewrite Hk.
Qed.

Lemma MemoryStore_Delete_found (id : string) (p : loc) (w : World) :
  keys w !! id = Some p -> MemoryStore_Delete id w = Done None (set_keys (delete id) w).
Proof.
  intros Hk. unfold MemoryStore_Delete, gets, modify, mbind, Go_bind, mret, Go_ret.
  by rewrite Hk.
Qed.

Lemma MemoryStore_Delete_missing (id : string) (w : World) :
  keys w !! id = None -> MemoryStore_Delete id w = Done (Some ErrKeyNotFound) w.
Proof.
  intros Hk. unfold MemoryStore_Delete, gets, mbind, Go_bind, mret, Go_ret. by rewrite Hk.
Qed.

(** C6.  Putting an entry whose id is absent succeeds; a second put of any
    entry with the same id fails with "already exists" and leaves the
    store as it was, the first entry in place; [Get] fails with
    [ErrKeyNotFound] exactly when no entry is stored under the id. *)
Theorem MemoryStore_Put_twice_Get (w : World) (p q : loc) (e e' : KeyEntry) :
  heap w !! p = Some e ->
  keys w !! ID e = None ->
  heap w !! q = Some e' ->
  ID e' = ID e ->
  (exists w1,
      MemoryStore_Put p w = Done None w1
      /\ MemoryStore_Put q w1
         = Done (Some (Errorf ("key " +:+ ID e +:+ " already exists"))) w1
      /\ MemoryStore_Get (ID e) w1 = Done (Ok p) w1
      /\ entry_at w1 (ID e) = Some e)
  /\ (forall (id : string) (w0 : World),
        MemoryStore_Get id w0 = Done (Err ErrKeyNotFound) w0 <-> keys w0 !! id = None).
Proof.
  intros Hp Hk Hq Hid. split.
  - exists (set_keys <[ID e := p]> w).
    assert (Hk1 : keys (set_keys <[ID e := p]> w) !! ID e = Some p)
      by (simpl; apply lookup_insert_eq).
    split; [by apply MemoryStore_Put_fresh|].
    split; [|split].
    + rewrite <- Hid. eapply MemoryStore_Put_exists; [exact Hq|]. by rewrite Hid.
    + by apply MemoryStore_Get_found.
    + unfold entry_at. rewrite Hk1. simpl. exact Hp.
  - intros id w0. split.
    + intros HG. destruct (keys w0 !! id) as [p0|] eqn:E; [|done].
      rewrite (MemoryStore_Get_found _ _ _ E) in HG. discriminate.
    + apply MemoryStore_Get_missing.
Qed.

Lemma store_wf_ptrs_valid (w : World) : store_wf w -> ptrs_valid w.
Proof. intros Hwf id p Hk. destruct (Hwf id p Hk) as (e & -> & _). eauto. Qed.

(** In a well-formed store two ids never share an entry. *)
Lemma store_wf_no_alias (w : World) (id id' : string) (p : loc) :
  store_wf w -> keys w !! id = Some p -> keys w !! id' = Some p -> id' = id.
Proof.
  intros Hwf Hk Hk'. destruct (Hwf id p Hk) as (e & He & <-).
  destruct (Hwf id' p Hk') as (e' & He' & <-). congruence.
Qed.

Lemma NewMemoryStore_store_wf (w : World) :
  exists w', NewMemoryStore w = Done tt w' /\ store_wf w'.
Proof.
  eexists. split; [reflexivity|]. intros id p Hk. cbn in Hk. by rewrite lookup_empty in Hk.
Qed.

Lemma MemoryStore_Put_store_wf (p : loc) (r : option error) (w w' : World) :
  store_wf w -> MemoryStore_Put p w = Done r w' -> store_wf w'.
Proof.
  intros Hwf. destruct (heap w !! p) as [e|] eqn:Hp.
  2:{ unfold MemoryStore_Put, field, load, mbind, Go_bind. by rewrite Hp. }
  destruct (keys w !! ID e) as [q|] eqn:Hk.
  - rewrite (MemoryStore_Put_exists _ _ _ _ Hp Hk). by intros [= <- <-].
  - rewrite (MemoryStore_Put_fresh _ _ _ Hp Hk). intros [= <- <-].
    intros id q. cbn. destruct (decide (id = ID e)) as [->|Hne].
    + rewrite lookup_insert_eq. intros [= <-]. eauto.
    + rewrite lookup_insert_ne by done. apply Hwf.
Qed.

Lemma MemoryStore_UpdateStatus_store_wf (id : string) (status : KeyStatus)
    (r : option error) (w w' : World) :
  store_wf w -> MemoryStore_UpdateStatus id status w = Done r w' -> store_wf w'.
Proof.
  intros Hwf. destruct (keys w !! id) as [p|] eqn:Hk.
  - destruct (Hwf id p Hk) as (e & Hp & Hid).
    rewrite (MemoryStore_UpdateStatus_found _ _ _ _ _ Hk Hp). intros [= <- <-].
    intros id' q Hq. cbn in Hq |- *. destruct (Hwf id' q Hq) as (e' & Hq' & Hid').
    destruct (decide (q = p)) as [->|Hne].
    + rewrite lookup_insert_eq. eexists. split; [done|]. cbn. congruence.
    + rewrite lookup_insert_ne by done. eauto.
  - rewrite (MemoryStore_UpdateStatus_missing _ _ _ Hk). by intros [= <- <-].
Qed.

Lemma MemoryStore_Delete_store_wf (id : string) (r : option error) (w w' : World) :
  store_wf w -> MemoryStore_Delete id w = Done r w' -> store_wf w'.
Proof.
  intros Hwf. destruct (keys w !! id) as [p|] eqn:Hk.
  - rewrite (MemoryStore_Delete_found _ _ _ Hk). intros [= <- <-].
    intros id' q. cbn. intros Hq. apply lookup_delete_Some in Hq as [_ Hq]. by apply Hwf.
  - rewrite (MemoryStore_Delete_missing _ _ Hk). by intros [= <- <-].
Qed.

Lemma store_wf_alloc (w : World) (p : loc) (e : KeyEntry) :
  store_wf w -> heap w !! p = None -> store_wf (set_heap <[p := e]> w).
Proof.
  intros Hwf Hp id q Hq. cbn in Hq |- *. destruct (Hwf id q Hq) as (e' & He' & Hid).
  exists e'. split; [|done]. rewrite lookup_insert_ne; [done|]. intros <-. congruence.
Qed.

(** X1.  The store keeps its invariant: whatever [Put], [UpdateStatus] and
    [Delete] return, afterwards every pointer of the map is allocated and
    is stored under the id of the entry it points to; the invariant holds
    of a new store. *)
Theorem MemoryStore_keeps_store_wf (w : World) :
  store_wf w ->
  (forall p r w', MemoryStore_Put p w = Done r w' -> store_wf w')
  /\ (forall id status r w',
        MemoryStore_UpdateStatus id status w = Done r w' -> store_wf w')
  /\ (forall id r w', MemoryStore_Delete id w = Done r w' -> store_wf w')
  /\ (exists w', NewMemoryStore w = Done tt w' /\ store_wf w').
Proof.
  intros Hwf. split; [|split; [|split]].
  - intros p r w'. by apply MemoryStore_Put_store_wf.
  - intros id status r w'. by apply MemoryStore_UpdateStatus_store_wf.
  - intros id r w'. by apply MemoryStore_Delete_store_wf.
  - apply NewMemoryStore_store_wf.
Qed.

(** X2.  [UpdateStatus] performs any transition: for a stored id it sets the
    status to the one given, whatever the current status, through the
    stored pointer, so that [Get] sees the update and the other entries of
    a well-formed store are untouched; for an absent id it fails with
    [ErrKeyNotFound] and changes nothing. *)
Theorem MemoryStore_UpdateStatus_any_transition (w : World) (id : string)
    (status : KeyStatus) :
  (forall (p : loc) (e : KeyEntry),
      keys w !! id = Some p -> heap w !! p = Some e ->
      exists w',
        MemoryStore_UpdateStatus id status w = Done None w'
        /\ MemoryStore_Get id w' = Done (Ok p) w'
        /\ entry_at w' id = Some (KeyEntry_with_Status status e)
        /\ (store_wf w -> forall id', id' <> id -> entry_at w' id' = entry_at w id'))
  /\ (keys w !! id = None ->
      MemoryStore_UpdateStatus id status w = Done (Some ErrKeyNotFound) w).
Proof.
  split; [|apply MemoryStore_UpdateStatus_missing].
  intros p e Hk Hp. eexists. split; [by apply MemoryStore_UpdateStatus_found|].
  split; [by apply MemoryStore_Get_found|]. split.
  - unfold entry_at. cbn. rewrite Hk. cbn. apply lookup_insert_eq.
  - intros Hwf id' Hne. unfold entry_at. cbn.
    destruct (keys w !! id') as [q|] eqn:Hq; [|done]. cbn.
    rewrite lookup_insert_ne; [done|]. intros <-.
    apply Hne. by apply (store_wf_no_alias w id id' p).
Qed.

(** X3.  [Delete] removes a stored id, after which [Get] fails with
    [ErrKeyNotFound], and leaves the other ids as they were; for an absent
    id it fails with [ErrKeyNotFound] and changes nothing. *)
Theorem MemoryStore_Delete_removes (w : World) (id : string) :
  (forall p : loc,
      keys w !! id = Some p ->
      exists w',
        MemoryStore_Delete id w = Done None w'
        /\ MemoryStore_Get id w' = Done (Err ErrKeyNotFound) w'
        /\ forall id', id' <> id -> entry_at w' id' = entry_at w id')
  /\ (keys w !! id = None ->
      MemoryStore_Delete id w = Done (Some ErrKeyNotFound) w).
Proof.
  split; [|apply MemoryStore_Delete_missing].
  intros p Hk. eexists. split; [by eapply MemoryStore_Delete_found|]. split.
  - apply MemoryStore_Get_missing. cbn. apply lookup_delete_eq.
  - intros id' Hne. unfold entry_at. cbn. by rewrite lookup_delete_ne.
Qed.

Lemma MemoryStore_List_loop_Done (filter : KeyStatus) (kvs : list (string * loc))
    (result : list loc) (w : World) :
  Forall (fun kv => is_Some (heap w !! kv.2)) kvs ->
  MemoryStore_List_loop filter kvs result w
  = Done (result ++ List.filter (List_selects filter w) kvs.*2) w.
Proof.
  intros HF. revert result. induction HF as [|[id p] kvs [e Hp] HF IH]; intros result.
  - cbn. by rewrite app_nil_r.
  - cbn [MemoryStore_List_loop fmap list_fmap List.filter snd]. cbn in Hp.
    rewrite (bind_Done _ _ _ _ _ (field_Done Status _ _ _ Hp)).
    unfold List_selects at 1. rewrite Hp.
    destruct ((filter =? 0) || (Status e =? filter)).
    + rewrite IH, <- app_assoc. reflexivity.
    + apply IH.
Qed.

Section listing.
Context `{Env}.

Hypothesis map_range_Permutation :
  forall (s : nat) (l : list (string * loc)), map_range s l ≡ₚ l.

(** X4.  [List] returns the pointers of exactly the stored entries whose
    status is the filter, and of all the stored entries when the filter is
    0; it changes nothing in the store. *)
Theorem MemoryStore_List_filters (filter : KeyStatus) (w : World) :
  store_wf w ->
  exists (ps : list loc) (w' : World),
    MemoryStore_List filter w = Done (Ok ps) w'
    /\ same_store w w'
    /\ forall p : loc,
         p ∈ ps <-> exists (id : string) (e : KeyEntry),
                      keys w !! id = Some p /\ heap w !! p = Some e
                      /\ (filter = 0 \/ Status e = filter).
Proof.
  intros Hwf.
  set (kvs := map_range (rng w) (map_to_list (keys w))).
  assert (Hin : forall id p, (id, p) ∈ kvs <-> keys w !! id = Some p).
  { intros id p. unfold kvs. rewrite map_range_Permutation. apply elem_of_map_to_list. }
  set (w' := set_rng S w).
  assert (HF : Forall (fun kv => is_Some (heap w' !! kv.2)) kvs).
  { apply list.Forall_forall. intros [id p] Hkv. apply Hin in Hkv.
    destruct (Hwf id p Hkv) as (e & He & _). cbn. eauto. }
  exists (List.filter (List_selects filter w') kvs.*2), w'. split; [|split].
  - unfold MemoryStore_List.
    rewrite (bind_Done (gets keys) _ w w (keys w) eq_refl).
    rewrite (bind_Done (range (keys w)) _ w w' kvs eq_refl).
    by rewrite (bind_Done _ _ _ _ _ (MemoryStore_List_loop_Done filter kvs [] w' HF)).
  - by repeat split.
  - intros p. rewrite list_elem_of_In, filter_In, <- list_elem_of_In, list_elem_of_fmap.
    unfold List_selects. cbn [heap w' set_rng]. split.
    + intros [([id q] & -> & Hkv) Hsel]. cbn in Hsel |- *. apply Hin in Hkv.
      destruct (heap w !! q) as [e|] eqn:Hq; [|discriminate].
      exists id, e. split; [done|]. split; [done|].
      apply orb_true_iff in Hsel as [Hz|Hs]; [left|right]; by apply Z.eqb_eq.
    + intros (id & e & Hk & Hp & Hsel). split.
      * exists (id, p). split; [done|]. by apply Hin.
      * rewrite Hp. apply orb_true_iff.
        destruct Hsel as [Hz|Hs]; [left|right]; by apply Z.eqb_eq.
Qed.

End listing.

(* ------------------------------------------------------------------- *)
(** ** Frame properties of the audit logger and the event fan-out *)
(* ------------------------------------------------------------------- *)

Lemma same_store_refl (w : World) : same_store w w.
Proof. by repeat split. Qed.

Lemma same_store_trans (w1 w2 w3 : World) :
  same_store w1 w2 -> same_store w2 w3 -> same_store w1 w3.
Proof. intros (?&?&?) (?&?&?). repeat split; congruence. Qed.

Lemma same_store_entry_at (w w' : World) (id : string) :
  same_store w w' -> entry_at w' id = entry_at w id.
Proof. intros (Hh&Hk&_). unfold entry_at. by rewrite Hh, Hk. Qed.

Lemma same_store_store_wf (w w' : World) :
  same_store w w' -> store_wf w -> store_wf w'.
Proof. intros (Hh & Hk & _) Hwf id p. rewrite Hh, Hk. apply Hwf. Qed.

Section frames.
Context `{Env}.

Lemma Now_Done (w : World) :
  Now w = Done (time_Now (ticks w)) (set_ticks S w).
Proof. reflexivity. Qed.

Lemma uuid_New_Done (w : World) :
  uuid_New w = Done (uuid_NewString (rng w)) (set_rng S w).
Proof. reflexivity. Qed.

Lemma Logger_Log_Done (operation keyID status peerAddr : string)
    (metadata : gmap string string) (w : World) :
  exists w', Logger_Log operation keyID status peerAddr metadata w = Done tt w'
             /\ same_store w w' /\ audit_store w' = audit_store w.
Proof.
  unfold Logger_Log, uuid_New, Now, gets, modify, mbind, Go_bind, mret, Go_ret. simpl.
  destruct (length (audit_entries w) <? audit_bufferSize w)%nat;
    eexists; (split; [reflexivity|]); by repeat split.
Qed.

Lemma broadcastEvent_Done (eventType : pb_KeyEventType) (meta : KeyMetadata) (w : World) :
  exists w', broadcastEvent eventType meta w = Done tt w'
             /\ same_store w w' /\ audit_store w' = audit_store w.
Proof.
  unfold broadcastEvent, Now, modify, mbind, Go_bind. simpl.
  eexists; (split; [reflexivity|]); by repeat split.
Qed.

(** X5.  [Log] never blocks: it queues the entry, stamped with a new id and
    the clock reading, when the buffer has room, and drops it when the
    buffer is full; it touches neither the retained records nor the key
    store. *)
Theorem Logger_Log_drops_when_full (operation keyID status peerAddr : string)
    (metadata : gmap string string) (w : World) :
  let entry := {| Entry_ID := uuid_NewString (rng w);
                  Entry_Timestamp := time_Now (ticks w);
                  Entry_Operation := operation; Entry_KeyID := keyID;
                  Entry_Status := status; Entry_PeerAddress := peerAddr;
                  Entry_Metadata := metadata |} in
  exists w',
    Logger_Log operation keyID status peerAddr metadata w = Done tt w'
    /\ ((length (audit_entries w) < audit_bufferSize w)%nat ->
        audit_entries w' = audit_entries w ++ [entry])
    /\ ((audit_bufferSize w <= length (audit_entries w))%nat ->
        audit_entries w' = audit_entries w)
    /\ audit_bufferSize w' = audit_bufferSize w
    /\ audit_store w' = audit_store w
    /\ same_store w w'.
Proof.
  intros entry.
  unfold Logger_Log, uuid_New, Now, gets, modify, mbind, Go_bind, mret, Go_ret. simpl.
  destruct (Nat.ltb_spec (length (audit_entries w)) (audit_bufferSize w)) as [Hl|Hl];
    eexists; (split; [reflexivity|]); simpl;
    (split; [intros ?|split; [intros ?|]]); try lia; try done.
Qed.

(** X6.  The event fan-out never blocks: every subscriber whose channel (of
    capacity 32) has room receives the event, stamped with the clock
    reading, behind the events already queued; a full channel is left as
    it is; the key store is untouched. *)
Theorem broadcastEvent_never_blocks (eventType : pb_KeyEventType) (meta : KeyMetadata)
    (w : World) :
  let event := {| event_Type := eventType; event_Metadata := meta;
                  event_Timestamp := time_Now (ticks w) |} in
  exists w',
    broadcastEvent eventType meta w = Done tt w'
    /\ length (subscribers w') = length (subscribers w)
    /\ (forall (i : nat) (ch : list KeyEvent),
          subscribers w !! i = Some ch ->
          ((length ch < 32)%nat -> subscribers w' !! i = Some (ch ++ [event]))
          /\ ((32 <= length ch)%nat -> subscribers w' !! i = Some ch))
    /\ same_store w w'.
Proof.
  intros event. unfold broadcastEvent, Now, modify, mbind, Go_bind.
  eexists. split; [reflexivity|]. cbn [subscribers set_subscribers set_ticks].
  split; [by rewrite length_map|]. split; [|by repeat split].
  intros i ch Hi. rewrite list_lookup_fmap, Hi. cbn. unfold try_send. split; intros Hl.
  - by rewrite (proj2 (Nat.ltb_lt _ _)) by lia.
  - by rewrite (proj2 (Nat.ltb_ge _ _)) by lia.
Qed.

End frames.

Lemma entryToProto_Done (p : loc) (e : KeyEntry) (w : World) :
  heap w !! p = Some e ->
  exists meta, entryToProto p w = Done meta w
    /\ meta_KeyId meta = ID e
    /\ meta_Algorithm meta = algoToProto (Algorithm e)
    /\ meta_Status meta = statusToProto (Status e)
    /\ meta_CreatedAt meta = Some (CreatedAt e)
    /\ meta_RotatedAt meta
       = (if Time_IsZero (RotatedAt e) then None else Some (RotatedAt e))
    /\ meta_Labels meta = Labels e.
Proof.
  intros Hp. unfold entryToProto, load, mbind, Go_bind, mret, Go_ret. rewrite Hp.
  destruct (Time_IsZero (RotatedAt e)); simpl; eexists; (split; [reflexivity|]);
    by repeat split.
Qed.

(* ------------------------------------------------------------------- *)
(** ** The audit query *)
(* ------------------------------------------------------------------- *)

Lemma Query_skips_matches (keyID operation : string) (start end_ : Time) (e : Entry) :
  Query_skips keyID operation start end_ e
  = negb (Query_matches keyID operation start end_ e).
Proof.
  unfold Query_skips, Query_matches, Time_IsZero, Time_Before, Time_After.
  rewrite !negb_andb, !negb_orb, <- !orb_assoc.
  rewrite (Z.leb_antisym _ start), (Z.leb_antisym end_ _), !negb_involutive.
  reflexivity.
Qed.

Lemma Query_loop_visit (store : list Entry) (keyID operation : string) (start end_ : Time)
    (limit : Z) (n : nat) (results : list Entry) :
  (n <= length store)%nat ->
  Query_loop store keyID operation start end_ limit n results
  = Query_visit keyID operation start end_ limit (rev (take n store)) results.
Proof.
  revert results. induction n as [|i IH]; intros results Hn; [done|].
  destruct (lookup_lt_is_Some_2 store i) as [e He]; [lia|].
  rewrite (take_S_r _ _ _ He), rev_app_distr. cbn [rev app Query_loop Query_visit].
  rewrite He. rewrite !IH by lia. reflexivity.
Qed.

Lemma Query_visit_unbounded (keyID operation : string) (start end_ : Time) (limit : Z)
    (l results : list Entry) :
  limit <= 0 ->
  Query_visit keyID operation start end_ limit l results
  = results ++ List.filter (Query_matches keyID operation start end_) l.
Proof.
  intros Hl. revert results. induction l as [|e l IH]; intros results; cbn.
  - by rewrite app_nil_r.
  - rewrite Query_skips_matches.
    destruct (Query_matches keyID operation start end_ e); cbn.
    + replace (0 <? limit) with false by (symmetry; apply Z.ltb_ge; lia). cbn.
      rewrite IH, <- app_assoc. reflexivity.
    + apply IH.
Qed.

Lemma Query_visit_bounded (keyID operation : string) (start end_ : Time) (limit : Z)
    (l results : list Entry) :
  0 < limit -> Z.of_nat (length results) < limit ->
  Query_visit keyID operation start end_ limit l results
  = results ++ take (Z.to_nat limit - length results)
                    (List.filter (Query_matches keyID operation start end_) l).
Proof.
  intros Hl. revert results. induction l as [|e l IH]; intros results Hr; cbn.
  - by rewrite take_nil, app_nil_r.
  - rewrite Query_skips_matches.
    destruct (Query_matches keyID operation start end_ e); cbn; [|by apply IH].
    replace (0 <? limit) with true by (symmetry; apply Z.ltb_lt; lia). cbn.
    rewrite length_app. cbn [length].
    destruct (Z.to_nat limit - length results)%nat as [|k] eqn:Ek; [lia|]. cbn [take].
    destruct (limit <=? Z.of_nat (length results + 1)) eqn:El.
    + apply Z.leb_le in El. replace k with 0%nat by lia. by rewrite take_0.
    + apply Z.leb_gt in El. rewrite IH by (rewrite length_app; cbn; lia).
      rewrite length_app, <- app_assoc. cbn [length app].
      replace (Z.to_nat limit - (length results + 1))%nat with k by lia. reflexivity.
Qed.

Lemma StronglySorted_rev_flip (l : list Entry) :
  StronglySorted older_first l -> StronglySorted newer_first (rev l).
Proof.
  induction 1 as [|a l Hs IH Ha]; cbn; [constructor|].
  apply StronglySorted_app_2; [|exact IH|repeat constructor].
  intros x y Hx Hy. apply list_elem_of_singleton in Hy. subst y.
  rewrite Forall_forall in Ha. apply Ha, in_rev. by apply list_elem_of_In.
Qed.

Lemma StronglySorted_filter {A : Type} (R : A -> A -> Prop) (f : A -> bool) (l : list A) :
  StronglySorted R l -> StronglySorted R (List.filter f l).
Proof.
  induction 1 as [|a l Hs IH Ha]; cbn; [constructor|].
  destruct (f a); [|exact IH]. constructor; [exact IH|].
  rewrite Forall_forall in *. intros x Hx. apply Ha.
  apply filter_In in Hx. tauto.
Qed.

Lemma StronglySorted_take {A : Type} (R : A -> A -> Prop) (n : nat) (l : list A) :
  StronglySorted R l -> StronglySorted R (take n l).
Proof.
  intros Hs. rewrite <- (take_drop n l) in Hs. by apply StronglySorted_app_1_l in Hs.
Qed.

Lemma filter_Permutation {A : Type} (f : A -> bool) (l l' : list A) :
  l ≡ₚ l' -> List.filter f l ≡ₚ List.filter f l'.
Proof.
  induction 1 as [|x l l' _ IH|x y l|l l' l'' _ IH1 _ IH2]; cbn.
  - constructor.
  - destruct (f x); [by constructor|exact IH].
  - destruct (f x), (f y); try reflexivity. apply perm_swap.
  - by etrans.
Qed.

(** C9, as amended.  [Query] returns exactly the retained records that
    match every provided filter, in reverse order of retention (the most
    recently retained first), truncated to [limit] records when
    [limit > 0] and unbounded otherwise.  When the retained records are in
    timestamp order, this is the answer of the specification: the
    matching records in reverse chronological order, truncated. *)
Theorem Query_latest_retained_first_filtered_truncated (store : list Entry)
    (keyID operation : string) (start end_ : Time) (limit : Z) :
  Query store keyID operation start end_ limit
  = Query_latest_first store keyID operation start end_ limit
  /\ (forall e : Entry,
        e ∈ Query store keyID operation start end_ limit ->
        e ∈ store /\ Query_matches keyID operation start end_ e = true)
  /\ (0 < limit ->
      (length (Query store keyID operation start end_ limit) <= Z.to_nat limit)%nat)
  /\ (limit = 0 ->
      Query store keyID operation start end_ limit
      = List.filter (Query_matches keyID operation start end_) (rev store))
  /\ (StronglySorted older_first store ->
      StronglySorted newer_first (Query store keyID operation start end_ limit)
      /\ Query_spec store keyID operation start end_ limit
           (Query store keyID operation start end_ limit)).
Proof.
  assert (Heq : Query store keyID operation start end_ limit
                = Query_latest_first store keyID operation start end_ limit).
  { unfold Query, Query_latest_first. rewrite Query_loop_visit by done. rewrite firstn_all.
    destruct (0 <? limit) eqn:El.
    - apply Z.ltb_lt in El. rewrite Query_visit_bounded by (cbn; lia).
      cbn. by rewrite Nat.sub_0_r.
    - apply Z.ltb_ge in El. by rewrite Query_visit_unbounded. }
  split; [exact Heq|]. rewrite Heq. unfold Query_latest_first.
  split; [|split; [|split]].
  - intros e He. assert (Hin : In e (List.filter (Query_matches keyID operation start end_)
                                       (rev store))).
    { apply list_elem_of_In. destruct (0 <? limit); [|exact He].
      apply elem_of_take in He as (i & He & _). by apply list_elem_of_lookup_2 in He. }
    apply filter_In in Hin as [Hin Hm]. split; [|exact Hm].
    apply list_elem_of_In. by apply in_rev.
  - intros Hl. replace (0 <? limit) with true by (symmetry; apply Z.ltb_lt; lia).
    rewrite length_take. lia.
  - intros ->. reflexivity.
  - intros Hs.
    assert (Hm : StronglySorted newer_first
                   (List.filter (Query_matches keyID operation start end_) (rev store)))
      by (by apply StronglySorted_filter, StronglySorted_rev_flip).
    split.
    + destruct (0 <? limit); [by apply StronglySorted_take|exact Hm].
    + exists (List.filter (Query_matches keyID operation start end_) (rev store)).
      split; [|split; [exact Hm|reflexivity]].
      apply filter_Permutation. symmetry. apply Permutation_rev.
Qed.

(** X7.  One iteration of the processing loop moves the oldest queued entry
    behind the retained records, where an unfiltered [Query] with limit 1
    finds it; on an empty queue it does nothing. *)
Theorem Logger_processLoop_step_retains_oldest (w : World) :
  (audit_entries w = [] -> Logger_processLoop_step w = Done false w)
  /\ (forall (e : Entry) (ch : list Entry),
        audit_entries w = e :: ch ->
        exists w',
          Logger_processLoop_step w = Done true w'
          /\ audit_entries w' = ch
          /\ audit_store w' = audit_store w ++ [e]
          /\ Query (audit_store w') "" "" 0 0 1 = [e]).
Proof.
  split.
  - intros Hq. unfold Logger_processLoop_step, gets, mbind, Go_bind. by rewrite Hq.
  - intros e ch Hq. unfold Logger_processLoop_step, gets, modify, mbind, Go_bind, mret, Go_ret.
    rewrite Hq. eexists. split; [reflexivity|]. split; [reflexivity|].
    split; [reflexivity|]. cbn [audit_store set_audit_store set_audit_entries].
    unfold Query. rewrite Query_loop_visit by done.
    rewrite firstn_all, rev_app_distr. reflexivity.
Qed.

(* ------------------------------------------------------------------- *)
(** ** The facade over the in-memory store and the software provider *)
(* ------------------------------------------------------------------- *)

Section facade.
Context `{Env} `{ECDSA} `{X509} `{JSON}.

(** [DeactivateKey] on a stored key: the status is set through the
    stored pointer, and the rest of the function reads the store only. *)
Lemma DeactivateKey_found (w : World) (id : string) (p : loc) (e : KeyEntry) :
  keys w !! id = Some p -> heap w !! p = Some e ->
  exists (w' : World) (meta : KeyMetadata),
    DeactivateKey MemoryStore id w = Done (Ok {| Deactivate_Metadata := meta |}) w'
    /\ meta_KeyId meta = ID e
    /\ meta_Status meta = KEY_STATUS_DEACTIVATED
    /\ same_store (set_heap <[p := KeyEntry_with_Status StatusDeactivated e]> w) w'.
Proof.
  intros Hk Hp. unfold DeactivateKey. cbn [Store_UpdateStatus Store_Get MemoryStore].
  rewrite (bind_Done _ _ _ _ _ (MemoryStore_UpdateStatus_found _ _ _ _ _ Hk Hp)).
  set (w1 := set_heap _ w).
  assert (Hk1 : keys w1 !! id = Some p) by exact Hk.
  assert (Hp1 : heap w1 !! p = Some (KeyEntry_with_Status StatusDeactivated e))
    by (simpl; apply lookup_insert_eq).
  rewrite (bind_Done _ _ _ _ _ (MemoryStore_Get_found _ _ _ Hk1)).
  destruct (entryToProto_Done _ _ _ Hp1) as (meta & Em & Hid & _ & Hst & _).
  rewrite (bind_Done _ _ _ _ _ Em).
  destruct (broadcastEvent_Done KEY_EVENT_TYPE_DEACTIVATED meta w1) as (w2 & E2 & F2 & _).
  rewrite (bind_Done _ _ _ _ _ E2).
  destruct (Logger_Log_Done "DeactivateKey" id "OK" "" ∅ w2) as (w3 & E3 & F3 & _).
  rewrite (bind_Done _ _ _ _ _ E3).
  exists w3, meta. split; [reflexivity|]. split; [exact Hid|]. split; [exact Hst|].
  exact (same_store_trans _ _ _ F2 F3).
Qed.

(** C10.  [DeactivateKey] succeeds for every stored key whatever its
    current status, sets the status to DEACTIVATED and returns the updated
    metadata; it fails only with not-found, when the id is absent, and
    then changes nothing. *)
Theorem DeactivateKey_any_status (w : World) (id : string) :
  (forall (p : loc) (e : KeyEntry),
      keys w !! id = Some p -> heap w !! p = Some e ->
      exists (w' : World) (meta : KeyMetadata),
        DeactivateKey MemoryStore id w = Done (Ok {| Deactivate_Metadata := meta |}) w'
        /\ meta_KeyId meta = ID e
        /\ meta_Status meta = KEY_STATUS_DEACTIVATED
        /\ entry_at w' id = Some (KeyEntry_with_Status StatusDeactivated e)
        /\ keys w' = keys w)
  /\ (keys w !! id = None ->
      DeactivateKey MemoryStore id w
      = Done (Err (status_Error NotFound "key not found")) w).
Proof.
  split.
  - intros p e Hk Hp.
    destruct (DeactivateKey_found w id p e Hk Hp) as (w' & meta & HD & Hid & Hst & F).
    exists w', meta. split; [exact HD|]. split; [exact Hid|]. split; [exact Hst|]. split.
    + rewrite (same_store_entry_at _ _ id F). unfold entry_at. cbn. rewrite Hk. cbn.
      apply lookup_insert_eq.
    + destruct F as (_ & -> & _). reflexivity.
  - intros Hk. unfold DeactivateKey. cbn [Store_UpdateStatus MemoryStore].
    by rewrite (bind_Done _ _ _ _ _ (MemoryStore_UpdateStatus_missing _ _ _ Hk)).
Qed.

(** C2.  [Sign] fails with not-found when the key id is absent and with
    failed-precondition when the key is stored with a status other than
    ACTIVE; it returns a signature only for an ACTIVE key.  [Verify]
    answers for a stored key in any status and fails only with not-found,
    when the key id is absent. *)
Theorem Sign_needs_ACTIVE_Verify_any_status (w : World) (id : string) (data sig : bytes) :
  (keys w !! id = None ->
     Sign MemoryStore SoftwareHSM id data w
     = Done (Err (status_Error NotFound "key not found")) w
     /\ Verify MemoryStore SoftwareHSM id data sig w
        = Done (Err (status_Error NotFound "key not found")) w)
  /\ (forall (p : loc) (e : KeyEntry),
        keys w !! id = Some p -> heap w !! p = Some e ->
        (Status e <> StatusActive ->
           Sign MemoryStore SoftwareHSM id data w
           = Done (Err (status_Error FailedPrecondition "key is not active")) w)
        /\ (Status e = StatusActive ->
            forall s : bytes,
              ecdsa_SignASN1 (rng w) (PrivateKey e) (sha256.Sum256 data) = Some s ->
              exists w',
                Sign MemoryStore SoftwareHSM id data w
                = Done (Ok {| Signature := s; Sign_KeyId := id |}) w')
        /\ (exists w',
              Verify MemoryStore SoftwareHSM id data sig w
              = Done (Ok {| Valid := VerifyECDSA (PublicKey (PrivateKey e)) data sig |}) w'))
  /\ (forall (resp : SignResponse) (w' : World),
        Sign MemoryStore SoftwareHSM id data w = Done (Ok resp) w' ->
        exists (p : loc) (e : KeyEntry),
          keys w !! id = Some p /\ heap w !! p = Some e /\ Status e = StatusActive).
Proof.
  split; [|split].
  - intros Hk. unfold Sign, Verify. cbn [Store_Get MemoryStore].
    by rewrite !(bind_Done _ _ _ _ _ (MemoryStore_Get_missing _ _ Hk)).
  - intros p e Hk Hp. split; [|split].
    + intros Hst. unfold Sign. cbn [Store_Get MemoryStore].
      rewrite (bind_Done _ _ _ _ _ (MemoryStore_Get_found _ _ _ Hk)).
      rewrite (bind_Done _ _ _ _ _ (field_Done Status _ _ _ Hp)).
      destruct (Status e =? StatusActive) eqn:E; [apply Z.eqb_eq in E; done|done].
    + intros Hst s Hs. unfold Sign. cbn [Store_Get MemoryStore].
      rewrite (bind_Done _ _ _ _ _ (MemoryStore_Get_found _ _ _ Hk)).
      rewrite (bind_Done _ _ _ _ _ (field_Done Status _ _ _ Hp)).
      rewrite Hst. cbn [Z.eqb StatusActive Pos.eqb negb].
      rewrite (bind_Done _ _ _ _ _ (field_Done PrivateKey _ _ _ Hp)).
      cbn [Provider_Sign SoftwareHSM].
      assert (Es : SignECDSA (PrivateKey e) data w = Done (Ok s) (set_rng S w))
        by (unfold SignECDSA; by rewrite Hs).
      rewrite (bind_Done _ _ _ _ _ Es).
      destruct (Logger_Log_Done "Sign" id "OK" "" ∅ (set_rng S w)) as (w3 & E3 & _).
      rewrite (bind_Done _ _ _ _ _ E3). by exists w3.
    + unfold Verify. cbn [Store_Get MemoryStore].
      rewrite (bind_Done _ _ _ _ _ (MemoryStore_Get_found _ _ _ Hk)).
      rewrite (bind_Done _ _ _ _ _ (field_Done PrivateKey _ _ _ Hp)).
      destruct (Logger_Log_Done "Verify" id "OK" "" ∅ w) as (w3 & E3 & _).
      rewrite (bind_Done _ _ _ _ _ E3). by exists w3.
  - intros resp w'. unfold Sign. cbn [Store_Get MemoryStore].
    destruct (keys w !! id) as [p|] eqn:Hk.
    2:{ by rewrite (bind_Done _ _ _ _ _ (MemoryStore_Get_missing _ _ Hk)). }
    rewrite (bind_Done _ _ _ _ _ (MemoryStore_Get_found _ _ _ Hk)).
    destruct (heap w !! p) as [e|] eqn:Hp.
    2:{ unfold field, load, mbind, Go_bind. by rewrite Hp. }
    rewrite (bind_Done _ _ _ _ _ (field_Done Status _ _ _ Hp)).
    destruct (Status e =? StatusActive) eqn:E; [|done].
    apply Z.eqb_eq in E. intros _. by exists p, e.
Qed.

Lemma resolveCurve_algoToProto (a : KeyAlgorithm) :
  exists algo, resolveCurve (algoToProto a) = Ok (rotation_curve a, algo).
Proof.
  unfold resolveCurve, algoToProto, rotation_curve.
  destruct (a =? AlgorithmECDSAP256) eqn:E1.
  - apply Z.eqb_eq in E1. subst a. cbn. eauto.
  - destruct (a =? AlgorithmECDSAP384) eqn:E2; cbn; eauto.
Qed.

(** [RotateKey] on an ACTIVE key, up to the insertion of the new entry:
    the new entry is allocated at a fresh pointer, the old entry is marked
    ROTATED and stamped through the stored pointer, and the function goes
    on with [Put] from that state. *)
Lemma RotateKey_ACTIVE_until_Put (w : World) (id : string) (old : loc) (e : KeyEntry)
    (newKey : ecdsa_PrivateKey) :
  keys w !! id = Some old ->
  heap w !! old = Some e ->
  Status e = StatusActive ->
  ecdsa_GenerateKey (rotation_curve (Algorithm e)) (rng w) = Some newKey ->
  let newE := {| ID := uuid_NewString (S (rng w)); Algorithm := Algorithm e;
                 Status := StatusActive; PrivateKey := newKey;
                 CreatedAt := time_Now (ticks w); RotatedAt := 0; Labels := Labels e |} in
  let e2 := KeyEntry_with_RotatedAt (time_Now (S (ticks w)))
              (KeyEntry_with_Status StatusRotated e) in
  exists (p : loc) (w7 : World),
    p <> old
    /\ heap w !! p = None
    /\ heap w7 = <[old := e2]> (<[p := newE]> (heap w))
    /\ keys w7 = keys w
    /\ RotateKey MemoryStore SoftwareHSM id w
       = (err ← MemoryStore_Put p;
          match err with
          | Some err => mret (Err (status_Errorf Internal "store new key: " err))
          | None =>
              oldMeta ← entryToProto old;
              newMeta ← entryToProto p;
              broadcastEvent KEY_EVENT_TYPE_ROTATED newMeta;;
              newID ← field ID p;
              Logger_Log "RotateKey" id "OK" "" {[ "new_key_id" := newID ]};;
              mret (Ok {| OldKey := oldMeta; NewKey := newMeta |})
          end) w7.
Proof.
  intros Hk Hp Hst Hgen newE e2.
  unfold RotateKey. cbn [Store_Get Store_Put Store_UpdateStatus MemoryStore].
  rewrite (bind_Done _ _ _ _ _ (MemoryStore_Get_found _ _ _ Hk)).
  rewrite (bind_Done _ _ _ _ _ (field_Done Status _ _ _ Hp)).
  rewrite Hst. cbn [Z.eqb StatusActive Pos.eqb negb].
  rewrite (bind_Done _ _ _ _ _ (field_Done Algorithm _ _ _ Hp)).
  destruct (resolveCurve_algoToProto (Algorithm e)) as (algo & ->).
  cbn [Provider_GenerateKey SoftwareHSM].
  assert (Eg : GenerateECDSAKey (rotation_curve (Algorithm e)) w
               = Done (Ok newKey) (set_rng S w))
    by (unfold GenerateECDSAKey; by rewrite Hgen).
  rewrite (bind_Done _ _ _ _ _ Eg).
  rewrite (bind_Done _ _ _ _ _ (uuid_New_Done _)).
  set (w1 := set_rng S (set_rng S w)).
  assert (Hp1 : heap w1 !! old = Some e) by exact Hp.
  rewrite (bind_Done _ _ _ _ _ (field_Done Algorithm _ _ _ Hp1)).
  rewrite (bind_Done _ _ _ _ _ (Now_Done _)).
  set (w2 := set_ticks S w1).
  assert (Hp2 : heap w2 !! old = Some e) by exact Hp.
  rewrite (bind_Done _ _ _ _ _ (field_Done Labels _ _ _ Hp2)).
  cbn [rng set_rng ticks set_ticks w1 w2]. fold newE.
  destruct (new_Done newE w2) as (p & En & Hpf & _).
  rewrite (bind_Done _ _ _ _ _ En).
  assert (Hpo : p <> old) by (intros ->; simpl in Hpf; congruence).
  set (w3 := set_heap <[p := newE]> w2).
  assert (Hk3 : keys w3 !! id = Some old) by exact Hk.
  assert (Hp3 : heap w3 !! old = Some e)
    by (simpl; rewrite lookup_insert_ne by done; exact Hp).
  rewrite (bind_Done _ _ _ _ _ (MemoryStore_UpdateStatus_found _ StatusRotated _ _ _ Hk3 Hp3)).
  set (e1 := KeyEntry_with_Status StatusRotated e).
  set (w4 := set_heap <[old := e1]> w3).
  assert (Hp4 : heap w4 !! old = Some e1) by (simpl; apply lookup_insert_eq).
  rewrite (bind_Done _ _ _ _ _ (assign_Done _ (KeyEntry_with_Status StatusRotated) _ _ Hp4)).
  set (w5 := set_heap _ w4).
  rewrite (bind_Done _ _ _ _ _ (Now_Done _)).
  assert (Hp5 : heap w5 !! old = Some e1) by (simpl; apply lookup_insert_eq).
  set (w6 := set_ticks S w5).
  assert (Hp6 : heap w6 !! old = Some e1) by exact Hp5.
  rewrite (bind_Done _ _ _ _ _ (assign_Done _ _ _ _ Hp6)).
  cbn [ticks set_ticks set_heap set_rng w1 w2 w3 w4 w5 w6]. fold e2.
  set (w7 := set_heap <[old := e2]> w6).
  exists p, w7. split; [exact Hpo|]. split; [exact Hpf|]. split; [|split].
  - cbn. by rewrite !insert_insert_eq.
  - reflexivity.
  - reflexivity.
Qed.

(** C1.  [RotateKey] on an ACTIVE key (when key generation succeeds and
    the generated id is not yet stored) returns the old and the new
    metadata: the new entry has the generated id, different from the old
    one, status ACTIVE and the algorithm and labels of the old entry; the
    old entry becomes ROTATED with [RotatedAt] set to the clock reading.
    On a key that is not ACTIVE it fails with failed-precondition and
    leaves the state as it was. *)
Theorem RotateKey_ACTIVE_or_failed_precondition (w : World) (id : string) (old : loc)
    (e : KeyEntry) :
  keys w !! id = Some old ->
  heap w !! old = Some e ->
  (Status e = StatusActive ->
   forall newKey : ecdsa_PrivateKey,
     ecdsa_GenerateKey (rotation_curve (Algorithm e)) (rng w) = Some newKey ->
     let newID := uuid_NewString (S (rng w)) in
     let rotatedAt := time_Now (S (ticks w)) in
     keys w !! newID = None ->
     exists (w' : World) (resp : RotateKeyResponse),
       RotateKey MemoryStore SoftwareHSM id w = Done (Ok resp) w'
       /\ meta_KeyId (NewKey resp) = newID
       /\ newID <> id
       /\ meta_Status (NewKey resp) = KEY_STATUS_ACTIVE
       /\ meta_Algorithm (NewKey resp) = algoToProto (Algorithm e)
       /\ meta_Labels (NewKey resp) = Labels e
       /\ meta_KeyId (OldKey resp) = ID e
       /\ meta_Status (OldKey resp) = KEY_STATUS_ROTATED
       /\ meta_RotatedAt (OldKey resp)
          = (if Time_IsZero rotatedAt then None else Some rotatedAt)
       /\ entry_at w' id
          = Some (KeyEntry_with_RotatedAt rotatedAt (KeyEntry_with_Status StatusRotated e))
       /\ entry_at w' newID
          = Some {| ID := newID; Algorithm := Algorithm e; Status := StatusActive;
                    PrivateKey := newKey; CreatedAt := time_Now (ticks w);
                    RotatedAt := 0; Labels := Labels e |})
  /\ (Status e <> StatusActive ->
      RotateKey MemoryStore SoftwareHSM id w
      = Done (Err (status_Error FailedPrecondition "can only rotate active keys")) w).
Proof.
  intros Hk Hp. split.
  - intros Hst newKey Hgen newID rotatedAt Hfresh.
    assert (Hne : newID <> id) by (intros ->; congruence).
    destruct (RotateKey_ACTIVE_until_Put w id old e newKey Hk Hp Hst Hgen)
      as (p & w7 & Hpo & Hpf & Hh7 & Hk7 & ->).
    fold newID rotatedAt in Hh7.
    set (newE := {| ID := newID; Algorithm := Algorithm e; Status := StatusActive;
                    PrivateKey := newKey; CreatedAt := time_Now (ticks w);
                    RotatedAt := 0; Labels := Labels e |}) in *.
    set (e2 := KeyEntry_with_RotatedAt rotatedAt (KeyEntry_with_Status StatusRotated e)) in *.
    assert (Ho7 : heap w7 !! old = Some e2) by (rewrite Hh7; apply lookup_insert_eq).
    assert (Hn7 : heap w7 !! p = Some newE).
    { rewrite Hh7, lookup_insert_ne by done. apply lookup_insert_eq. }
    assert (Hf7 : keys w7 !! ID newE = None) by (rewrite Hk7; exact Hfresh).
    rewrite (bind_Done _ _ _ _ _ (MemoryStore_Put_fresh _ _ _ Hn7 Hf7)).
    set (w8 := set_keys <[ID newE := p]> w7).
    assert (Ho8 : heap w8 !! old = Some e2) by exact Ho7.
    assert (Hn8 : heap w8 !! p = Some newE) by exact Hn7.
    destruct (entryToProto_Done _ _ _ Ho8) as (oldMeta & Eo & Hoid & _ & Host & _ & Horot & _).
    destruct (entryToProto_Done _ _ _ Hn8) as (newMeta & Enew & Hnid & Hnalg & Hnst & _ & _ & Hnlab).
    rewrite (bind_Done _ _ _ _ _ Eo), (bind_Done _ _ _ _ _ Enew).
    destruct (broadcastEvent_Done KEY_EVENT_TYPE_ROTATED newMeta w8) as (w9 & E9 & F9 & _).
    rewrite (bind_Done _ _ _ _ _ E9).
    assert (Hn9 : heap w9 !! p = Some newE) by (destruct F9 as (-> & _); exact Hn8).
    rewrite (bind_Done _ _ _ _ _ (field_Done ID _ _ _ Hn9)).
    destruct (Logger_Log_Done "RotateKey" id "OK" "" {[ "new_key_id" := ID newE ]} w9)
      as (w10 & E10 & F10 & _).
    rewrite (bind_Done _ _ _ _ _ E10).
    pose proof (same_store_trans _ _ _ F9 F10) as F.
    exists w10, {| OldKey := oldMeta; NewKey := newMeta |}.
    split; [reflexivity|]. cbn [OldKey NewKey].
    repeat split; try done.
    + rewrite (same_store_entry_at _ _ id F). unfold entry_at.
      cbn [keys w8 set_keys]. rewrite Hk7. cbn [ID newE].
      rewrite lookup_insert_ne by done. rewrite Hk. exact Ho8.
    + rewrite (same_store_entry_at _ _ newID F). unfold entry_at.
      cbn [keys w8 set_keys]. rewrite Hk7. cbn [ID newE].
      rewrite lookup_insert_eq. exact Hn8.
  - intros Hst. unfold RotateKey. cbn [Store_Get MemoryStore].
    rewrite (bind_Done _ _ _ _ _ (MemoryStore_Get_found _ _ _ Hk)).
    rewrite (bind_Done _ _ _ _ _ (field_Done Status _ _ _ Hp)).
    destruct (Status e =? StatusActive) eqn:E; [apply Z.eqb_eq in E; done|done].
Qed.

(** X8.  [RotateKey] is not atomic: when the new entry cannot be stored,
    because the generated id is already taken, the call fails with an
    internal error after the old key has been marked ROTATED and stamped,
    and no new key takes its place. *)
Theorem RotateKey_failed_Put_leaves_old_key_ROTATED (w : World) (id : string)
    (old q : loc) (e : KeyEntry) (newKey : ecdsa_PrivateKey) :
  keys w !! id = Some old ->
  heap w !! old = Some e ->
  Status e = StatusActive ->
  ecdsa_GenerateKey (rotation_curve (Algorithm e)) (rng w) = Some newKey ->
  keys w !! uuid_NewString (S (rng w)) = Some q ->
  exists w',
    RotateKey MemoryStore SoftwareHSM id w
    = Done (Err (status_Error Internal
                   ("store new key: key " +:+ uuid_NewString (S (rng w))
                    +:+ " already exists"))) w'
    /\ keys w' = keys w
    /\ entry_at w' id
       = Some (KeyEntry_with_RotatedAt (time_Now (S (ticks w)))
                 (KeyEntry_with_Status StatusRotated e)).
Proof.
  intros Hk Hp Hst Hgen Htaken.
  destruct (RotateKey_ACTIVE_until_Put w id old e newKey Hk Hp Hst Hgen)
    as (p & w7 & Hpo & Hpf & Hh7 & Hk7 & ->).
  set (newE := {| ID := uuid_NewString (S (rng w)); Algorithm := Algorithm e;
                  Status := StatusActive; PrivateKey := newKey;
                  CreatedAt := time_Now (ticks w); RotatedAt := 0;
                  Labels := Labels e |}) in *.
  assert (Hn7 : heap w7 !! p = Some newE).
  { rewrite Hh7, lookup_insert_ne by done. apply lookup_insert_eq. }
  assert (Ht7 : keys w7 !! ID newE = Some q) by (rewrite Hk7; exact Htaken).
  rewrite (bind_Done _ _ _ _ _ (MemoryStore_Put_exists _ _ _ _ Hn7 Ht7)).
  exists w7. split; [reflexivity|]. split; [exact Hk7|].
  unfold entry_at. rewrite Hk7, Hk. cbn. rewrite Hh7. apply lookup_insert_eq.
Qed.

(** X9.  [GenerateKey] creates an ACTIVE key: on P-256 when the algorithm is
    P-256 or unspecified, on P-384 when it is P-384; the entry is stored
    under a new id with the labels of the request, the clock reading as
    creation time and no rotation time, the other entries of the store
    are untouched, and the metadata returned describes the stored entry.
    Any other algorithm is refused as an invalid argument, with no
    change. *)
Theorem GenerateKey_creates_ACTIVE_key (w : World) (algorithm : pb_KeyAlgorithm)
    (labels : gmap string string) :
  (forall (curve : elliptic_Curve) (algo : KeyAlgorithm) (key : ecdsa_PrivateKey),
      resolveCurve algorithm = Ok (curve, algo) ->
      ecdsa_GenerateKey curve (rng w) = Some key ->
      let id := uuid_NewString (S (rng w)) in
      let entry := {| ID := id; Algorithm := algo; Status := StatusActive;
                      PrivateKey := key; CreatedAt := time_Now (ticks w);
                      RotatedAt := 0; Labels := labels |} in
      keys w !! id = None ->
      exists (w' : World) (meta : KeyMetadata),
        GenerateKey MemoryStore SoftwareHSM algorithm labels w
        = Done (Ok {| GenerateKey_Metadata := meta |}) w'
        /\ meta = {| meta_KeyId := id; meta_Algorithm := algoToProto algo;
                     meta_Status := KEY_STATUS_ACTIVE;
                     meta_CreatedAt := Some (time_Now (ticks w));
                     meta_RotatedAt := None; meta_Labels := labels |}
        /\ entry_at w' id = Some entry
        /\ (store_wf w ->
            store_wf w' /\ forall id', id' <> id -> entry_at w' id' = entry_at w id'))
  /\ (algorithm = KEY_ALGORITHM_UNSPECIFIED \/ algorithm = KEY_ALGORITHM_ECDSA_P256 ->
      resolveCurve algorithm = Ok (P256, AlgorithmECDSAP256))
  /\ (algorithm = KEY_ALGORITHM_ECDSA_P384 ->
      resolveCurve algorithm = Ok (P384, AlgorithmECDSAP384))
  /\ (algorithm <> KEY_ALGORITHM_UNSPECIFIED ->
      algorithm <> KEY_ALGORITHM_ECDSA_P256 ->
      algorithm <> KEY_ALGORITHM_ECDSA_P384 ->
      GenerateKey MemoryStore SoftwareHSM algorithm labels w
      = Done (Err (status_Error InvalidArgument
                     ("unsupported algorithm: " +:+ pretty algorithm))) w).
Proof.
  split; [|split; [|split]].
  - intros curve algo key Hres Hgen id entry Hfresh.
    unfold GenerateKey. rewrite Hres.
    cbn [Provider_GenerateKey SoftwareHSM Store_Put MemoryStore].
    assert (Eg : GenerateECDSAKey curve w = Done (Ok key) (set_rng S w))
      by (unfold GenerateECDSAKey; by rewrite Hgen).
    rewrite (bind_Done _ _ _ _ _ Eg).
    rewrite (bind_Done _ _ _ _ _ (uuid_New_Done _)).
    rewrite (bind_Done _ _ _ _ _ (Now_Done _)).
    cbn [rng set_rng ticks set_ticks]. fold id. fold entry.
    set (w2 := set_ticks S (set_rng S (set_rng S w))).
    destruct (new_Done entry w2) as (p & En & Hpf & _).
    rewrite (bind_Done _ _ _ _ _ En).
    set (w3 := set_heap <[p := entry]> w2).
    assert (Hp3 : heap w3 !! p = Some entry) by (cbn; apply lookup_insert_eq).
    assert (Hk3 : keys w3 !! ID entry = None) by exact Hfresh.
    rewrite (bind_Done _ _ _ _ _ (MemoryStore_Put_fresh _ _ _ Hp3 Hk3)).
    set (w4 := set_keys <[ID entry := p]> w3).
    assert (Hp4 : heap w4 !! p = Some entry) by exact Hp3.
    destruct (entryToProto_Done _ _ _ Hp4) as (meta & Em & M1 & M2 & M3 & M4 & M5 & M6).
    rewrite (bind_Done _ _ _ _ _ Em).
    destruct (broadcastEvent_Done KEY_EVENT_TYPE_CREATED meta w4) as (w5 & E5 & F5 & _).
    rewrite (bind_Done _ _ _ _ _ E5).
    assert (Hp5 : heap w5 !! p = Some entry) by (destruct F5 as (-> & _); exact Hp4).
    rewrite (bind_Done _ _ _ _ _ (field_Done ID _ _ _ Hp5)).
    destruct (Logger_Log_Done "GenerateKey" (ID entry) "OK" "" ∅ w5) as (w6 & E6 & F6 & _).
    rewrite (bind_Done _ _ _ _ _ E6).
    pose proof (same_store_trans _ _ _ F5 F6) as F.
    exists w6, meta. split; [reflexivity|]. split; [|split].
    + destruct meta. cbn in M1, M2, M3, M4, M5, M6. by subst.
    + rewrite (same_store_entry_at _ _ id F). unfold entry_at. cbn.
      rewrite lookup_insert_eq. cbn. apply lookup_insert_eq.
    + intros Hwf. split.
      * apply (same_store_store_wf w4 w6 F).
        apply (MemoryStore_Put_store_wf p None w3 w4);
          [|by apply MemoryStore_Put_fresh].
        by apply (store_wf_alloc w2).
      * intros id' Hne. rewrite (same_store_entry_at _ _ id' F). unfold entry_at. cbn.
        rewrite lookup_insert_ne by done.
        destruct (keys w !! id') as [q|] eqn:Hq; [|done]. cbn.
        rewrite lookup_insert_ne; [done|]. intros <-.
        destruct (Hwf id' p Hq) as (e' & He' & _). cbn in Hpf. congruence.
  - by intros [->| ->].
  - by intros ->.
  - intros Hn0 Hn1 Hn2. unfold GenerateKey, resolveCurve.
    destruct (algorithm =? KEY_ALGORITHM_ECDSA_P256) eqn:E1; [by apply Z.eqb_eq in E1|].
    destruct (algorithm =? KEY_ALGORITHM_UNSPECIFIED) eqn:E0; [by apply Z.eqb_eq in E0|].
    destruct (algorithm =? KEY_ALGORITHM_ECDSA_P384) eqn:E2; [by apply Z.eqb_eq in E2|].
    reflexivity.
Qed.

End facade.

(* ------------------------------------------------------------------- *)
(** ** package crypto: AES-GCM framing *)
(* ------------------------------------------------------------------- *)

Lemma NewCipher_Ok (key : bytes) :
  valid_aes_key_length (length key) -> exists block, aes.NewCipher key = Ok block.
Proof.
  intros Hk. unfold aes.NewCipher. rewrite bool_decide_eq_true_2 by exact Hk. eauto.
Qed.

Lemma NewCipher_Err (key : bytes) :
  ~ valid_aes_key_length (length key) ->
  aes.NewCipher key = Err (aes.KeySizeError_of (length key)).
Proof.
  intros Hk. unfold aes.NewCipher. by rewrite bool_decide_eq_false_2 by exact Hk.
Qed.

Lemma NewCipher_Ok_inv (key : bytes) (block : aes.Block) :
  aes.NewCipher key = Ok block -> valid_aes_key_length (length key).
Proof.
  unfold aes.NewCipher. case_bool_decide as Hk; [done|discriminate].
Qed.

Lemma NewGCM_Ok (block : aes.Block) :
  cipher.NewGCM block = Ok {| cipher.block := block |}.
Proof. reflexivity. Qed.

(** [DecryptAESGCM] on a well-formed frame [nonce ++ ct ++ tag]. *)
Lemma DecryptAESGCM_frame (key nonce ct tag aad : bytes) (block : aes.Block) :
  aes.NewCipher key = Ok block ->
  length nonce = 12%nat ->
  length tag = 16%nat ->
  DecryptAESGCM key (nonce ++ ct ++ tag) aad
  = if bool_decide (cipher.auth {| cipher.block := block |} nonce ct aad = tag)
    then Ok (cipher.counterCrypt {| cipher.block := block |} nonce ct)
    else Err (Errorf "aes gcm decrypt: cipher: message authentication failed").
Proof.
  intros Hb Hn Ht. unfold DecryptAESGCM. rewrite Hb, NewGCM_Ok.
  cbn [cipher.NonceSize cipher.gcmStandardNonceSize].
  rewrite length_app, Hn.
  replace (12 + length (ct ++ tag) <? 12)%nat with false
    by (symmetry; apply Nat.ltb_ge; lia).
  rewrite (take_app_length' nonce _ 12), (drop_app_length' nonce _ 12) by done.
  unfold cipher.Open. rewrite length_app, Ht.
  replace (length ct + 16 <? cipher.gcmTagSize)%nat with false
    by (symmetry; apply Nat.ltb_ge; unfold cipher.gcmTagSize; lia).
  replace (length ct + 16 - cipher.gcmTagSize)%nat with (length ct)
    by (unfold cipher.gcmTagSize; lia).
  rewrite take_app_length, drop_app_length.
  by case_bool_decide.
Qed.

(** X10.  Under a valid AES key, [DecryptAESGCM] rejects an input shorter than
    the 12-byte nonce as too short, and an input too short to hold a nonce
    and a 16-byte tag as failing authentication. *)
Theorem DecryptAESGCM_short_input (key ciphertext aad : bytes) :
  valid_aes_key_length (length key) ->
  ((length ciphertext < 12)%nat ->
     DecryptAESGCM key ciphertext aad = Err (Errorf "ciphertext too short"))
  /\ ((12 <= length ciphertext < 28)%nat ->
      DecryptAESGCM key ciphertext aad
      = Err (Errorf "aes gcm decrypt: cipher: message authentication failed")).
Proof.
  intros Hk. destruct (NewCipher_Ok _ Hk) as [block Hb].
  unfold DecryptAESGCM. rewrite Hb, NewGCM_Ok.
  unfold cipher.NonceSize, cipher.gcmStandardNonceSize. split; intros Hl.
  - by rewrite (proj2 (Nat.ltb_lt _ _)) by lia.
  - rewrite (proj2 (Nat.ltb_ge _ _)) by lia. unfold cipher.Open. rewrite length_drop.
    by rewrite (proj2 (Nat.ltb_lt _ _)) by (unfold cipher.gcmTagSize; lia).
Qed.

Section aesgcm.
Context `{Env}.

Lemma rand_Read_Ok (n : nat) (w : World) :
  rand_fails (rng w) = false ->
  rand_Read n w = Done (Ok (map rand_byte (seq (rng w) n))) (set_rng (fun r => (r + n)%nat) w).
Proof. intros Hr. unfold rand_Read. by rewrite Hr. Qed.

(** What a successful [EncryptAESGCM] returned. *)
Lemma EncryptAESGCM_Ok_inv (key plaintext aad framed : bytes) (w w' : World) :
  EncryptAESGCM key plaintext aad w = Done (Ok framed) w' ->
  exists block,
    aes.NewCipher key = Ok block
    /\ rand_fails (rng w) = false
    /\ w' = set_rng (fun r => (r + 12)%nat) w
    /\ let g := {| cipher.block := block |} in
       let nonce := map rand_byte (seq (rng w) 12) in
       let ct := cipher.counterCrypt g nonce plaintext in
       framed = nonce ++ ct ++ cipher.auth g nonce ct aad.
Proof.
  unfold EncryptAESGCM. destruct (aes.NewCipher key) as [block|err] eqn:Hb; [|discriminate].
  rewrite NewGCM_Ok. cbn [cipher.NonceSize cipher.gcmStandardNonceSize].
  unfold rand_Read, mbind, Go_bind. destruct (rand_fails (rng w)) eqn:Hr; [discriminate|].
  intros [= <- <-]. exists block. by repeat split.
Qed.

(** With a valid key and a working random source [EncryptAESGCM]
    returns a frame that [DecryptAESGCM] opens. *)
Lemma EncryptAESGCM_Done (key plaintext aad : bytes) (w : World) :
  valid_aes_key_length (length key) ->
  rand_fails (rng w) = false ->
  exists framed,
    EncryptAESGCM key plaintext aad w
    = Done (Ok framed) (set_rng (fun r => (r + 12)%nat) w)
    /\ DecryptAESGCM key framed aad = Ok plaintext.
Proof.
  intros Hk Hr. destruct (NewCipher_Ok _ Hk) as [block Hb].
  eexists. split.
  - unfold EncryptAESGCM. rewrite Hb, NewGCM_Ok.
    cbn [cipher.NonceSize cipher.gcmStandardNonceSize].
    by rewrite (bind_Done _ _ _ _ _ (rand_Read_Ok 12 w Hr)).
  - unfold cipher.Seal.
    rewrite (DecryptAESGCM_frame _ _ _ _ _ _ Hb)
      by first [apply length_auth | by rewrite length_map, length_seq].
    rewrite bool_decide_eq_true_2 by done. by rewrite counterCrypt_involutive.
Qed.

(** C8 (as amended).  [EncryptAESGCM] requires an AES key of 16, 24 or 32
    bytes: for every key of another length it fails; for every key of one
    of these lengths it succeeds unless the random source fails, and its
    output is laid out exactly as nonce ‖ ciphertext ‖ tag, with the
    12-byte nonce read from the random source prepended, a ciphertext as
    long as the plaintext and a 16-byte tag. *)
Theorem EncryptAESGCM_key_length_and_layout (key plaintext aad : bytes) (w : World) :
  (~ valid_aes_key_length (length key) ->
     exists err, EncryptAESGCM key plaintext aad w = Done (Err err) w)
  /\ (valid_aes_key_length (length key) ->
      rand_fails (rng w) = false ->
      exists (block : aes.Block) (nonce ct tag : bytes) (w' : World),
        aes.NewCipher key = Ok block
        /\ EncryptAESGCM key plaintext aad w = Done (Ok (nonce ++ ct ++ tag)) w'
        /\ nonce = map rand_byte (seq (rng w) 12)
        /\ length nonce = 12%nat
        /\ ct = cipher.counterCrypt {| cipher.block := block |} nonce plaintext
        /\ length ct = length plaintext
        /\ tag = cipher.auth {| cipher.block := block |} nonce ct aad
        /\ length tag = 16%nat)
  /\ (valid_aes_key_length (length key) ->
      rand_fails (rng w) = true ->
      exists err, EncryptAESGCM key plaintext aad w = Done (Err err) w).
Proof.
  split; [|split].
  - intros Hk. unfold EncryptAESGCM. rewrite (NewCipher_Err _ Hk). eauto.
  - intros Hk Hr. destruct (NewCipher_Ok _ Hk) as [block Hb].
    exists block. do 4 eexists. split; [exact Hb|].
    unfold EncryptAESGCM. rewrite Hb, NewGCM_Ok.
    cbn [cipher.NonceSize cipher.gcmStandardNonceSize].
    rewrite (bind_Done _ _ _ _ _ (rand_Read_Ok 12 w Hr)).
    unfold cipher.Seal. split; [reflexivity|].
    split; [reflexivity|]. split; [by rewrite length_map, length_seq|].
    split; [reflexivity|]. split; [apply length_counterCrypt|].
    split; [reflexivity|apply length_auth].
  - intros Hk Hr. destruct (NewCipher_Ok _ Hk) as [block Hb].
    unfold EncryptAESGCM. rewrite Hb, NewGCM_Ok.
    unfold rand_Read, mbind, Go_bind. rewrite Hr. eauto.
Qed.

(** C4 (as amended).  Decrypting the output of [EncryptAESGCM key
    plaintext aad] with the same key and aad returns exactly the
    plaintext.  With another key or aad, [DecryptAESGCM] fails when the
    key is not a valid AES key or when the 16-byte GCM tag recomputed under
    that key and aad differs from the tag in the frame; when the tags
    coincide it returns the counter-mode decryption under that key. *)
Theorem DecryptAESGCM_EncryptAESGCM (key plaintext aad framed : bytes) (w w' : World) :
  EncryptAESGCM key plaintext aad w = Done (Ok framed) w' ->
  let nonce := take 12 framed in
  let ct := take (length plaintext) (drop 12 framed) in
  let tag := drop (12 + length plaintext) framed in
  DecryptAESGCM key framed aad = Ok plaintext
  /\ (exists block,
        aes.NewCipher key = Ok block
        /\ tag = cipher.auth {| cipher.block := block |} nonce ct aad)
  /\ forall key' aad' : bytes,
       (forall err, aes.NewCipher key' = Err err ->
          exists e, DecryptAESGCM key' framed aad' = Err e)
       /\ (forall block', aes.NewCipher key' = Ok block' ->
             (cipher.auth {| cipher.block := block' |} nonce ct aad' <> tag ->
                DecryptAESGCM key' framed aad'
                = Err (Errorf "aes gcm decrypt: cipher: message authentication failed"))
             /\ (cipher.auth {| cipher.block := block' |} nonce ct aad' = tag ->
                 DecryptAESGCM key' framed aad'
                 = Ok (cipher.counterCrypt {| cipher.block := block' |} nonce ct))).
Proof.
  intros HE. destruct (EncryptAESGCM_Ok_inv _ _ _ _ _ _ HE) as (block & Hb & Hr & -> & Hf).
  cbv zeta in Hf.
  set (g := {| cipher.block := block |}) in *.
  set (nonce0 := map rand_byte (seq (rng w) 12)) in *.
  set (ct0 := cipher.counterCrypt g nonce0 plaintext) in *.
  assert (Hn : length nonce0 = 12%nat) by (unfold nonce0; by rewrite length_map, length_seq).
  assert (Hc : length ct0 = length plaintext) by apply length_counterCrypt.
  assert (Ht : length (cipher.auth g nonce0 ct0 aad) = 16%nat) by apply length_auth.
  subst framed. intros nonce ct tag.
  assert (Enonce : nonce = nonce0) by (unfold nonce; by rewrite take_app_length').
  assert (Ect : ct = ct0).
  { unfold ct. rewrite (drop_app_length' nonce0 _ 12) by done.
    by rewrite take_app_length'. }
  assert (Etag : tag = cipher.auth g nonce0 ct0 aad).
  { unfold tag. replace (12 + length plaintext)%nat with (length (nonce0 ++ ct0))
      by (rewrite length_app; lia).
    by rewrite app_assoc, drop_app_length. }
  rewrite Enonce, Ect, Etag. clear nonce ct tag Enonce Ect Etag.
  split; [|split].
  - rewrite (DecryptAESGCM_frame _ _ _ _ _ _ Hb Hn Ht).
    rewrite bool_decide_eq_true_2 by done. unfold ct0. by rewrite counterCrypt_involutive.
  - by exists block.
  - intros key' aad'. split.
    + intros err Hb'. unfold DecryptAESGCM. rewrite Hb'. eauto.
    + intros block' Hb'. rewrite (DecryptAESGCM_frame _ _ _ _ _ _ Hb' Hn Ht).
      split; intros Htag.
      * by rewrite bool_decide_eq_false_2.
      * by rewrite bool_decide_eq_true_2.
Qed.

End aesgcm.

(* ------------------------------------------------------------------- *)
(** ** package crypto: key derivation *)
(* ------------------------------------------------------------------- *)

Lemma hkdf_blocks_T (f : hkdf.reader) (c n : nat) :
  hkdf.blocks f (HKDF_T (hkdf.prk f) (hkdf.info f) c) (Z.of_nat (S c)) n
  = flat_map (HKDF_T (hkdf.prk f) (hkdf.info f)) (seq (S c) n).
Proof.
  revert c. induction n as [|n IH]; intros c; [done|].
  cbn [hkdf.blocks seq flat_map]. f_equal.
  replace (Z.of_nat (S c) + 1) with (Z.of_nat (S (S c))) by lia.
  apply (IH (S c)).
Qed.

(** An absent salt and an empty salt give the same pseudorandom key. *)
Lemma hkdf_Extract_empty_salt (secret : bytes) :
  hkdf.Extract secret None = hmac.Sum [] secret.
Proof. reflexivity. Qed.

Lemma hkdf_ReadFull_HKDF (secret info : bytes) (n : nat) :
  (n <= 255 * sha256.Size)%nat ->
  hkdf.ReadFull (hkdf.New secret None info) n = Some (HKDF_SHA256 secret [] info n).
Proof.
  intros Hn. unfold hkdf.ReadFull.
  replace (255 * sha256.Size <? n)%nat with false by (symmetry; apply Nat.ltb_ge; lia).
  unfold HKDF_SHA256. do 2 f_equal.
  change (n + sha256.Size - 1)%nat with (n + 32 - 1)%nat.
  replace (n + 32 - 1)%nat with (n + 31)%nat by lia.
  apply (hkdf_blocks_T (hkdf.New secret None info) 0).
Qed.

Lemma length_HKDF_SHA256 (secret info : bytes) (n : nat) :
  (n <= 255 * sha256.Size)%nat -> length (HKDF_SHA256 secret [] info n) = n.
Proof.
  intros Hn. destruct (hkdf_ReadFull_length (hkdf.New secret None info) n Hn) as (out & E & Hl).
  rewrite hkdf_ReadFull_HKDF in E by done. by injection E as <-.
Qed.

Lemma DeriveKey_in_range (rootKey context : bytes) (length_ : Z) :
  1 <= length_ <= 64 ->
  DeriveKey rootKey context length_
  = Ok (HKDF_SHA256 rootKey [] context (Z.to_nat length_)).
Proof.
  intros Hl. unfold DeriveKey.
  replace (length_ <=? 0) with false by (symmetry; apply Z.leb_gt; lia).
  replace (64 <? length_) with false by (symmetry; apply Z.ltb_ge; lia).
  cbn [orb]. rewrite hkdf_ReadFull_HKDF; [done|]. unfold sha256.Size. lia.
Qed.

Lemma DeriveKey_out_of_range (rootKey context : bytes) (length_ : Z) :
  length_ < 1 \/ 64 < length_ ->
  DeriveKey rootKey context length_
  = Err (Errorf ("invalid derived key length: " +:+ pretty length_ +:+ " (must be 1-64)")).
Proof.
  intros Hl. unfold DeriveKey.
  destruct (length_ <=? 0) eqn:E1; [done|].
  destruct (64 <? length_) eqn:E2; [done|].
  apply Z.leb_gt in E1. apply Z.ltb_ge in E2. lia.
Qed.

Section derivation.
Context `{Env} `{X509}.

(** C7.  [DeriveKey] is a function of its three arguments: it returns the
    first [length] bytes of HKDF-SHA256 of the root with empty salt and
    the context as info, exactly [length] bytes, when [1 <= length <= 64],
    and fails otherwise.  The [DeriveKey] operation on a stored ACTIVE
    root answers invalid-argument for a length out of range, and for a
    length in range answers with bytes that depend on the root material,
    the context and the length only. *)
Theorem DeriveKey_length_range_deterministic (rootKey context : bytes) (length_ : Z) :
  (1 <= length_ <= 64 ->
     DeriveKey rootKey context length_
     = Ok (HKDF_SHA256 rootKey [] context (Z.to_nat length_))
     /\ Z.of_nat (length (HKDF_SHA256 rootKey [] context (Z.to_nat length_))) = length_)
  /\ (length_ < 1 \/ 64 < length_ ->
      exists err, DeriveKey rootKey context length_ = Err err)
  /\ (forall (w : World) (id : string) (p : loc) (e : KeyEntry),
        keys w !! id = Some p -> heap w !! p = Some e -> Status e = StatusActive ->
        (length_ < 1 \/ 64 < length_ ->
           EncryptionServer_DeriveKey MemoryStore id context length_ w
           = Done (Err (status_Error InvalidArgument "length must be 1-64 bytes")) w)
        /\ (1 <= length_ <= 64 ->
            x509_MarshalPKCS8PrivateKey (PrivateKey e) = Some rootKey ->
            exists w',
              EncryptionServer_DeriveKey MemoryStore id context length_ w
              = Done (Ok {| DerivedKey :=
                              HKDF_SHA256 rootKey [] context (Z.to_nat length_) |}) w')).
Proof.
  split; [|split].
  - intros Hl. split; [by apply DeriveKey_in_range|].
    rewrite length_HKDF_SHA256 by (unfold sha256.Size; lia). lia.
  - intros Hl. rewrite DeriveKey_out_of_range by done. eauto.
  - intros w id p e Hk Hp Hst.
    split.
    + intros Hl. unfold EncryptionServer_DeriveKey. cbn [Store_Get MemoryStore].
      rewrite (bind_Done _ _ _ _ _ (MemoryStore_Get_found _ _ _ Hk)).
      rewrite (bind_Done _ _ _ _ _ (field_Done Status _ _ _ Hp)).
      rewrite Hst. cbn [Z.eqb StatusActive Pos.eqb negb].
      destruct (length_ <=? 0) eqn:E1; [done|].
      destruct (64 <? length_) eqn:E2; [done|].
      apply Z.leb_gt in E1. apply Z.ltb_ge in E2. lia.
    + intros Hl Hm. unfold EncryptionServer_DeriveKey. cbn [Store_Get MemoryStore].
      rewrite (bind_Done _ _ _ _ _ (MemoryStore_Get_found _ _ _ Hk)).
      rewrite (bind_Done _ _ _ _ _ (field_Done Status _ _ _ Hp)).
      rewrite Hst. cbn [Z.eqb StatusActive Pos.eqb negb].
      replace (length_ <=? 0) with false by (symmetry; apply Z.leb_gt; lia).
      replace (64 <? length_) with false by (symmetry; apply Z.ltb_ge; lia).
      cbn [orb].
      rewrite (bind_Done _ _ _ _ _ (field_Done PrivateKey _ _ _ Hp)).
      unfold MarshalPrivateKey. rewrite Hm, DeriveKey_in_range by done.
      destruct (Logger_Log_Done "DeriveKey" id "OK" "" ∅ w) as (w3 & E3 & _).
      rewrite (bind_Done _ _ _ _ _ E3). by exists w3.
Qed.

Lemma deriveSymmetricKey_Done (p : loc) (e : KeyEntry) (der : bytes) (w : World) :
  heap w !! p = Some e ->
  x509_MarshalPKCS8PrivateKey (PrivateKey e) = Some der ->
  deriveSymmetricKey p w
  = Done (Ok (HKDF_SHA256 der [] (bytes_of_string "vault-aes-gcm") 32)) w.
Proof.
  intros Hp Hm. unfold deriveSymmetricKey.
  rewrite (bind_Done _ _ _ _ _ (field_Done PrivateKey _ _ _ Hp)).
  unfold MarshalPrivateKey. rewrite Hm. by rewrite DeriveKey_in_range by lia.
Qed.

(** C3.  For every stored entry whose private key has the PKCS#8 DER
    serialization [der], the AES key that [Encrypt] and [Decrypt] use is
    HKDF-SHA256 of [der] with empty salt, info "vault-aes-gcm" and output
    length 32, and it is 32 bytes long: [Encrypt] (on an ACTIVE entry) and
    [Decrypt] (in any status) run [EncryptAESGCM] and [DecryptAESGCM]
    under that key. *)
Theorem symmetric_key_is_HKDF_of_PKCS8 (w : World) (id : string) (p : loc) (e : KeyEntry)
    (der data aad : bytes) :
  keys w !! id = Some p ->
  heap w !! p = Some e ->
  x509_MarshalPKCS8PrivateKey (PrivateKey e) = Some der ->
  let symKey := HKDF_SHA256 der [] (bytes_of_string "vault-aes-gcm") 32 in
  length symKey = 32%nat
  /\ deriveSymmetricKey p w = Done (Ok symKey) w
  /\ (Status e = StatusActive ->
      Encrypt MemoryStore id data aad w
      = (r ← EncryptAESGCM symKey data aad;
         match r with
         | Err err =>
             Logger_Log "Encrypt" id "ERROR" "" ∅;;
             mret (Err (status_Errorf Internal "encrypt: " err))
         | Ok ct =>
             Logger_Log "Encrypt" id "OK" "" ∅;;
             mret (Ok {| Ciphertext := ct; Encrypt_KeyId := id |})
         end) w)
  /\ Decrypt MemoryStore id data aad w
     = (match DecryptAESGCM symKey data aad with
        | Err err =>
            Logger_Log "Decrypt" id "ERROR" "" ∅;;
            mret (Err (status_Errorf InvalidArgument "decrypt: " err))
        | Ok pt =>
            Logger_Log "Decrypt" id "OK" "" ∅;;
            mret (Ok {| Plaintext := pt |})
        end) w.
Proof.
  intros Hk Hp Hm symKey. split; [|split; [|split]].
  - apply length_HKDF_SHA256. unfold sha256.Size. lia.
  - by apply (deriveSymmetricKey_Done p e).
  - intros Hst. unfold Encrypt. cbn [Store_Get MemoryStore].
    rewrite (bind_Done _ _ _ _ _ (MemoryStore_Get_found _ _ _ Hk)).
    rewrite (bind_Done _ _ _ _ _ (field_Done Status _ _ _ Hp)).
    rewrite Hst. cbn [Z.eqb StatusActive Pos.eqb negb].
    by rewrite (bind_Done _ _ _ _ _ (deriveSymmetricKey_Done _ _ _ _ Hp Hm)).
  - unfold Decrypt. cbn [Store_Get MemoryStore].
    rewrite (bind_Done _ _ _ _ _ (MemoryStore_Get_found _ _ _ Hk)).
    by rewrite (bind_Done _ _ _ _ _ (deriveSymmetricKey_Done _ _ _ _ Hp Hm)).
Qed.

End derivation.

(* ------------------------------------------------------------------- *)
(** ** The encryption operations *)
(* ------------------------------------------------------------------- *)

Section encryption.
Context `{Env} `{X509}.

Lemma Encrypt_Done (w : World) (id : string) (p : loc) (e : KeyEntry)
    (der plaintext aad : bytes) :
  keys w !! id = Some p ->
  heap w !! p = Some e ->
  Status e = StatusActive ->
  x509_MarshalPKCS8PrivateKey (PrivateKey e) = Some der ->
  rand_fails (rng w) = false ->
  exists (ct : bytes) (w' : World),
    Encrypt MemoryStore id plaintext aad w
    = Done (Ok {| Ciphertext := ct; Encrypt_KeyId := id |}) w'
    /\ same_store w w'
    /\ DecryptAESGCM (HKDF_SHA256 der [] (bytes_of_string "vault-aes-gcm") 32) ct aad
       = Ok plaintext.
Proof.
  intros Hk Hp Hst Hm Hr. unfold Encrypt. cbn [Store_Get MemoryStore].
  rewrite (bind_Done _ _ _ _ _ (MemoryStore_Get_found _ _ _ Hk)).
  rewrite (bind_Done _ _ _ _ _ (field_Done Status _ _ _ Hp)).
  rewrite Hst. cbn [Z.eqb StatusActive Pos.eqb negb].
  rewrite (bind_Done _ _ _ _ _ (deriveSymmetricKey_Done _ _ _ _ Hp Hm)).
  set (symKey := HKDF_SHA256 der [] (bytes_of_string "vault-aes-gcm") 32).
  assert (Hlen : valid_aes_key_length (length symKey)).
  { right. right. apply length_HKDF_SHA256. unfold sha256.Size. lia. }
  destruct (EncryptAESGCM_Done symKey plaintext aad w Hlen Hr) as (ct & HE & HD).
  rewrite (bind_Done _ _ _ _ _ HE).
  destruct (Logger_Log_Done "Encrypt" id "OK" "" ∅ (set_rng (fun r => (r + 12)%nat) w))
    as (w3 & E3 & F3 & _).
  rewrite (bind_Done _ _ _ _ _ E3). exists ct, w3. split; [reflexivity|].
  split; [|exact HD]. eapply same_store_trans; [|exact F3]. by repeat split.
Qed.

Lemma Encrypt_not_ACTIVE (w : World) (id : string) (p : loc) (e : KeyEntry)
    (plaintext aad : bytes) :
  keys w !! id = Some p ->
  heap w !! p = Some e ->
  Status e <> StatusActive ->
  Encrypt MemoryStore id plaintext aad w
  = Done (Err (status_Error FailedPrecondition "key is not active")) w.
Proof.
  intros Hk Hp Hst. unfold Encrypt. cbn [Store_Get MemoryStore].
  rewrite (bind_Done _ _ _ _ _ (MemoryStore_Get_found _ _ _ Hk)).
  rewrite (bind_Done _ _ _ _ _ (field_Done Status _ _ _ Hp)).
  destruct (Status e =? StatusActive) eqn:E; [apply Z.eqb_eq in E; done|done].
Qed.

Lemma Decrypt_Done (w : World) (id : string) (p : loc) (e : KeyEntry)
    (der ct aad plaintext : bytes) :
  keys w !! id = Some p ->
  heap w !! p = Some e ->
  x509_MarshalPKCS8PrivateKey (PrivateKey e) = Some der ->
  DecryptAESGCM (HKDF_SHA256 der [] (bytes_of_string "vault-aes-gcm") 32) ct aad
  = Ok plaintext ->
  exists w',
    Decrypt MemoryStore id ct aad w = Done (Ok {| Plaintext := plaintext |}) w'
    /\ same_store w w'.
Proof.
  intros Hk Hp Hm HD. unfold Decrypt. cbn [Store_Get MemoryStore].
  rewrite (bind_Done _ _ _ _ _ (MemoryStore_Get_found _ _ _ Hk)).
  rewrite (bind_Done _ _ _ _ _ (deriveSymmetricKey_Done _ _ _ _ Hp Hm)).
  rewrite HD.
  destruct (Logger_Log_Done "Decrypt" id "OK" "" ∅ w) as (w3 & E3 & F3 & _).
  rewrite (bind_Done _ _ _ _ _ E3). by exists w3.
Qed.

(** X11.  What an ACTIVE key encrypted is decrypted under the same key id and
    the same additional data, and still is after the key has been
    deactivated, when [Encrypt] under that key is refused. *)
Theorem Decrypt_Encrypt_across_deactivation (w : World) (id : string) (p : loc)
    (e : KeyEntry) (der plaintext aad : bytes) :
  keys w !! id = Some p ->
  heap w !! p = Some e ->
  Status e = StatusActive ->
  x509_MarshalPKCS8PrivateKey (PrivateKey e) = Some der ->
  rand_fails (rng w) = false ->
  exists (ct : bytes) (w1 w2 w3 w4 : World) (meta : KeyMetadata),
    Encrypt MemoryStore id plaintext aad w
    = Done (Ok {| Ciphertext := ct; Encrypt_KeyId := id |}) w1
    /\ Decrypt MemoryStore id ct aad w1 = Done (Ok {| Plaintext := plaintext |}) w2
    /\ DeactivateKey MemoryStore id w2 = Done (Ok {| Deactivate_Metadata := meta |}) w3
    /\ meta_Status meta = KEY_STATUS_DEACTIVATED
    /\ Encrypt MemoryStore id plaintext aad w3
       = Done (Err (status_Error FailedPrecondition "key is not active")) w3
    /\ Decrypt MemoryStore id ct aad w3 = Done (Ok {| Plaintext := plaintext |}) w4.
Proof.
  intros Hk Hp Hst Hm Hr.
  destruct (Encrypt_Done w id p e der plaintext aad Hk Hp Hst Hm Hr)
    as (ct & w1 & HE & (Hh1 & Hk1 & _) & HD).
  assert (Hk1' : keys w1 !! id = Some p) by (by rewrite Hk1).
  assert (Hp1' : heap w1 !! p = Some e) by (by rewrite Hh1).
  destruct (Decrypt_Done w1 id p e der ct aad plaintext Hk1' Hp1' Hm HD)
    as (w2 & HD1 & (Hh2 & Hk2 & _)).
  assert (Hk2' : keys w2 !! id = Some p) by (by rewrite Hk2).
  assert (Hp2' : heap w2 !! p = Some e) by (by rewrite Hh2).
  destruct (DeactivateKey_found w2 id p e Hk2' Hp2')
    as (w3 & meta & HX & _ & Hms & (Hh3 & Hk3 & _)).
  set (e' := KeyEntry_with_Status StatusDeactivated e) in *.
  assert (Hk3' : keys w3 !! id = Some p) by (rewrite Hk3; exact Hk2').
  assert (Hp3' : heap w3 !! p = Some e') by (rewrite Hh3; cbn; apply lookup_insert_eq).
  assert (Hst' : Status e' <> StatusActive) by done.
  destruct (Decrypt_Done w3 id p e' der ct aad plaintext Hk3' Hp3' Hm HD) as (w4 & HD3 & _).
  exists ct, w1, w2, w3, w4, meta.
  split; [exact HE|]. split; [exact HD1|]. split; [exact HX|]. split; [exact Hms|].
  split; [|exact HD3]. by apply (Encrypt_not_ACTIVE w3 id p e').
Qed.

End encryption.

(* ------------------------------------------------------------------- *)
(** ** The persistent store *)
(* ------------------------------------------------------------------- *)

Lemma view_lookup (w : World) (id : string) : view w !! id = entry_at w id.
Proof. unfold view, entry_at. apply lookup_omap. Qed.

Lemma view_alloc_insert (w : World) (id : string) (p : loc) (e : KeyEntry) :
  ptrs_valid w -> heap w !! p = None ->
  view (set_keys <[id := p]> (set_heap <[p := e]> w)) = <[id := e]> (view w)
  /\ ptrs_valid (set_keys <[id := p]> (set_heap <[p := e]> w)).
Proof.
  intros Hv Hp. split.
  - apply map_eq. intros i. rewrite view_lookup. unfold entry_at. cbn.
    destruct (decide (i = id)) as [->|Hne].
    + rewrite !lookup_insert_eq. cbn. by rewrite lookup_insert_eq.
    + rewrite !lookup_insert_ne by done. rewrite view_lookup. unfold entry_at.
      destruct (keys w !! i) as [q|] eqn:Hq; [|done]. cbn.
      rewrite lookup_insert_ne; [done|]. intros ->.
      destruct (Hv i q Hq) as [? ?]. congruence.
  - intros i q. cbn. destruct (decide (i = id)) as [->|Hne].
    + rewrite lookup_insert_eq. intros [= <-]. rewrite lookup_insert_eq. eauto.
    + rewrite lookup_insert_ne by done. intros Hq.
      destruct (Hv i q Hq) as [x Hx]. destruct (decide (q = p)) as [->|Hqp].
      * rewrite lookup_insert_eq. eauto.
      * rewrite lookup_insert_ne by done. eauto.
Qed.

Lemma foldl_insert_lookup_ne (es : list KeyEntry) (m : gmap string KeyEntry) (id : string) :
  id ∉ ID <$> es ->
  foldl (fun m e => <[ID e := e]> m) m es !! id = m !! id.
Proof.
  revert m. induction es as [|e es IH]; intros m Hn; [done|].
  rewrite fmap_cons in Hn. apply not_elem_of_cons in Hn as [Hne Hn].
  cbn [foldl]. rewrite IH by done. by apply lookup_insert_ne.
Qed.

Lemma foldl_insert_lookup (es : list KeyEntry) (m : gmap string KeyEntry) (e : KeyEntry) :
  NoDup (ID <$> es) -> e ∈ es ->
  foldl (fun m e => <[ID e := e]> m) m es !! ID e = Some e.
Proof.
  revert m. induction es as [|e0 es IH]; intros m Hnd He; [by apply elem_of_nil in He|].
  cbn [foldl]. cbn in Hnd. apply list.NoDup_cons in Hnd as [Hn0 Hnd].
  apply elem_of_cons in He as [->|He].
  - rewrite foldl_insert_lookup_ne by done. apply lookup_insert_eq.
  - by apply IH.
Qed.

Lemma os_Stat_found (name : string) (data : bytes) (w : World) :
  files w !! name = Some data -> os_Stat name w = Done None w.
Proof.
  intros Hf. unfold os_Stat. rewrite (bind_Done (gets files) _ w w (files w) eq_refl).
  by rewrite Hf.
Qed.

Lemma os_ReadFile_found (name : string) (data : bytes) (w : World) :
  files w !! name = Some data -> os_ReadFile name w = Done (Ok data) w.
Proof.
  intros Hf. unfold os_ReadFile. rewrite (bind_Done (gets files) _ w w (files w) eq_refl).
  by rewrite Hf.
Qed.

Section persistence.
Context `{Env} `{ECDSA} `{X509} `{JSON}.

(** The contracts of the libraries the persistent store relies on, for
    the keys that are [key_valid] and the records that are
    [json_faithful]. *)
Variable key_valid : ecdsa_PrivateKey -> Prop.
Variable json_faithful : persistedKey -> Prop.

Hypothesis map_range_Permutation :
  forall (s : nat) (l : list (string * loc)), map_range s l ≡ₚ l.
Hypothesis pkcs8_round_trip :
  forall k : ecdsa_PrivateKey, key_valid k ->
    exists der, x509_MarshalPKCS8PrivateKey k = Some der
                /\ x509_ParsePKCS8PrivateKey der = Some (pkcs8_ecdsa k).
Hypothesis json_round_trip :
  forall ks : list persistedKey, Forall json_faithful ks ->
    exists data, json_MarshalIndent ks = Some data /\ json_Unmarshal data = Some ks.
Hypothesis sign_verify :
  forall (s : nat) (k : ecdsa_PrivateKey) (hash sig : bytes),
    key_valid k -> ecdsa_SignASN1 s k hash = Some sig ->
    ecdsa_VerifyASN1 (PublicKey k) hash sig = true.

Lemma PersistentStore_save_loop_Done (kvs : list (string * loc)) (es : list KeyEntry)
    (acc : list persistedKey) (w : World) :
  Forall2 (fun kv e => heap w !! kv.2 = Some e) kvs es ->
  Forall (fun e => key_valid (PrivateKey e)) es ->
  exists pks, PersistentStore_save_loop kvs acc w = Done (Ok (acc ++ pks)) w
              /\ Forall2 saved_as es pks.
Proof.
  intros HF. revert acc. induction HF as [|[id p] e kvs es Hp HF IH]; intros acc Hv.
  - exists []. rewrite app_nil_r. by split.
  - apply Forall_cons_1 in Hv as [Hve Hv]. cbn [PersistentStore_save_loop].
    rewrite (bind_Done _ _ _ _ _ (load_Done _ _ _ Hp)).
    destruct (pkcs8_round_trip _ Hve) as (der & Hm & Hparse).
    unfold MarshalPrivateKey. rewrite Hm.
    destruct (IH (acc ++ [persisted e der]) Hv) as (pks & E & Hpks).
    exists (persisted e der :: pks). split.
    + unfold persisted in E. rewrite E. by rewrite <- app_assoc.
    + constructor; [|done]. by repeat split.
Qed.

Lemma PersistentStore_load_loop_Done (pks : list persistedKey) (es : list KeyEntry)
    (w : World) :
  Forall2 saved_as es pks -> ptrs_valid w ->
  exists w', PersistentStore_load_loop pks w = Done None w'
             /\ ptrs_valid w'
             /\ files w' = files w
             /\ view w' = foldl (fun m e => <[ID e := e]> m) (view w) es.
Proof.
  intros HF. revert w. induction HF as [|e pk es pks (Hm & Hparse & Hpk) HF IH]; intros w Hv.
  - exists w. by repeat split.
  - cbn [PersistentStore_load_loop]. unfold UnmarshalPrivateKey. rewrite Hparse.
    assert (Hrec : {| ID := pk_ID pk; Algorithm := pk_Algorithm pk; Status := pk_Status pk;
                      PrivateKey := PrivateKey e; CreatedAt := pk_CreatedAt pk;
                      RotatedAt := pk_RotatedAt pk; Labels := pk_Labels pk |} = e)
      by (rewrite Hpk; by destruct e).
    rewrite Hrec. destruct (new_Done e w) as (p & En & Hfresh & _).
    rewrite (bind_Done _ _ _ _ _ En).
    assert (Hid : pk_ID pk = ID e) by (by rewrite Hpk).
    rewrite Hid.
    destruct (view_alloc_insert w (ID e) p e Hv Hfresh) as [Hview Hv'].
    unfold modify. cbn [mbind Go_bind].
    destruct (IH _ Hv') as (w' & E & Hv'' & Hfiles & Hview').
    exists w'. split; [exact E|]. split; [done|]. split; [by rewrite Hfiles|].
    cbn [foldl]. by rewrite Hview', Hview.
Qed.

(** The entries of a well-formed store, in the order [save] visits them. *)
Lemma store_wf_entries (w : World) (kvs : list (string * loc)) :
  store_wf w -> kvs ≡ₚ map_to_list (keys w) ->
  exists es : list KeyEntry,
    Forall2 (fun kv e => heap w !! kv.2 = Some e) kvs es
    /\ NoDup (ID <$> es)
    /\ (forall e, e ∈ es -> entry_at w (ID e) = Some e)
    /\ (forall id e, entry_at w id = Some e -> e ∈ es /\ ID e = id).
Proof.
  intros Hwf Hperm.
  assert (Hin : forall id p, (id, p) ∈ kvs <-> keys w !! id = Some p).
  { intros id p. rewrite Hperm. apply elem_of_map_to_list. }
  assert (HR : exists es, Forall2 (fun kv e => heap w !! kv.2 = Some e /\ ID e = kv.1) kvs es).
  { apply Forall_exists_Forall2_l, list.Forall_forall. intros [id p] Hkv.
    apply Hin in Hkv. destruct (Hwf id p Hkv) as (e & He & Hid). by exists e. }
  destruct HR as [es HR]. exists es.
  assert (Hids : ID <$> es = kvs.*1).
  { clear -HR. induction HR as [|kv e kvs es [_ Hid] _ IH]; [done|].
    cbn. by rewrite Hid, IH. }
  split; [eapply list.Forall2_impl; [exact HR|]; by intros ? ? [? _]|].
  split; [|split].
  - rewrite Hids, Hperm. apply NoDup_fst_map_to_list.
  - intros e He. apply list_elem_of_lookup in He as [i Hi].
    destruct (Forall2_lookup_r _ _ _ _ _ HR Hi) as ([id p] & Hkv & Hp & Hid).
    cbn in Hp, Hid. apply list_elem_of_lookup_2, Hin in Hkv.
    unfold entry_at. rewrite Hid, Hkv. exact Hp.
  - intros id e He. unfold entry_at in He.
    destruct (keys w !! id) as [p|] eqn:Hk; [|done]. cbn in He.
    destruct (Hwf id p Hk) as (e' & He' & Hid). rewrite He in He'. injection He' as <-.
    split; [|exact Hid].
    apply Hin, list_elem_of_lookup in Hk as [i Hi].
    destruct (Forall2_lookup_l _ _ _ _ _ HR Hi) as (e' & Hi' & Hp & _).
    cbn in Hp. rewrite He in Hp. injection Hp as <-.
    by apply list_elem_of_lookup_2 in Hi'.
Qed.

Lemma PersistentStore_save_Done (path : string) (w : World) :
  store_wf w -> serializable key_valid json_faithful w ->
  exists (w1 : World) (data : bytes),
    PersistentStore_save path w = Done None w1
    /\ files w1 !! path = Some data
    /\ heap w1 = heap w /\ keys w1 = keys w
    /\ saved_file (entry_at w) data.
Proof.
  intros Hwf [Hvalid Hfaithful].
  set (kvs := map_range (rng w) (map_to_list (keys w))).
  destruct (store_wf_entries w kvs Hwf (map_range_Permutation _ _))
    as (es & HF & Hnd & Hes & Hview).
  set (w' := set_rng S w).
  assert (Hv : Forall (fun e => key_valid (PrivateKey e)) es).
  { apply list.Forall_forall. intros e He. eapply Hvalid, Hes, He. }
  destruct (PersistentStore_save_loop_Done kvs es [] w' HF Hv) as (pks & Eloop & Hsaved).
  cbn [app] in Eloop.
  assert (Hjson : Forall json_faithful pks).
  { eapply Forall2_Forall_r; [exact Hsaved|]. apply list.Forall_forall.
    intros e He pk (Hm & _ & ->). eapply Hfaithful; [by apply Hes|exact Hm]. }
  destruct (json_round_trip pks Hjson) as (data & Hmarshal & Hunmarshal).
  eexists _, data. split; [|split; [|split; [|split]]].
  - unfold PersistentStore_save.
    rewrite (bind_Done (gets keys) _ w w (keys w) eq_refl).
    rewrite (bind_Done (range (keys w)) _ w w' kvs eq_refl).
    rewrite (bind_Done _ _ _ _ _ Eloop), Hmarshal.
    unfold os_WriteFile, os_Rename, gets, modify, mbind, Go_bind, mret, Go_ret.
    cbn [files set_files]. rewrite lookup_insert_eq. reflexivity.
  - cbn [files set_files]. apply lookup_insert_eq.
  - reflexivity.
  - reflexivity.
  - by exists es, pks.
Qed.

Lemma NewPersistentStore_Done (path : string) (m : string -> option KeyEntry)
    (data : bytes) (w0 : World) :
  saved_file m data -> files w0 !! path = Some data ->
  exists w2 : World,
    NewPersistentStore path w0 = Done None w2
    /\ files w2 = files w0
    /\ forall id, entry_at w2 id = m id.
Proof.
  intros (es & pks & Hunmarshal & Hsaved & Hnd & Hes & Hview) Hfile.
  unfold NewPersistentStore.
  set (w0' := set_keys (fun _ => ∅) w0).
  rewrite (bind_Done NewMemoryStore _ w0 w0' tt eq_refl).
  rewrite (bind_Done (os_MkdirAll _) _ w0' w0' None eq_refl).
  assert (Hfile' : files w0' !! path = Some data) by exact Hfile.
  rewrite (bind_Done _ _ _ _ _ (os_Stat_found _ _ _ Hfile')).
  assert (Hv0 : ptrs_valid w0') by (intros id p Hk; cbn in Hk; by rewrite lookup_empty in Hk).
  destruct (PersistentStore_load_loop_Done pks es w0' Hsaved Hv0)
    as (w2 & Eload & _ & Hfiles & Hview2).
  assert (El : PersistentStore_load path w0' = Done None w2).
  { unfold PersistentStore_load.
    rewrite (bind_Done _ _ _ _ _ (os_ReadFile_found _ _ _ Hfile')).
    by rewrite Hunmarshal. }
  rewrite (bind_Done _ _ _ _ _ El). exists w2. split; [reflexivity|].
  split; [exact Hfiles|].
  intros id. rewrite <- (view_lookup w2), Hview2.
  replace (view w0') with (∅ : gmap string KeyEntry)
    by (unfold view, w0'; cbn; by rewrite omap_empty).
  destruct (m id) as [e|] eqn:He.
  - destruct (Hview id e He) as [Hin <-]. by apply foldl_insert_lookup.
  - rewrite foldl_insert_lookup_ne; [apply lookup_empty|].
    intros Hin. apply list_elem_of_fmap in Hin as (e & -> & Hin).
    rewrite (Hes e Hin) in He. discriminate.
Qed.


(** X12.  Crash recovery: once [Put] on the persistent store has returned, a
    process restarted on the same path finds the entry just stored, and
    every entry stored before it as it was. *)
Theorem PersistentStore_Put_survives_restart (path : string) (w : World) (p : loc)
    (e : KeyEntry) :
  store_wf w ->
  serializable key_valid json_faithful w ->
  heap w !! p = Some e ->
  keys w !! ID e = None ->
  key_valid (PrivateKey e) ->
  (forall der, x509_MarshalPKCS8PrivateKey (PrivateKey e) = Some der ->
               json_faithful (persisted e der)) ->
  exists w1 : World,
    PersistentStore_Put path p w = Done None w1
    /\ entry_at w1 (ID e) = Some e
    /\ exists w2 : World,
         NewPersistentStore path (restart w1) = Done None w2
         /\ entry_at w2 (ID e) = Some e
         /\ forall id, id <> ID e -> entry_at w2 id = entry_at w id.
Proof.
  intros Hwf [Hvalid Hfaithful] Hp Hk Hve Hfe.
  set (w' := set_keys <[ID e := p]> w).
  assert (HP : MemoryStore_Put p w = Done None w') by (by apply MemoryStore_Put_fresh).
  assert (Hwf' : store_wf w') by (by apply (MemoryStore_Put_store_wf p None w w')).
  assert (Hnew : entry_at w' (ID e) = Some e).
  { unfold entry_at. cbn. rewrite lookup_insert_eq. exact Hp. }
  assert (Hold : forall id, id <> ID e -> entry_at w' id = entry_at w id).
  { intros id Hne. unfold entry_at. cbn. by rewrite lookup_insert_ne. }
  assert (Hser : serializable key_valid json_faithful w').
  { split.
    - intros id e0 He0. destruct (decide (id = ID e)) as [->|Hne].
      + rewrite Hnew in He0. by injection He0 as <-.
      + rewrite Hold in He0 by done. by eapply Hvalid.
    - intros id e0 der He0 Hm. destruct (decide (id = ID e)) as [->|Hne].
      + rewrite Hnew in He0. injection He0 as <-. by apply Hfe.
      + rewrite Hold in He0 by done. by eapply Hfaithful. }
  destruct (PersistentStore_save_Done path w' Hwf' Hser)
    as (w1 & data & Hsave & Hfile & Hheap & Hkeys & Himage).
  assert (Hsame : forall id, entry_at w1 id = entry_at w' id).
  { intros id. unfold entry_at. by rewrite Hheap, Hkeys. }
  exists w1. split; [|split].
  - unfold PersistentStore_Put. by rewrite (bind_Done _ _ _ _ _ HP).
  - by rewrite Hsame.
  - destruct (NewPersistentStore_Done path _ data (restart w1) Himage Hfile)
      as (w2 & Hopen & _ & Hw2).
    exists w2. split; [exact Hopen|]. split.
    + by rewrite Hw2.
    + intros id Hne. by rewrite Hw2, Hold.
Qed.


End persistence.

(* ===================================================================== *)
(** * Properties of the other operations *)
(* ===================================================================== *)

(* ------------------------------------------------------------------- *)
(** ** ListKeys and GetPublicKey *)
(* ------------------------------------------------------------------- *)

Lemma entryToProto_of (p : loc) (e : KeyEntry) (w : World) :
  heap w !! p = Some e -> entryToProto p w = Done (KeyMetadata_of e) w.
Proof.
  intros Hp. unfold entryToProto, KeyMetadata_of, load, mbind, Go_bind, mret, Go_ret.
  rewrite Hp. by destruct (Time_IsZero (RotatedAt e)).
Qed.

Lemma ListKeys_loop_Done (filter : KeyStatus) (kvs : list (string * loc))
    (es : list KeyEntry) (keys : list KeyMetadata) (w : World) :
  Forall2 (fun kv e => heap w !! kv.2 = Some e) kvs es ->
  ListKeys_loop (List.filter (List_selects filter w) kvs.*2) keys w
  = Done (keys ++ (KeyMetadata_of <$> List.filter (List_matches filter) es)) w.
Proof.
  intros HF. revert keys. induction HF as [|[id p] e kvs es Hp HF IH]; intros keys.
  - cbn. by rewrite app_nil_r.
  - cbn [fmap list_fmap List.filter snd]. cbn in Hp.
    unfold List_selects at 1. rewrite Hp. fold (List_matches filter e).
    destruct (List_matches filter e).
    + cbn [ListKeys_loop fmap list_fmap].
      rewrite (bind_Done _ _ _ _ _ (entryToProto_of _ _ _ Hp)).
      rewrite IH, <- app_assoc. reflexivity.
    + apply IH.
Qed.

Lemma NoDup_fmap_List_filter {A B : Type} (f : A -> B) (P : A -> bool) (l : list A) :
  NoDup (f <$> l) -> NoDup (f <$> List.filter P l).
Proof.
  induction l as [|x l IH]; [done|]. cbn. intros Hnd.
  apply list.NoDup_cons in Hnd as [Hx Hnd]. destruct (P x); [|by apply IH].
  cbn. apply list.NoDup_cons. split; [|by apply IH].
  intros Hin. apply Hx. apply list_elem_of_fmap in Hin as (y & -> & Hy).
  apply list_elem_of_fmap. exists y. split; [done|].
  apply list_elem_of_In, filter_In in Hy as [Hy _]. by apply list_elem_of_In.
Qed.

Lemma statusFromProto_unknown (s : pb_KeyStatus) :
  s <> KEY_STATUS_ACTIVE -> s <> KEY_STATUS_ROTATED -> s <> KEY_STATUS_DEACTIVATED ->
  statusFromProto s = 0.
Proof.
  intros Ha Hr Hd. unfold statusFromProto.
  destruct (s =? KEY_STATUS_ACTIVE) eqn:E1; [by apply Z.eqb_eq in E1|].
  destruct (s =? KEY_STATUS_ROTATED) eqn:E2; [by apply Z.eqb_eq in E2|].
  destruct (s =? KEY_STATUS_DEACTIVATED) eqn:E3; [by apply Z.eqb_eq in E3|].
  reflexivity.
Qed.

Section enumeration.
Context `{Env} `{X509}.

Hypothesis map_range_Permutation :
  forall (s : nat) (l : list (string * loc)), map_range s l ≡ₚ l.

(** X13.  [ListKeys] returns the metadata of the stored entries, one per
    id: of exactly those whose status is the filter when the filter is
    ACTIVE, ROTATED or DEACTIVATED, and of every stored entry for any
    other filter value, unspecified or unknown; it changes nothing in the
    store. *)
Theorem ListKeys_filters (filter : pb_KeyStatus) (w : World) :
  store_wf w ->
  exists (es : list KeyEntry) (w' : World),
    ListKeys MemoryStore filter w = Done (Ok {| Keys := KeyMetadata_of <$> es |}) w'
    /\ same_store w w'
    /\ NoDup (ID <$> es)
    /\ (forall e : KeyEntry,
          e ∈ es <-> entry_at w (ID e) = Some e
                     /\ (statusFromProto filter = 0 \/ Status e = statusFromProto filter))
    /\ ((filter = KEY_STATUS_ACTIVE \/ filter = KEY_STATUS_ROTATED
         \/ filter = KEY_STATUS_DEACTIVATED) ->
        forall e, e ∈ es -> statusToProto (Status e) = filter)
    /\ (filter <> KEY_STATUS_ACTIVE -> filter <> KEY_STATUS_ROTATED ->
        filter <> KEY_STATUS_DEACTIVATED ->
        forall id e, entry_at w id = Some e -> e ∈ es).
Proof.
  intros Hwf.
  set (kvs := map_range (rng w) (map_to_list (keys w))).
  set (w' := set_rng S w).
  destruct (store_wf_entries w kvs Hwf (map_range_Permutation _ _))
    as (es0 & HF & Hnd & Hes & Hview).
  assert (HF' : Forall2 (fun kv e => heap w' !! kv.2 = Some e) kvs es0) by exact HF.
  assert (Hvalid : Forall (fun kv => is_Some (heap w' !! kv.2)) kvs).
  { eapply Forall2_Forall_l; [exact HF'|]. apply list.Forall_forall. intros e _ kv Hkv. eauto. }
  set (f := statusFromProto filter).
  assert (Hmem : forall e, e ∈ List.filter (List_matches f) es0
                           <-> entry_at w (ID e) = Some e /\ (f = 0 \/ Status e = f)).
  { intros e. rewrite list_elem_of_In, filter_In, <- list_elem_of_In.
    unfold List_matches. rewrite orb_true_iff, !Z.eqb_eq. split.
    - intros [Hin Hsel]. split; [by apply Hes|done].
    - intros [He Hsel]. split; [|done]. by destruct (Hview _ _ He). }
  exists (List.filter (List_matches f) es0), w'.
  split; [|split; [|split; [|split; [|split]]]].
  - assert (HL : MemoryStore_List f w
                 = Done (Ok (List.filter (List_selects f w') kvs.*2)) w').
    { unfold MemoryStore_List.
      rewrite (bind_Done (gets keys) _ w w (keys w) eq_refl).
      rewrite (bind_Done (range (keys w)) _ w w' kvs eq_refl).
      by rewrite (bind_Done _ _ _ _ _ (MemoryStore_List_loop_Done f kvs [] w' Hvalid)). }
    unfold ListKeys. cbn [Store_List MemoryStore]. fold f.
    rewrite (bind_Done _ _ _ _ _ HL).
    by rewrite (bind_Done _ _ _ _ _ (ListKeys_loop_Done f kvs es0 [] w' HF')).
  - by repeat split.
  - by apply NoDup_fmap_List_filter.
  - exact Hmem.
  - intros Hf e He. apply Hmem in He as [_ [Hz|Hs]].
    + unfold f in Hz. by destruct Hf as [->|[->| ->]].
    + unfold f in Hs. rewrite Hs. by destruct Hf as [->|[->| ->]].
  - intros Ha Hr Hd id e He. apply Hmem. destruct (Hview _ _ He) as [_ <-].
    split; [done|]. left. by apply statusFromProto_unknown.
Qed.

End enumeration.

Section publickey.
Context `{Env} `{ECDSA} `{X509}.

(** X14.  [GetPublicKey] answers for a stored key in any status with the
    SubjectPublicKeyInfo encoding of its public key and its algorithm,
    and changes nothing, the audit queue included; the answer is the same
    after the key has been deactivated; an absent id is not found. *)
Theorem GetPublicKey_any_status (w : World) (id : string) :
  (keys w !! id = None ->
     GetPublicKey MemoryStore id w = Done (Err (status_Error NotFound "key not found")) w)
  /\ (forall (p : loc) (e : KeyEntry) (der : bytes),
        keys w !! id = Some p -> heap w !! p = Some e ->
        x509_MarshalPKIXPublicKey (PublicKey (PrivateKey e)) = Some der ->
        let resp := {| GetPublicKey_KeyId := ID e; GetPublicKey_PublicKeyDer := der;
                       GetPublicKey_Algorithm := algoToProto (Algorithm e) |} in
        GetPublicKey MemoryStore id w = Done (Ok resp) w
        /\ exists (w' : World) (meta : KeyMetadata),
             DeactivateKey MemoryStore id w
             = Done (Ok {| Deactivate_Metadata := meta |}) w'
             /\ GetPublicKey MemoryStore id w' = Done (Ok resp) w').
Proof.
  assert (Hget : forall (w0 : World) (p : loc) (e : KeyEntry) (der : bytes),
             keys w0 !! id = Some p -> heap w0 !! p = Some e ->
             x509_MarshalPKIXPublicKey (PublicKey (PrivateKey e)) = Some der ->
             GetPublicKey MemoryStore id w0
             = Done (Ok {| GetPublicKey_KeyId := ID e; GetPublicKey_PublicKeyDer := der;
                           GetPublicKey_Algorithm := algoToProto (Algorithm e) |}) w0).
  { intros w0 p e der Hk Hp Hm. unfold GetPublicKey. cbn [Store_Get MemoryStore].
    rewrite (bind_Done _ _ _ _ _ (MemoryStore_Get_found _ _ _ Hk)).
    rewrite (bind_Done _ _ _ _ _ (load_Done _ _ _ Hp)).
    unfold MarshalPublicKey. by rewrite Hm. }
  split.
  - intros Hk. unfold GetPublicKey. cbn [Store_Get MemoryStore].
    by rewrite (bind_Done _ _ _ _ _ (MemoryStore_Get_missing _ _ Hk)).
  - intros p e der Hk Hp Hm resp. split; [by apply (Hget w p e der)|].
    destruct (DeactivateKey_found w id p e Hk Hp) as (w' & meta & HD & _ & _ & (Hh & Hk' & _)).
    exists w', meta. split; [exact HD|].
    apply (Hget w' p (KeyEntry_with_Status StatusDeactivated e) der).
    + by rewrite Hk'.
    + rewrite Hh. cbn. apply lookup_insert_eq.
    + exact Hm.
Qed.

End publickey.

(* ------------------------------------------------------------------- *)
(** ** Closing the audit logger *)
(* ------------------------------------------------------------------- *)

Lemma Logger_processLoop_Done (n : nat) (w : World) :
  (length (audit_entries w) <= n)%nat ->
  Logger_processLoop n w
  = Done tt (set_audit_store (fun st => st ++ audit_entries w)
               (set_audit_entries (fun _ => []) w)).
Proof.
  revert w. induction n as [|n IH]; intros w Hn.
  - destruct w as [h k fs q c st subs r t]. cbn in Hn |- *.
    destruct q; [|cbn in Hn; lia]. unfold mret, Go_ret, set_audit_store, set_audit_entries.
    cbn. by rewrite app_nil_r.
  - destruct w as [h k fs q c st subs r t]. cbn [Logger_processLoop].
    destruct q as [|e q].
    + unfold Logger_processLoop_step, gets, mbind, Go_bind, mret, Go_ret,
        set_audit_store, set_audit_entries. cbn. by rewrite app_nil_r.
    + unfold Logger_processLoop_step at 1, gets, modify, mbind at 1 2 3 4, Go_bind at 1 2 3 4,
        mret, Go_ret. cbn [audit_entries].
      unfold set_audit_store at 1, set_audit_entries at 1. cbn.
      rewrite IH by (cbn in Hn |- *; lia).
      unfold set_audit_store, set_audit_entries. cbn. by rewrite <- app_assoc.
Qed.

Lemma Logger_Close_run (w : World) :
  exists w',
    Logger_Close w = Done tt w'
    /\ audit_entries w' = []
    /\ audit_store w' = audit_store w ++ audit_entries w
    /\ same_store w w'.
Proof.
  eexists. split.
  - unfold Logger_Close. rewrite (bind_Done (gets audit_entries) _ w w _ eq_refl).
    by apply Logger_processLoop_Done.
  - by repeat split.
Qed.

(** X15.  [Close] drains the queue: every queued entry is retained,
    behind the records already retained and in the order it was queued,
    and the queue is left empty; on an empty queue nothing changes; the
    key store is untouched. *)
Theorem Logger_Close_retains_queue (w : World) :
  exists w',
    Logger_Close w = Done tt w'
    /\ audit_entries w' = []
    /\ audit_store w' = audit_store w ++ audit_entries w
    /\ (audit_entries w = [] -> w' = w)
    /\ same_store w w'.
Proof.
  destruct (Logger_Close_run w) as (w' & HC & Hq & Hst & F).
  exists w'. split; [exact HC|]. split; [exact Hq|]. split; [exact Hst|].
  split; [|exact F].
  intros Hempty. rewrite Hempty, app_nil_r in Hst. clear -HC Hq Hst Hempty F.
  unfold Logger_Close, gets, mbind, Go_bind in HC. rewrite Hempty in HC. cbn in HC.
  by injection HC as <-.
Qed.

(* ------------------------------------------------------------------- *)
(** ** Signing: the audit trail and the life cycle *)
(* ------------------------------------------------------------------- *)

Lemma entry_at_Some (w : World) (id : string) (e : KeyEntry) :
  entry_at w id = Some e <-> exists p, keys w !! id = Some p /\ heap w !! p = Some e.
Proof.
  unfold entry_at. destruct (keys w !! id) as [p|]; cbn.
  - split; [by exists p|]. by intros (q & [= <-] & Hq).
  - split; [done|]. by intros (q & Hq & _).
Qed.

(** The newest retained record is the answer to a query of limit 1 that
    it matches. *)
Lemma Query_newest (store : list Entry) (e : Entry) (keyID operation : string) :
  Query_skips keyID operation 0 0 e = false ->
  Query (store ++ [e]) keyID operation 0 0 1 = [e].
Proof.
  intros Hm. unfold Query. rewrite Query_loop_visit by done.
  rewrite firstn_all, rev_app_distr. cbn [rev app Query_visit]. by rewrite Hm.
Qed.

Section signing.
Context `{Env} `{ECDSA} `{X509}.

Lemma Logger_Log_room (operation keyID status : string) (metadata : gmap string string)
    (w : World) :
  (length (audit_entries w) < audit_bufferSize w)%nat ->
  Logger_Log operation keyID status "" metadata w
  = Done tt (set_audit_entries (fun ch => ch ++ [logged operation keyID status metadata w])
               (set_ticks S (set_rng S w))).
Proof.
  intros Hroom.
  unfold Logger_Log, uuid_New, Now, gets, modify, mbind, Go_bind, mret, Go_ret. simpl.
  by rewrite (proj2 (Nat.ltb_lt _ _)) by exact Hroom.
Qed.

Lemma logged_matches (operation keyID status : string) (metadata : gmap string string)
    (w : World) :
  Query_skips keyID operation 0 0 (logged operation keyID status metadata w) = false.
Proof.
  unfold Query_skips, logged. cbn [Entry_KeyID Entry_Operation Entry_Timestamp].
  rewrite !String.eqb_refl. cbn. by rewrite !andb_false_r.
Qed.

Lemma Sign_Done (w : World) (id : string) (p : loc) (e : KeyEntry) (data sig : bytes) :
  keys w !! id = Some p ->
  heap w !! p = Some e ->
  Status e = StatusActive ->
  ecdsa_SignASN1 (rng w) (PrivateKey e) (sha256.Sum256 data) = Some sig ->
  Sign MemoryStore SoftwareHSM id data w
  = (Logger_Log "Sign" id "OK" "" ∅;;
     mret (Ok {| Signature := sig; Sign_KeyId := id |})) (set_rng S w).
Proof.
  intros Hk Hp Hst Hs. unfold Sign. cbn [Store_Get MemoryStore].
  rewrite (bind_Done _ _ _ _ _ (MemoryStore_Get_found _ _ _ Hk)).
  rewrite (bind_Done _ _ _ _ _ (field_Done Status _ _ _ Hp)).
  rewrite Hst. cbn [Z.eqb StatusActive Pos.eqb negb].
  rewrite (bind_Done _ _ _ _ _ (field_Done PrivateKey _ _ _ Hp)).
  cbn [Provider_Sign SoftwareHSM].
  assert (Es : SignECDSA (PrivateKey e) data w = Done (Ok sig) (set_rng S w))
    by (unfold SignECDSA; by rewrite Hs).
  by rewrite (bind_Done _ _ _ _ _ Es).
Qed.

Lemma Sign_failed (w : World) (id : string) (p : loc) (e : KeyEntry) (data : bytes) :
  keys w !! id = Some p ->
  heap w !! p = Some e ->
  Status e = StatusActive ->
  ecdsa_SignASN1 (rng w) (PrivateKey e) (sha256.Sum256 data) = None ->
  Sign MemoryStore SoftwareHSM id data w
  = (Logger_Log "Sign" id "ERROR" "" ∅;;
     mret (Err (status_Error Internal "sign: ecdsa sign: crypto/rand: read failed")))
      (set_rng S w).
Proof.
  intros Hk Hp Hst Hs. unfold Sign. cbn [Store_Get MemoryStore].
  rewrite (bind_Done _ _ _ _ _ (MemoryStore_Get_found _ _ _ Hk)).
  rewrite (bind_Done _ _ _ _ _ (field_Done Status _ _ _ Hp)).
  rewrite Hst. cbn [Z.eqb StatusActive Pos.eqb negb].
  rewrite (bind_Done _ _ _ _ _ (field_Done PrivateKey _ _ _ Hp)).
  cbn [Provider_Sign SoftwareHSM].
  assert (Es : SignECDSA (PrivateKey e) data w
               = Done (Err (Errorf "ecdsa sign: crypto/rand: read failed")) (set_rng S w))
    by (unfold SignECDSA; by rewrite Hs).
  by rewrite (bind_Done _ _ _ _ _ Es).
Qed.

Lemma Sign_not_ACTIVE (w : World) (id : string) (p : loc) (e : KeyEntry) (data : bytes) :
  keys w !! id = Some p ->
  heap w !! p = Some e ->
  Status e <> StatusActive ->
  Sign MemoryStore SoftwareHSM id data w
  = Done (Err (status_Error FailedPrecondition "key is not active")) w.
Proof.
  intros Hk Hp Hst. unfold Sign. cbn [Store_Get MemoryStore].
  rewrite (bind_Done _ _ _ _ _ (MemoryStore_Get_found _ _ _ Hk)).
  rewrite (bind_Done _ _ _ _ _ (field_Done Status _ _ _ Hp)).
  destruct (Status e =? StatusActive) eqn:E; [apply Z.eqb_eq in E; done|done].
Qed.

Lemma Verify_Done (w : World) (id : string) (p : loc) (e : KeyEntry) (data sig : bytes) :
  keys w !! id = Some p ->
  heap w !! p = Some e ->
  exists w',
    Verify MemoryStore SoftwareHSM id data sig w
    = Done (Ok {| Valid := VerifyECDSA (PublicKey (PrivateKey e)) data sig |}) w'
    /\ same_store w w'.
Proof.
  intros Hk Hp. unfold Verify. cbn [Store_Get MemoryStore].
  rewrite (bind_Done _ _ _ _ _ (MemoryStore_Get_found _ _ _ Hk)).
  rewrite (bind_Done _ _ _ _ _ (field_Done PrivateKey _ _ _ Hp)).
  destruct (Logger_Log_Done "Verify" id "OK" "" ∅ w) as (w3 & E3 & F3 & _).
  rewrite (bind_Done _ _ _ _ _ E3). by exists w3.
Qed.

(** X16.  Every signing attempt on an ACTIVE key leaves an audit record
    when the audit buffer has room: once the logger has been closed, the
    newest record of the key's "Sign" operations carries the key id, the
    clock reading and the status OK when a signature was returned, ERROR
    when signing failed; the records retained or queued before are all
    kept in front of it. *)
Theorem Sign_is_audited (w : World) (id : string) (p : loc) (e : KeyEntry) (data : bytes) :
  keys w !! id = Some p ->
  heap w !! p = Some e ->
  Status e = StatusActive ->
  (length (audit_entries w) < audit_bufferSize w)%nat ->
  exists (r : result Status_error SignResponse) (w1 w2 : World),
    Sign MemoryStore SoftwareHSM id data w = Done r w1
    /\ Logger_Close w1 = Done tt w2
    /\ let status := match r with Ok _ => "OK" | Err _ => "ERROR" end in
       let record := logged "Sign" id status ∅ (set_rng S w) in
       audit_store w2 = audit_store w ++ audit_entries w ++ [record]
       /\ Query (audit_store w2) id "Sign" 0 0 1 = [record]
       /\ match r with
          | Ok resp =>
              ecdsa_SignASN1 (rng w) (PrivateKey e) (sha256.Sum256 data)
              = Some (Signature resp)
          | Err err =>
              ecdsa_SignASN1 (rng w) (PrivateKey e) (sha256.Sum256 data) = None
              /\ code err = Internal
          end.
Proof.
  intros Hk Hp Hst Hroom.
  assert (Hroom' : (length (audit_entries (set_rng S w)) < audit_bufferSize (set_rng S w))%nat)
    by exact Hroom.
  destruct (ecdsa_SignASN1 (rng w) (PrivateKey e) (sha256.Sum256 data)) as [sig|] eqn:Hs.
  - pose proof (Sign_Done w id p e data sig Hk Hp Hst Hs) as HS.
    rewrite (bind_Done _ _ _ _ _ (Logger_Log_room "Sign" id "OK" ∅ _ Hroom')) in HS.
    set (w1 := set_audit_entries _ _) in HS.
    destruct (Logger_Close_run w1) as (w2 & HC & _ & Hstore & _).
    eexists (Ok _), w1, w2. split; [exact HS|]. split; [exact HC|].
    cbv zeta. rewrite Hstore. cbn [audit_store audit_entries set_audit_entries set_ticks
                                     set_rng w1].
    split; [reflexivity|]. split; [|reflexivity].
    rewrite !app_assoc. apply Query_newest, logged_matches.
  - pose proof (Sign_failed w id p e data Hk Hp Hst Hs) as HS.
    rewrite (bind_Done _ _ _ _ _ (Logger_Log_room "Sign" id "ERROR" ∅ _ Hroom')) in HS.
    set (w1 := set_audit_entries _ _) in HS.
    destruct (Logger_Close_run w1) as (w2 & HC & _ & Hstore & _).
    eexists (Err _), w1, w2. split; [exact HS|]. split; [exact HC|].
    cbv zeta. rewrite Hstore. cbn [audit_store audit_entries set_audit_entries set_ticks
                                     set_rng w1].
    split; [reflexivity|]. split; [|by split].
    rewrite !app_assoc. apply Query_newest, logged_matches.
Qed.

End signing.

Section signatures.
Context `{Env} `{ECDSA} `{X509}.

(** The contract of [crypto/ecdsa], for the keys that are [key_valid]:
    what [SignASN1] returns [VerifyASN1] accepts under the public key. *)
Variable key_valid : ecdsa_PrivateKey -> Prop.

Hypothesis sign_verify :
  forall (s : nat) (k : ecdsa_PrivateKey) (hash sig : bytes),
    key_valid k -> ecdsa_SignASN1 s k hash = Some sig ->
    ecdsa_VerifyASN1 (PublicKey k) hash sig = true.

(** X17.  What [Sign] returned for an ACTIVE key [Verify] accepts under
    the same key id, and still accepts after the key has been
    deactivated, when [Sign] under that key is refused. *)
Theorem Verify_accepts_Sign_across_deactivation (w : World) (id : string) (p : loc)
    (e : KeyEntry) (data sig : bytes) :
  keys w !! id = Some p ->
  heap w !! p = Some e ->
  Status e = StatusActive ->
  key_valid (PrivateKey e) ->
  ecdsa_SignASN1 (rng w) (PrivateKey e) (sha256.Sum256 data) = Some sig ->
  exists (w1 w2 w3 w4 : World) (meta : KeyMetadata),
    Sign MemoryStore SoftwareHSM id data w
    = Done (Ok {| Signature := sig; Sign_KeyId := id |}) w1
    /\ Verify MemoryStore SoftwareHSM id data sig w1 = Done (Ok {| Valid := true |}) w2
    /\ DeactivateKey MemoryStore id w2 = Done (Ok {| Deactivate_Metadata := meta |}) w3
    /\ Sign MemoryStore SoftwareHSM id data w3
       = Done (Err (status_Error FailedPrecondition "key is not active")) w3
    /\ Verify MemoryStore SoftwareHSM id data sig w3 = Done (Ok {| Valid := true |}) w4.
Proof.
  intros Hk Hp Hst Hv Hs.
  assert (Hvalid : VerifyECDSA (PublicKey (PrivateKey e)) data sig = true)
    by (unfold VerifyECDSA; by eapply sign_verify).
  pose proof (Sign_Done w id p e data sig Hk Hp Hst Hs) as HS.
  destruct (Logger_Log_Done "Sign" id "OK" "" ∅ (set_rng S w)) as (w1 & E1 & (Hh1 & Hk1 & _) & _).
  rewrite (bind_Done _ _ _ _ _ E1) in HS.
  assert (Hk1' : keys w1 !! id = Some p) by (by rewrite Hk1).
  assert (Hp1' : heap w1 !! p = Some e) by (by rewrite Hh1).
  destruct (Verify_Done w1 id p e data sig Hk1' Hp1') as (w2 & HV & (Hh2 & Hk2 & _)).
  rewrite Hvalid in HV.
  assert (Hk2' : keys w2 !! id = Some p) by (by rewrite Hk2).
  assert (Hp2' : heap w2 !! p = Some e) by (by rewrite Hh2).
  destruct (DeactivateKey_found w2 id p e Hk2' Hp2')
    as (w3 & meta & HX & _ & _ & (Hh3 & Hk3 & _)).
  set (e' := KeyEntry_with_Status StatusDeactivated e) in *.
  assert (Hk3' : keys w3 !! id = Some p) by (rewrite Hk3; exact Hk2').
  assert (Hp3' : heap w3 !! p = Some e') by (rewrite Hh3; cbn; apply lookup_insert_eq).
  destruct (Verify_Done w3 id p e' data sig Hk3' Hp3') as (w4 & HV' & _).
  cbn [PrivateKey e' KeyEntry_with_Status] in HV'. rewrite Hvalid in HV'.
  exists w1, w2, w3, w4, meta.
  split; [exact HS|]. split; [exact HV|]. split; [exact HX|].
  split; [|exact HV']. by apply (Sign_not_ACTIVE w3 id p e').
Qed.

End signatures.

(* ------------------------------------------------------------------- *)
(** ** Rotation and signing *)
(* ------------------------------------------------------------------- *)

Section rotation.
Context `{Env} `{ECDSA} `{X509} `{JSON}.

(** [RotateKey] on an ACTIVE key when the generated id is free: the
    entries under the old and the new id afterwards. *)
Lemma RotateKey_ACTIVE_Done (w : World) (id : string) (old : loc) (e : KeyEntry)
    (newKey : ecdsa_PrivateKey) :
  keys w !! id = Some old ->
  heap w !! old = Some e ->
  Status e = StatusActive ->
  ecdsa_GenerateKey (rotation_curve (Algorithm e)) (rng w) = Some newKey ->
  keys w !! uuid_NewString (S (rng w)) = None ->
  let newID := uuid_NewString (S (rng w)) in
  let newE := {| ID := newID; Algorithm := Algorithm e; Status := StatusActive;
                 PrivateKey := newKey; CreatedAt := time_Now (ticks w);
                 RotatedAt := 0; Labels := Labels e |} in
  let e2 := KeyEntry_with_RotatedAt (time_Now (S (ticks w)))
              (KeyEntry_with_Status StatusRotated e) in
  exists (w' : World) (p : loc),
    RotateKey MemoryStore SoftwareHSM id w
    = Done (Ok {| OldKey := KeyMetadata_of e2; NewKey := KeyMetadata_of newE |}) w'
    /\ keys w' !! id = Some old /\ heap w' !! old = Some e2
    /\ keys w' !! newID = Some p /\ heap w' !! p = Some newE.
Proof.
  intros Hk Hp Hst Hgen Hfresh newID newE e2.
  assert (Hne : newID <> id) by (intros Heq; unfold newID in Heq; congruence).
  destruct (RotateKey_ACTIVE_until_Put w id old e newKey Hk Hp Hst Hgen)
    as (p & w7 & Hpo & Hpf & Hh7 & Hk7 & ->).
  fold newID newE e2 in Hh7.
  assert (Ho7 : heap w7 !! old = Some e2) by (rewrite Hh7; apply lookup_insert_eq).
  assert (Hn7 : heap w7 !! p = Some newE).
  { rewrite Hh7, lookup_insert_ne by done. apply lookup_insert_eq. }
  assert (Hf7 : keys w7 !! ID newE = None) by (rewrite Hk7; exact Hfresh).
  rewrite (bind_Done _ _ _ _ _ (MemoryStore_Put_fresh _ _ _ Hn7 Hf7)).
  set (w8 := set_keys <[ID newE := p]> w7).
  assert (Ho8 : heap w8 !! old = Some e2) by exact Ho7.
  assert (Hn8 : heap w8 !! p = Some newE) by exact Hn7.
  rewrite (bind_Done _ _ _ _ _ (entryToProto_of _ _ _ Ho8)).
  rewrite (bind_Done _ _ _ _ _ (entryToProto_of _ _ _ Hn8)).
  destruct (broadcastEvent_Done KEY_EVENT_TYPE_ROTATED (KeyMetadata_of newE) w8)
    as (w9 & E9 & F9 & _).
  rewrite (bind_Done _ _ _ _ _ E9).
  assert (Hn9 : heap w9 !! p = Some newE) by (destruct F9 as (-> & _); exact Hn8).
  rewrite (bind_Done _ _ _ _ _ (field_Done ID _ _ _ Hn9)).
  destruct (Logger_Log_Done "RotateKey" id "OK" "" {[ "new_key_id" := ID newE ]} w9)
    as (w10 & E10 & F10 & _).
  rewrite (bind_Done _ _ _ _ _ E10).
  destruct (same_store_trans _ _ _ F9 F10) as (Hh & Hkk & _).
  exists w10, p. split; [reflexivity|]. rewrite Hh, Hkk. cbn [keys w8 set_keys].
  rewrite Hk7. cbn [ID newE].
  split; [by rewrite lookup_insert_ne|]. split; [exact Ho8|].
  split; [apply lookup_insert_eq|exact Hn8].
Qed.

(** X18.  After a rotation, the old key id no longer signs and cannot be
    rotated again, [Verify] under the old id still checks signatures
    against the old key, and the new key id signs. *)
Theorem RotateKey_then_Sign (w : World) (id : string) (old : loc) (e : KeyEntry)
    (newKey : ecdsa_PrivateKey) (data sig0 : bytes) :
  keys w !! id = Some old ->
  heap w !! old = Some e ->
  Status e = StatusActive ->
  ecdsa_GenerateKey (rotation_curve (Algorithm e)) (rng w) = Some newKey ->
  keys w !! uuid_NewString (S (rng w)) = None ->
  let newID := uuid_NewString (S (rng w)) in
  exists (w' : World) (resp : RotateKeyResponse),
    RotateKey MemoryStore SoftwareHSM id w = Done (Ok resp) w'
    /\ meta_KeyId (NewKey resp) = newID
    /\ Sign MemoryStore SoftwareHSM id data w'
       = Done (Err (status_Error FailedPrecondition "key is not active")) w'
    /\ RotateKey MemoryStore SoftwareHSM id w'
       = Done (Err (status_Error FailedPrecondition "can only rotate active keys")) w'
    /\ (exists w'',
          Verify MemoryStore SoftwareHSM id data sig0 w'
          = Done (Ok {| Valid := VerifyECDSA (PublicKey (PrivateKey e)) data sig0 |}) w'')
    /\ (forall sig : bytes,
          ecdsa_SignASN1 (rng w') newKey (sha256.Sum256 data) = Some sig ->
          exists w'',
            Sign MemoryStore SoftwareHSM newID data w'
            = Done (Ok {| Signature := sig; Sign_KeyId := newID |}) w'').
Proof.
  intros Hk Hp Hst Hgen Hfresh newID.
  destruct (RotateKey_ACTIVE_Done w id old e newKey Hk Hp Hst Hgen Hfresh)
    as (w' & p & HR & Hko & Hho & Hkn & Hhn).
  fold newID in Hkn, Hhn.
  eexists w', _. split; [exact HR|]. split; [reflexivity|].
  split; [by apply (Sign_not_ACTIVE w' id old _ data Hko Hho)|]. split; [|split].
  - unfold RotateKey. cbn [Store_Get MemoryStore].
    rewrite (bind_Done _ _ _ _ _ (MemoryStore_Get_found _ _ _ Hko)).
    by rewrite (bind_Done _ _ _ _ _ (field_Done Status _ _ _ Hho)).
  - destruct (Verify_Done w' id old _ data sig0 Hko Hho) as (w'' & HV & _).
    by exists w''.
  - intros sig Hs.
    pose proof (Sign_Done w' newID p _ data sig Hkn Hhn eq_refl Hs) as HS.
    destruct (Logger_Log_Done "Sign" newID "OK" "" ∅ (set_rng S w')) as (w'' & E & _).
    rewrite (bind_Done _ _ _ _ _ E) in HS. by exists w''.
Qed.

End rotation.

(* ------------------------------------------------------------------- *)
(** ** Derived keys and the encryption key *)
(* ------------------------------------------------------------------- *)

Section derived.
Context `{Env} `{X509}.

Lemma EncryptionServer_DeriveKey_Done (w : World) (id : string) (p : loc) (e : KeyEntry)
    (root context : bytes) (length_ : Z) :
  keys w !! id = Some p ->
  heap w !! p = Some e ->
  Status e = StatusActive ->
  1 <= length_ <= 64 ->
  x509_MarshalPKCS8PrivateKey (PrivateKey e) = Some root ->
  exists w',
    EncryptionServer_DeriveKey MemoryStore id context length_ w
    = Done (Ok {| DerivedKey := HKDF_SHA256 root [] context (Z.to_nat length_) |}) w'
    /\ same_store w w'.
Proof.
  intros Hk Hp Hst Hl Hm. unfold EncryptionServer_DeriveKey. cbn [Store_Get MemoryStore].
  rewrite (bind_Done _ _ _ _ _ (MemoryStore_Get_found _ _ _ Hk)).
  rewrite (bind_Done _ _ _ _ _ (field_Done Status _ _ _ Hp)).
  rewrite Hst. cbn [Z.eqb StatusActive Pos.eqb negb].
  replace (length_ <=? 0) with false by (symmetry; apply Z.leb_gt; lia).
  replace (64 <? length_) with false by (symmetry; apply Z.ltb_ge; lia).
  cbn [orb].
  rewrite (bind_Done _ _ _ _ _ (field_Done PrivateKey _ _ _ Hp)).
  unfold MarshalPrivateKey. rewrite Hm, DeriveKey_in_range by done.
  destruct (Logger_Log_Done "DeriveKey" id "OK" "" ∅ w) as (w3 & E3 & F3 & _).
  rewrite (bind_Done _ _ _ _ _ E3). by exists w3.
Qed.

(** X19.  The [DeriveKey] operation with the context "vault-aes-gcm" and
    the length 32 returns the very key under which [Encrypt] seals for
    that key id: with it, what [Encrypt] returned is decrypted by
    [DecryptAESGCM] outside the service. *)
Theorem DeriveKey_returns_the_encryption_key (w : World) (id : string) (p : loc)
    (e : KeyEntry) (der plaintext aad : bytes) :
  keys w !! id = Some p ->
  heap w !! p = Some e ->
  Status e = StatusActive ->
  x509_MarshalPKCS8PrivateKey (PrivateKey e) = Some der ->
  rand_fails (rng w) = false ->
  exists (ct : bytes) (w1 : World) (key : bytes) (w2 : World),
    Encrypt MemoryStore id plaintext aad w
    = Done (Ok {| Ciphertext := ct; Encrypt_KeyId := id |}) w1
    /\ EncryptionServer_DeriveKey MemoryStore id (bytes_of_string "vault-aes-gcm") 32 w1
       = Done (Ok {| DerivedKey := key |}) w2
    /\ DecryptAESGCM key ct aad = Ok plaintext.
Proof.
  intros Hk Hp Hst Hm Hr.
  destruct (Encrypt_Done w id p e der plaintext aad Hk Hp Hst Hm Hr)
    as (ct & w1 & HE & (Hh1 & Hk1 & _) & HD).
  assert (Hk1' : keys w1 !! id = Some p) by (by rewrite Hk1).
  assert (Hp1' : heap w1 !! p = Some e) by (by rewrite Hh1).
  destruct (EncryptionServer_DeriveKey_Done w1 id p e der (bytes_of_string "vault-aes-gcm")
              32 Hk1' Hp1' Hst ltac:(lia) Hm) as (w2 & HK & _).
  exists ct, w1, (HKDF_SHA256 der [] (bytes_of_string "vault-aes-gcm") 32), w2.
  split; [exact HE|]. split; [exact HK|]. exact HD.
Qed.

End derived.

(* ------------------------------------------------------------------- *)
(** ** BatchSign and StreamSign *)
(* ------------------------------------------------------------------- *)

Lemma same_but_rng_refl (w : World) : same_but_rng w w.
Proof. by destruct w. Qed.

Lemma same_but_rng_set_rng (f : nat -> nat) (w : World) : same_but_rng w (set_rng f w).
Proof. reflexivity. Qed.

Lemma same_but_rng_trans (w1 w2 w3 : World) :
  same_but_rng w1 w2 -> same_but_rng w2 w3 -> same_but_rng w1 w3.
Proof. unfold same_but_rng. intros H12 H23. rewrite H23, H12. reflexivity. Qed.

Lemma same_but_rng_same_store (w w' : World) : same_but_rng w w' -> same_store w w'.
Proof. intros ->. by repeat split. Qed.

Lemma same_but_rng_entry_at (w w' : World) (id : string) :
  same_but_rng w w' -> entry_at w' id = entry_at w id.
Proof. intros Hs. by apply same_store_entry_at, same_but_rng_same_store. Qed.

(** The tasks of [BatchSign]: one per datum, with its index. *)
Lemma BatchSign_tasks_indices (Data : list bytes) :
  (imap (fun i data => (i, data)) Data).*1 = seq 0 (length Data).
Proof.
  rewrite fmap_imap.
  rewrite (imap_ext _ (fun j _ => j) Data) by done.
  rewrite (imap_seq_0 Data (fun j => j)). apply list_fmap_id.
Qed.

Lemma BatchSign_tasks_elem_of (Data : list bytes) (i : nat) (data : bytes) :
  (i, data) ∈ imap (fun i data => (i, data)) Data <-> Data !! i = Some data.
Proof.
  rewrite elem_of_lookup_imap. split.
  - by intros (j & y & [= -> ->] & Hy).
  - intros Hi. by exists i, data.
Qed.

Section batches.
Context `{Env} `{ECDSA} `{X509} `{Scheduler}.

Lemma SignECDSA_signed_by (key : ecdsa_PrivateKey) (data : bytes) (w : World) :
  exists r : result error bytes,
    SignECDSA key data w = Done r (set_rng S w)
    /\ signed_by key data
         (match r with Ok sig => sig | Err _ => [] end)
         (match r with Ok _ => "" | Err err => error_Error err end).
Proof.
  unfold SignECDSA.
  destruct (ecdsa_SignASN1 (rng w) key (sha256.Sum256 data)) as [sig|] eqn:Hs.
  - exists (Ok sig). split; [done|]. left. by exists (rng w).
  - eexists (Err _). split; [done|]. right. by exists (rng w).
Qed.

Lemma BatchSign_worker_Done (entry : loc) (e : KeyEntry) (i : nat) (data : bytes)
    (results : list (option SignResult)) (w : World) :
  heap w !! entry = Some e ->
  exists res : SignResult,
    BatchSign_worker SoftwareHSM entry i data results w
    = Done (<[i := Some res]> results) (set_rng S w)
    /\ signed_by (PrivateKey e) data (SignResult_Signature res) (SignResult_Error res).
Proof.
  intros He. unfold BatchSign_worker.
  rewrite (bind_Done _ _ _ _ _ (field_Done PrivateKey _ _ _ He)).
  cbn [Provider_Sign SoftwareHSM].
  destruct (SignECDSA_signed_by (PrivateKey e) data w) as ([sig|err] & ES & Hsigned);
    rewrite (bind_Done _ _ _ _ _ ES); eexists; (split; [reflexivity|]); exact Hsigned.
Qed.

Lemma BatchSign_run_Done (entry : loc) (e : KeyEntry) (tasks : list (nat * bytes))
    (results : list (option SignResult)) (w : World) :
  heap w !! entry = Some e ->
  NoDup tasks.*1 ->
  (forall i data, (i, data) ∈ tasks -> (i < length results)%nat) ->
  exists (results' : list (option SignResult)) (w' : World),
    BatchSign_run SoftwareHSM entry tasks results w = Done results' w'
    /\ same_but_rng w w'
    /\ length results' = length results
    /\ (forall i, i ∉ tasks.*1 -> results' !! i = results !! i)
    /\ (forall i data,
          (i, data) ∈ tasks ->
          exists res, results' !! i = Some (Some res)
                      /\ signed_by (PrivateKey e) data
                           (SignResult_Signature res) (SignResult_Error res)).
Proof.
  intros He. revert results w He.
  induction tasks as [|[i data] tasks IH]; intros results w He Hnd Hlt.
  - exists results, w. split; [reflexivity|]. split; [apply same_but_rng_refl|].
    split; [done|]. split; [done|]. intros i data Hin. by apply elem_of_nil in Hin.
  - cbn in Hnd. apply list.NoDup_cons in Hnd as [Hi Hnd].
    destruct (BatchSign_worker_Done entry e i data results w He) as (res & EW & Hres).
    cbn [BatchSign_run]. rewrite (bind_Done _ _ _ _ _ EW).
    destruct (IH (<[i := Some res]> results) (set_rng S w) He Hnd)
      as (results' & w' & ER & Hw & Hlen & Hframe & Hdone).
    { intros j d Hin. rewrite length_insert. apply (Hlt j d). by right. }
    exists results', w'. split; [exact ER|].
    split; [by apply (same_but_rng_trans _ (set_rng S w))|].
    split; [by rewrite Hlen, length_insert|]. split.
    + intros j Hj. cbn in Hj. apply not_elem_of_cons in Hj as [Hne Hj].
      rewrite Hframe by done. by apply list_lookup_insert_ne.
    + intros j d Hin. apply elem_of_cons in Hin as [[= -> ->]|Hin]; [|by apply Hdone].
      exists res. split; [|exact Hres].
      rewrite Hframe by done. apply list_lookup_insert_eq. apply (Hlt i data). by left.
Qed.

Hypothesis go_order_Permutation :
  forall (s : nat) (l : list (nat * bytes)), go_order s l ≡ₚ l.

(** X20.  [BatchSign] under an ACTIVE key returns one result per datum,
    at the index of the datum, whatever the order in which the scheduler
    runs its goroutines: a signature of that datum under the key, or the
    text of the signing error, which does not fail the batch; it queues
    one audit record, with the status OK, for the whole batch when the
    audit buffer has room, and leaves the key store as it was.  Under a
    key that is not ACTIVE it is refused, and an absent id is not found,
    with no change. *)
Theorem BatchSign_one_result_per_item (w : World) (id : string) (Data : list bytes) :
  (keys w !! id = None ->
     BatchSign MemoryStore SoftwareHSM id Data w
     = Done (Err (status_Error NotFound "key not found")) w)
  /\ (forall (p : loc) (e : KeyEntry),
        keys w !! id = Some p -> heap w !! p = Some e ->
        (Status e <> StatusActive ->
           BatchSign MemoryStore SoftwareHSM id Data w
           = Done (Err (status_Error FailedPrecondition "key is not active")) w)
        /\ (Status e = StatusActive ->
            exists (results : list (option SignResult)) (w1 w' : World),
              BatchSign MemoryStore SoftwareHSM id Data w
              = Done (Ok {| Results := results |}) w'
              /\ length results = length Data
              /\ (forall i data,
                    Data !! i = Some data ->
                    exists res,
                      results !! i = Some (Some res)
                      /\ signed_by (PrivateKey e) data
                           (SignResult_Signature res) (SignResult_Error res))
              /\ same_store w w'
              /\ audit_store w' = audit_store w
              /\ same_but_rng w w1
              /\ ((length (audit_entries w) < audit_bufferSize w)%nat ->
                  audit_entries w'
                  = audit_entries w ++ [logged "BatchSign" id "OK" ∅ w1]))).
Proof.
  split.
  - intros Hk. unfold BatchSign. cbn [Store_Get MemoryStore].
    by rewrite (bind_Done _ _ _ _ _ (MemoryStore_Get_missing _ _ Hk)).
  - intros p e Hk Hp. split.
    + intros Hst. unfold BatchSign. cbn [Store_Get MemoryStore].
      rewrite (bind_Done _ _ _ _ _ (MemoryStore_Get_found _ _ _ Hk)).
      rewrite (bind_Done _ _ _ _ _ (field_Done Status _ _ _ Hp)).
      destruct (Status e =? StatusActive) eqn:E; [apply Z.eqb_eq in E; done|done].
    + intros Hst. unfold BatchSign. cbn [Store_Get MemoryStore].
      rewrite (bind_Done _ _ _ _ _ (MemoryStore_Get_found _ _ _ Hk)).
      rewrite (bind_Done _ _ _ _ _ (field_Done Status _ _ _ Hp)).
      rewrite Hst. cbn [Z.eqb StatusActive Pos.eqb negb].
      set (all := imap (fun i data => (i, data)) Data).
      set (tasks := go_order (rng w) all).
      rewrite (bind_Done _ _ w (set_rng S w) tasks eq_refl).
      assert (Hperm : tasks ≡ₚ all) by apply go_order_Permutation.
      assert (Hp0 : heap (set_rng S w) !! p = Some e) by exact Hp.
      destruct (BatchSign_run_Done p e tasks (replicate (length Data) None) (set_rng S w) Hp0)
        as (results & w1 & ER & Hw1 & Hlen & _ & Hdone).
      { rewrite Hperm. unfold all. rewrite BatchSign_tasks_indices. apply NoDup_seq. }
      { intros i data Hin. rewrite Hperm in Hin. apply BatchSign_tasks_elem_of in Hin.
        rewrite length_replicate. by apply lookup_lt_Some in Hin. }
      rewrite (bind_Done _ _ _ _ _ ER).
      assert (Hw01 : same_but_rng w w1)
        by (eapply same_but_rng_trans; [apply (same_but_rng_set_rng S)|exact Hw1]).
      destruct (Logger_Log_Done "BatchSign" id "OK" "" ∅ w1) as (w' & EL & FL & HLs).
      rewrite (bind_Done _ _ _ _ _ EL).
      exists results, w1, w'. split; [reflexivity|].
      split; [by rewrite Hlen, length_replicate|]. split; [|split; [|split; [|split]]].
      * intros i data Hi. apply (Hdone i data). rewrite Hperm.
        by apply BatchSign_tasks_elem_of.
      * eapply same_store_trans; [by apply same_but_rng_same_store|exact FL].
      * rewrite HLs. by rewrite Hw01.
      * exact Hw01.
      * intros Hroom.
        assert (Hroom1 : (length (audit_entries w1) < audit_bufferSize w1)%nat)
          by (by rewrite Hw01).
        rewrite (Logger_Log_room "BatchSign" id "OK" ∅ w1 Hroom1) in EL.
        injection EL as <-. cbn [audit_entries set_audit_entries set_ticks set_rng].
        by rewrite Hw01.
Qed.

End batches.

Section streaming.
Context `{Env} `{ECDSA} `{X509}.

(** One request of [StreamSign]: the answer, and the [Send] of it. *)
Lemma StreamSign_step (stream : SignStream) (req : StreamSignRequest)
    (recv : list (result error StreamSignRequest)) (sent : list StreamSignResponse)
    (w : World) :
  ptrs_valid w ->
  exists (resp : StreamSignResponse) (w1 : World),
    same_but_rng w w1
    /\ StreamSign_answer w req resp
    /\ StreamSign_loop MemoryStore SoftwareHSM stream (Ok req :: recv) sent w
       = StreamSign_send stream resp sent
           (StreamSign_loop MemoryStore SoftwareHSM stream recv) w1.
Proof.
  intros Hv. cbn [StreamSign_loop Store_Get MemoryStore]. unfold StreamSign_answer, entry_at.
  destruct (keys w !! StreamSign_KeyId req) as [p|] eqn:Hk.
  - destruct (Hv _ _ Hk) as [e Hp]. cbn. rewrite Hp.
    rewrite (bind_Done _ _ _ _ _ (MemoryStore_Get_found _ _ _ Hk)).
    rewrite (bind_Done _ _ _ _ _ (field_Done Status _ _ _ Hp)).
    destruct (Status e =? StatusActive) eqn:Hst; cbn [negb].
    + rewrite (bind_Done _ _ _ _ _ (field_Done PrivateKey _ _ _ Hp)).
      cbn [Provider_Sign SoftwareHSM].
      destruct (SignECDSA_signed_by (PrivateKey e) (StreamSign_Data req) w)
        as ([sig|err] & ES & Hsigned); rewrite (bind_Done _ _ _ _ _ ES);
        eexists _, (set_rng S w); (split; [apply same_but_rng_set_rng|]);
        (split; [|reflexivity]); exact Hsigned.
    + eexists _, w. split; [apply same_but_rng_refl|]. by split.
  - cbn. rewrite (bind_Done _ _ _ _ _ (MemoryStore_Get_missing _ _ Hk)).
    eexists _, w. split; [apply same_but_rng_refl|]. by split.
Qed.

Lemma StreamSign_answer_same (w w' : World) (req : StreamSignRequest)
    (resp : StreamSignResponse) :
  same_but_rng w w' -> StreamSign_answer w' req resp -> StreamSign_answer w req resp.
Proof.
  intros Hw. unfold StreamSign_answer. by rewrite (same_but_rng_entry_at w w').
Qed.

Lemma same_but_rng_ptrs_valid (w w' : World) :
  same_but_rng w w' -> ptrs_valid w -> ptrs_valid w'.
Proof. intros -> Hv. exact Hv. Qed.

(** The requests that are received and answered while [Send] works. *)
Lemma StreamSign_loop_answers (stream : SignStream) (reqs : list StreamSignRequest)
    (tail : list (result error StreamSignRequest)) (sent : list StreamSignResponse)
    (w : World) :
  ptrs_valid w ->
  (forall n, (length sent <= n < length sent + length reqs)%nat ->
             stream_Send stream n = None) ->
  exists (answers : list StreamSignResponse) (w' : World),
    same_but_rng w w'
    /\ Forall2 (StreamSign_answer w) reqs answers
    /\ StreamSign_loop MemoryStore SoftwareHSM stream ((Ok <$> reqs) ++ tail) sent w
       = StreamSign_loop MemoryStore SoftwareHSM stream tail (sent ++ answers) w'.
Proof.
  revert sent w. induction reqs as [|req reqs IH]; intros sent w Hv Hsend.
  - exists [], w. split; [apply same_but_rng_refl|]. split; [constructor|].
    by rewrite app_nil_r.
  - rewrite fmap_cons, <- app_comm_cons.
    destruct (StreamSign_step stream req ((Ok <$> reqs) ++ tail) sent w Hv)
      as (resp & w1 & Hw1 & Hresp & ->).
    unfold StreamSign_send. rewrite Hsend by (cbn; lia).
    destruct (IH (sent ++ [resp]) w1 (same_but_rng_ptrs_valid _ _ Hw1 Hv))
      as (answers & w' & Hw' & Hans & ->).
    { intros n Hn. apply Hsend. rewrite length_app in Hn. cbn in Hn |- *. lia. }
    exists (resp :: answers), w'. split; [by apply (same_but_rng_trans _ w1)|].
    split; [|by rewrite <- app_assoc].
    constructor; [exact Hresp|].
    eapply list.Forall2_impl; [exact Hans|]. intros r a. by apply StreamSign_answer_same.
Qed.

(** X21.  [StreamSign] answers the requests in the order they arrive,
    one response each: "key not found" for an absent id, "key is not
    active" for a key that is not ACTIVE, else a signature of the datum or
    the text of the signing error; a request that cannot be served does
    not end the stream.  It ends with no error when the caller has closed
    the stream, and with the transport's error when [Recv] or [Send]
    fails, after the responses sent before.  Unlike [Sign], it writes no
    audit record; it changes nothing in the key store. *)
Theorem StreamSign_answers_in_order (w : World) (stream : SignStream)
    (reqs : list StreamSignRequest) (tail : list (result error StreamSignRequest)) :
  ptrs_valid w ->
  stream_Recv stream = (Ok <$> reqs) ++ tail ->
  (forall n, (n < length reqs)%nat -> stream_Send stream n = None) ->
  let ending :=
    match tail with
    | [] => Some None
    | Err err :: _ => Some (Some err)
    | Ok _ :: _ => Some <$> stream_Send stream (length reqs)
    end in
  forall err : option error,
    ending = Some err ->
    exists (sent : list StreamSignResponse) (w' : World),
      StreamSign MemoryStore SoftwareHSM stream w = Done (err, sent) w'
      /\ Forall2 (StreamSign_answer w) reqs sent
      /\ same_but_rng w w'.
Proof.
  intros Hv Hrecv Hsend ending err Hend. unfold StreamSign. rewrite Hrecv.
  destruct (StreamSign_loop_answers stream reqs tail [] w Hv)
    as (answers & w1 & Hw1 & Hans & ->).
  { intros n Hn. apply Hsend. cbn in Hn. lia. }
  cbn [app]. unfold ending in Hend. destruct tail as [|[req|err0] rest].
  - injection Hend as <-. by exists answers, w1.
  - destruct (stream_Send stream (length reqs)) as [sendErr|] eqn:Hs; [|discriminate].
    injection Hend as <-.
    destruct (StreamSign_step stream req rest answers w1 (same_but_rng_ptrs_valid _ _ Hw1 Hv))
      as (resp & w2 & Hw2 & _ & ->).
    unfold StreamSign_send. rewrite <- (Forall2_length Hans), Hs.
    exists answers, w2. split; [reflexivity|]. split; [exact Hans|].
    by apply (same_but_rng_trans _ w1).
  - injection Hend as <-. by exists answers, w1.
Qed.

End streaming.

(* ------------------------------------------------------------------- *)
(** ** The events of the key lifecycle *)
(* ------------------------------------------------------------------- *)

Lemma notified_intro (event : KeyEvent) (w w' : World) :
  subscribers w' = try_send 32 event <$> subscribers w -> notified event w w'.
Proof.
  intros Hs. split; [by rewrite Hs, length_fmap|].
  intros i ch Hi. by rewrite Hs, list_lookup_fmap, Hi.
Qed.

Section events.
Context `{Env} `{ECDSA} `{X509}.

Lemma broadcastEvent_run (eventType : pb_KeyEventType) (meta : KeyMetadata) (w : World) :
  broadcastEvent eventType meta w
  = Done tt (set_subscribers
               (map (try_send 32 {| event_Type := eventType; event_Metadata := meta;
                                    event_Timestamp := time_Now (ticks w) |}))
               (set_ticks S w)).
Proof. reflexivity. Qed.

Lemma Logger_Log_frame (operation keyID status peerAddr : string)
    (metadata : gmap string string) (w : World) :
  exists w', Logger_Log operation keyID status peerAddr metadata w = Done tt w'
             /\ subscribers w' = subscribers w /\ same_store w w'.
Proof.
  unfold Logger_Log, uuid_New, Now, gets, modify, mbind, Go_bind, mret, Go_ret. simpl.
  destruct (length (audit_entries w) <? audit_bufferSize w)%nat;
    eexists; (split; [reflexivity|]); by repeat split.
Qed.

(** [RotateKey] on an ACTIVE key, up to the call of [Put], with the
    watchers' channels and the clock. *)
Lemma RotateKey_ACTIVE_until_Put_frame (w : World) (id : string) (old : loc) (e : KeyEntry)
    (newKey : ecdsa_PrivateKey) :
  keys w !! id = Some old ->
  heap w !! old = Some e ->
  Status e = StatusActive ->
  ecdsa_GenerateKey (rotation_curve (Algorithm e)) (rng w) = Some newKey ->
  let newE := {| ID := uuid_NewString (S (rng w)); Algorithm := Algorithm e;
                 Status := StatusActive; PrivateKey := newKey;
                 CreatedAt := time_Now (ticks w); RotatedAt := 0; Labels := Labels e |} in
  let e2 := KeyEntry_with_RotatedAt (time_Now (S (ticks w)))
              (KeyEntry_with_Status StatusRotated e) in
  exists (p : loc) (w7 : World),
    p <> old
    /\ heap w7 = <[old := e2]> (<[p := newE]> (heap w))
    /\ keys w7 = keys w
    /\ subscribers w7 = subscribers w
    /\ ticks w7 = S (S (ticks w))
    /\ RotateKey MemoryStore SoftwareHSM id w
       = (err ← MemoryStore_Put p;
          match err with
          | Some err => mret (Err (status_Errorf Internal "store new key: " err))
          | None =>
              oldMeta ← entryToProto old;
              newMeta ← entryToProto p;
              broadcastEvent KEY_EVENT_TYPE_ROTATED newMeta;;
              newID ← field ID p;
              Logger_Log "RotateKey" id "OK" "" {[ "new_key_id" := newID ]};;
              mret (Ok {| OldKey := oldMeta; NewKey := newMeta |})
          end) w7.
Proof.
  intros Hk Hp Hst Hgen newE e2.
  unfold RotateKey. cbn [Store_Get Store_Put Store_UpdateStatus MemoryStore].
  rewrite (bind_Done _ _ _ _ _ (MemoryStore_Get_found _ _ _ Hk)).
  rewrite (bind_Done _ _ _ _ _ (field_Done Status _ _ _ Hp)).
  rewrite Hst. cbn [Z.eqb StatusActive Pos.eqb negb].
  rewrite (bind_Done _ _ _ _ _ (field_Done Algorithm _ _ _ Hp)).
  destruct (resolveCurve_algoToProto (Algorithm e)) as (algo & ->).
  cbn [Provider_GenerateKey SoftwareHSM].
  assert (Eg : GenerateECDSAKey (rotation_curve (Algorithm e)) w
               = Done (Ok newKey) (set_rng S w))
    by (unfold GenerateECDSAKey; by rewrite Hgen).
  rewrite (bind_Done _ _ _ _ _ Eg).
  rewrite (bind_Done _ _ _ _ _ (uuid_New_Done _)).
  set (w1 := set_rng S (set_rng S w)).
  assert (Hp1 : heap w1 !! old = Some e) by exact Hp.
  rewrite (bind_Done _ _ _ _ _ (field_Done Algorithm _ _ _ Hp1)).
  rewrite (bind_Done _ _ _ _ _ (Now_Done _)).
  set (w2 := set_ticks S w1).
  assert (Hp2 : heap w2 !! old = Some e) by exact Hp.
  rewrite (bind_Done _ _ _ _ _ (field_Done Labels _ _ _ Hp2)).
  cbn [rng set_rng ticks set_ticks w1 w2]. fold newE.
  destruct (new_Done newE w2) as (p & En & Hpf & _).
  rewrite (bind_Done _ _ _ _ _ En).
  assert (Hpo : p <> old) by (intros ->; simpl in Hpf; congruence).
  set (w3 := set_heap <[p := newE]> w2).
  assert (Hk3 : keys w3 !! id = Some old) by exact Hk.
  assert (Hp3 : heap w3 !! old = Some e)
    by (simpl; rewrite lookup_insert_ne by done; exact Hp).
  rewrite (bind_Done _ _ _ _ _ (MemoryStore_UpdateStatus_found _ StatusRotated _ _ _ Hk3 Hp3)).
  set (e1 := KeyEntry_with_Status StatusRotated e).
  set (w4 := set_heap <[old := e1]> w3).
  assert (Hp4 : heap w4 !! old = Some e1) by (simpl; apply lookup_insert_eq).
  rewrite (bind_Done _ _ _ _ _ (assign_Done _ (KeyEntry_with_Status StatusRotated) _ _ Hp4)).
  set (w5 := set_heap _ w4).
  rewrite (bind_Done _ _ _ _ _ (Now_Done _)).
  assert (Hp5 : heap w5 !! old = Some e1) by (simpl; apply lookup_insert_eq).
  set (w6 := set_ticks S w5).
  assert (Hp6 : heap w6 !! old = Some e1) by exact Hp5.
  rewrite (bind_Done _ _ _ _ _ (assign_Done _ _ _ _ Hp6)).
  cbn [ticks set_ticks set_heap set_rng w1 w2 w3 w4 w5 w6]. fold e2.
  set (w7 := set_heap <[old := e2]> w6).
  exists p, w7. split; [exact Hpo|]. split; [|by repeat split].
  cbn. by rewrite !insert_insert_eq.
Qed.

(** X26.  Every change of a key's life is announced to the watchers: a
    successful [GenerateKey], [RotateKey] or [DeactivateKey] places one
    event on each watcher's channel that has room (fewer than 32 pending
    events) and skips the full ones.  The event of [GenerateKey] is
    CREATED and that of [DeactivateKey] is DEACTIVATED, each with the
    metadata of the response; the event of [RotateKey] is ROTATED and
    carries the metadata of the new key, not of the rotated one. *)
Theorem key_events_reach_watchers (w : World) :
  (forall (algorithm : pb_KeyAlgorithm) (labels : gmap string string)
          (curve : elliptic_Curve) (algo : KeyAlgorithm) (key : ecdsa_PrivateKey),
      resolveCurve algorithm = Ok (curve, algo) ->
      ecdsa_GenerateKey curve (rng w) = Some key ->
      keys w !! uuid_NewString (S (rng w)) = None ->
      exists (w' : World) (meta : KeyMetadata),
        GenerateKey MemoryStore SoftwareHSM algorithm labels w
        = Done (Ok {| GenerateKey_Metadata := meta |}) w'
        /\ notified {| event_Type := KEY_EVENT_TYPE_CREATED; event_Metadata := meta;
                       event_Timestamp := time_Now (S (ticks w)) |} w w')
  /\ (forall (id : string) (old : loc) (e : KeyEntry) (newKey : ecdsa_PrivateKey),
        keys w !! id = Some old ->
        heap w !! old = Some e ->
        Status e = StatusActive ->
        ecdsa_GenerateKey (rotation_curve (Algorithm e)) (rng w) = Some newKey ->
        keys w !! uuid_NewString (S (rng w)) = None ->
        exists (w' : World) (resp : RotateKeyResponse),
          RotateKey MemoryStore SoftwareHSM id w = Done (Ok resp) w'
          /\ meta_KeyId (NewKey resp) = uuid_NewString (S (rng w))
          /\ meta_KeyId (OldKey resp) = ID e
          /\ notified {| event_Type := KEY_EVENT_TYPE_ROTATED;
                         event_Metadata := NewKey resp;
                         event_Timestamp := time_Now (S (S (ticks w))) |} w w')
  /\ (forall (id : string) (p : loc) (e : KeyEntry),
        keys w !! id = Some p ->
        heap w !! p = Some e ->
        exists (w' : World) (meta : KeyMetadata),
          DeactivateKey MemoryStore id w = Done (Ok {| Deactivate_Metadata := meta |}) w'
          /\ meta = KeyMetadata_of (KeyEntry_with_Status StatusDeactivated e)
          /\ notified {| event_Type := KEY_EVENT_TYPE_DEACTIVATED; event_Metadata := meta;
                         event_Timestamp := time_Now (ticks w) |} w w').
Proof.
  split; [|split].
  - intros algorithm labels curve algo key Hres Hgen Hfresh.
    set (id := uuid_NewString (S (rng w))) in *.
    set (entry := {| ID := id; Algorithm := algo; Status := StatusActive;
                     PrivateKey := key; CreatedAt := time_Now (ticks w);
                     RotatedAt := 0; Labels := labels |}).
    unfold GenerateKey. rewrite Hres.
    cbn [Provider_GenerateKey SoftwareHSM Store_Put MemoryStore].
    assert (Eg : GenerateECDSAKey curve w = Done (Ok key) (set_rng S w))
      by (unfold GenerateECDSAKey; by rewrite Hgen).
    rewrite (bind_Done _ _ _ _ _ Eg).
    rewrite (bind_Done _ _ _ _ _ (uuid_New_Done _)).
    rewrite (bind_Done _ _ _ _ _ (Now_Done _)).
    cbn [rng set_rng ticks set_ticks]. fold id. fold entry.
    set (w2 := set_ticks S (set_rng S (set_rng S w))).
    destruct (new_Done entry w2) as (p & En & Hpf & _).
    rewrite (bind_Done _ _ _ _ _ En).
    set (w3 := set_heap <[p := entry]> w2).
    assert (Hp3 : heap w3 !! p = Some entry) by (cbn; apply lookup_insert_eq).
    assert (Hk3 : keys w3 !! ID entry = None) by exact Hfresh.
    rewrite (bind_Done _ _ _ _ _ (MemoryStore_Put_fresh _ _ _ Hp3 Hk3)).
    set (w4 := set_keys <[ID entry := p]> w3).
    assert (Hp4 : heap w4 !! p = Some entry) by exact Hp3.
    rewrite (bind_Done _ _ _ _ _ (entryToProto_of _ _ _ Hp4)).
    rewrite (bind_Done _ _ _ _ _ (broadcastEvent_run _ _ _)).
    set (w5 := set_subscribers _ _).
    assert (Hp5 : heap w5 !! p = Some entry) by exact Hp4.
    rewrite (bind_Done _ _ _ _ _ (field_Done ID _ _ _ Hp5)).
    destruct (Logger_Log_frame "GenerateKey" (ID entry) "OK" "" ∅ w5) as (w6 & E6 & S6 & _).
    rewrite (bind_Done _ _ _ _ _ E6).
    exists w6, (KeyMetadata_of entry). split; [reflexivity|].
    apply notified_intro. by rewrite S6.
  - intros id old e newKey Hk Hp Hst Hgen Hfresh.
    destruct (RotateKey_ACTIVE_until_Put_frame w id old e newKey Hk Hp Hst Hgen)
      as (p & w7 & Hpo & Hh7 & Hk7 & Hs7 & Ht7 & ->).
    set (newE := {| ID := uuid_NewString (S (rng w)); Algorithm := Algorithm e;
                    Status := StatusActive; PrivateKey := newKey;
                    CreatedAt := time_Now (ticks w); RotatedAt := 0;
                    Labels := Labels e |}) in *.
    set (e2 := KeyEntry_with_RotatedAt (time_Now (S (ticks w)))
                 (KeyEntry_with_Status StatusRotated e)) in *.
    assert (Ho7 : heap w7 !! old = Some e2) by (rewrite Hh7; apply lookup_insert_eq).
    assert (Hn7 : heap w7 !! p = Some newE).
    { rewrite Hh7, lookup_insert_ne by done. apply lookup_insert_eq. }
    assert (Hf7 : keys w7 !! ID newE = None) by (rewrite Hk7; exact Hfresh).
    rewrite (bind_Done _ _ _ _ _ (MemoryStore_Put_fresh _ _ _ Hn7 Hf7)).
    set (w8 := set_keys <[ID newE := p]> w7).
    assert (Ho8 : heap w8 !! old = Some e2) by exact Ho7.
    assert (Hn8 : heap w8 !! p = Some newE) by exact Hn7.
    rewrite (bind_Done _ _ _ _ _ (entryToProto_of _ _ _ Ho8)).
    rewrite (bind_Done _ _ _ _ _ (entryToProto_of _ _ _ Hn8)).
    rewrite (bind_Done _ _ _ _ _ (broadcastEvent_run _ _ _)).
    set (w9 := set_subscribers _ _).
    assert (Hn9 : heap w9 !! p = Some newE) by exact Hn8.
    rewrite (bind_Done _ _ _ _ _ (field_Done ID _ _ _ Hn9)).
    destruct (Logger_Log_frame "RotateKey" id "OK" "" {[ "new_key_id" := ID newE ]} w9)
      as (w10 & E10 & S10 & _).
    rewrite (bind_Done _ _ _ _ _ E10).
    exists w10, {| OldKey := KeyMetadata_of e2; NewKey := KeyMetadata_of newE |}.
    split; [reflexivity|]. split; [reflexivity|]. split; [reflexivity|].
    apply notified_intro. rewrite S10. unfold w9, w8. cbn [subscribers set_subscribers
      set_ticks set_keys ticks NewKey]. by rewrite Hs7, Ht7.
  - intros id p e Hk Hp. unfold DeactivateKey.
    cbn [Store_UpdateStatus Store_Get MemoryStore].
    rewrite (bind_Done _ _ _ _ _ (MemoryStore_UpdateStatus_found _ _ _ _ _ Hk Hp)).
    set (w1 := set_heap _ w).
    assert (Hk1 : keys w1 !! id = Some p) by exact Hk.
    assert (Hp1 : heap w1 !! p = Some (KeyEntry_with_Status StatusDeactivated e))
      by (simpl; apply lookup_insert_eq).
    rewrite (bind_Done _ _ _ _ _ (MemoryStore_Get_found _ _ _ Hk1)).
    rewrite (bind_Done _ _ _ _ _ (entryToProto_of _ _ _ Hp1)).
    rewrite (bind_Done _ _ _ _ _ (broadcastEvent_run _ _ _)).
    set (w2 := set_subscribers _ _).
    destruct (Logger_Log_frame "DeactivateKey" id "OK" "" ∅ w2) as (w3 & E3 & S3 & _).
    rewrite (bind_Done _ _ _ _ _ E3).
    exists w3, (KeyMetadata_of (KeyEntry_with_Status StatusDeactivated e)).
    split; [reflexivity|]. split; [reflexivity|].
    apply notified_intro. by rewrite S3.
Qed.

End events.

(* ------------------------------------------------------------------- *)
(** ** The bearer token *)
(* ------------------------------------------------------------------- *)

Lemma substring_0_length (s : string) : String.substring 0 (String.length s) s = s.
Proof. induction s as [|c s IH]; [done|]. cbn. by rewrite IH. Qed.

Lemma prefix_app (p r : string) : String.prefix p (p +:+ r) = true.
Proof.
  induction p as [|c p IH]; [by destruct r|].
  change (String c p +:+ r) with (String c (p +:+ r)).
  change (String.prefix (String c p) (String c (p +:+ r)))
    with (if Ascii.ascii_dec c c then String.prefix p (p +:+ r) else false).
  destruct (Ascii.ascii_dec c c); [exact IH|done].
Qed.

Lemma prefix_true_app (p s : string) :
  String.prefix p s = true ->
  s = p +:+ String.substring (String.length p) (String.length s - String.length p) s.
Proof.
  revert s. induction p as [|a p IH]; intros s Hp.
  - cbn. by rewrite Nat.sub_0_r, substring_0_length.
  - destruct s as [|b s]; [discriminate|]. cbn in Hp.
    destruct (Ascii.ascii_dec a b) as [->|]; [|discriminate].
    change (String b s = String b (p +:+ String.substring (String.length p)
                                     (String.length s - String.length p) s)).
    f_equal. by apply IH.
Qed.

Lemma app_inj_l (p r r' : string) : p +:+ r = p +:+ r' -> r = r'.
Proof.
  induction p as [|c p IH]; [done|].
  change (String c (p +:+ r) = String c (p +:+ r') -> r = r').
  intros [= Heq]. by apply IH.
Qed.

Lemma strings_TrimPrefix_app (p r : string) : strings_TrimPrefix (p +:+ r) p = r.
Proof.
  unfold strings_TrimPrefix. rewrite prefix_app.
  pose proof (prefix_true_app p (p +:+ r) (prefix_app p r)) as Heq.
  by apply app_inj_l in Heq.
Qed.

Lemma validateToken_None (md : option MD) (expected : string) :
  validateToken md expected = None <-> bearer_accepted md expected.
Proof.
  unfold validateToken, bearer_accepted, MD_Get. split.
  - destruct md as [m|]; [|discriminate].
    destruct (m !! "authorization") as [[|v rest]|] eqn:Hm; [discriminate| |discriminate].
    cbn. destruct (String.eqb_spec (strings_TrimPrefix v "Bearer ") expected) as [Heq|];
      [|discriminate].
    intros _. exists m, v, rest. split; [done|]. split; [done|].
    unfold strings_TrimPrefix in Heq.
    destruct (String.prefix "Bearer " v) eqn:Hp.
    + left. rewrite (prefix_true_app _ _ Hp) at 1. by rewrite Heq.
    + right. subst v. by split.
  - intros (m & v & rest & -> & Hm & Hv). rewrite Hm. cbn.
    assert (Ht : strings_TrimPrefix v "Bearer " = expected).
    { destruct Hv as [->|[-> Hp]]; [apply strings_TrimPrefix_app|].
      unfold strings_TrimPrefix. by rewrite Hp. }
    by rewrite Ht, String.eqb_refl.
Qed.

(** X23.  The bearer-token interceptor runs the handler exactly for the
    requests whose first authorization value is "Bearer " followed by the
    configured token, or the bare token when the configured token does
    not itself start with "Bearer "; every other request (no metadata, no
    authorization header, another first value) is answered with the code
    unauthenticated and the handler does not run. *)
Theorem AuthUnary_lets_through_iff {A : Type} (token : string) (md : option MD)
    (handler : Go (result Status_error A)) (w : World) :
  (bearer_accepted md token -> AuthUnary token md handler w = handler w)
  /\ (~ bearer_accepted md token ->
      exists msg : string,
        AuthUnary token md handler w = Done (Err (status_Error Unauthenticated msg)) w)
  /\ (forall v rest,
        md = Some {[ "authorization" := v :: rest ]} ->
        bearer_accepted md token
        <-> v = "Bearer " +:+ token \/ (v = token /\ String.prefix "Bearer " token = false)).
Proof.
  split; [|split].
  - intros Hacc. unfold AuthUnary. by rewrite (proj2 (validateToken_None md token) Hacc).
  - intros Hrej. unfold AuthUnary.
    destruct (validateToken md token) as [err|] eqn:Hv.
    2:{ by apply validateToken_None in Hv. }
    unfold validateToken in Hv. destruct md as [m|]; [|injection Hv as <-; eauto].
    destruct (MD_Get m "authorization") as [|v rest]; [injection Hv as <-; eauto|].
    cbn in Hv. destruct (negb _); [injection Hv as <-; eauto|discriminate].
  - intros v rest ->. unfold bearer_accepted. split.
    + intros (m & v' & rest' & Hmd & Hm & Hv).
      assert (Hmm : m = {[ "authorization" := v :: rest ]}) by congruence.
      rewrite Hmm in Hm. unfold MD in Hm.
      rewrite lookup_singleton_eq in Hm. by injection Hm as <- <-.
    + intros Hv. exists {[ "authorization" := v :: rest ]}, v, rest.
      split; [done|]. split; [unfold MD; apply lookup_singleton_eq|exact Hv].
Qed.

(* ------------------------------------------------------------------- *)
(** ** Opening a persistent store *)
(* ------------------------------------------------------------------- *)

Section opening.
Context `{Env} `{X509} `{JSON}.

Lemma PersistentStore_load_loop_Err (pks : list persistedKey) (w : World) :
  Exists (fun pk => forall k, UnmarshalPrivateKey (pk_PrivateKeyDER pk) <> Ok k) pks ->
  exists (err : error) (w' : World),
    PersistentStore_load_loop pks w = Done (Some err) w' /\ files w' = files w.
Proof.
  intros HE. revert w. induction pks as [|pk pks IH]; intros w.
  - by apply Exists_nil in HE.
  - cbn [PersistentStore_load_loop].
    destruct (UnmarshalPrivateKey (pk_PrivateKeyDER pk)) as [k|err] eqn:Hu.
    + apply Exists_cons in HE as [Hbad|HE]; [by destruct (Hbad k)|].
      match goal with |- context [new ?e] => destruct (new_Done e w) as (p & En & _) end.
      rewrite (bind_Done _ _ _ _ _ En).
      rewrite (bind_Done (modify _) _ _ _ tt eq_refl).
      match goal with
      | |- exists _ _, PersistentStore_load_loop pks ?w1 = _ /\ _ =>
          destruct (IH HE w1) as (err & w' & E & Hf)
      end.
      exists err, w'. split; [exact E|]. by rewrite Hf.
    + eexists _, w. by split.
Qed.

Lemma os_Stat_missing (name : string) (w : World) :
  files w !! name = None ->
  os_Stat name w
  = Done (Some (Errorf ("stat " +:+ name +:+ ": no such file or directory"))) w.
Proof.
  intros Hf. unfold os_Stat. rewrite (bind_Done (gets files) _ w w (files w) eq_refl).
  by rewrite Hf.
Qed.

(** X24.  Opening a persistent store where no file exists gives an empty
    store and writes no file.  Where a file exists that does not decode,
    or that holds a record whose key does not parse as an ECDSA key,
    opening fails and the file is left as it is. *)
Theorem NewPersistentStore_without_usable_file (path : string) (w : World) :
  (files w !! path = None ->
     NewPersistentStore path w = Done None (set_keys (fun _ => ∅) w))
  /\ (forall data : bytes,
        files w !! path = Some data ->
        json_Unmarshal data = None
        \/ (exists pks,
              json_Unmarshal data = Some pks
              /\ Exists (fun pk => forall k,
                           UnmarshalPrivateKey (pk_PrivateKeyDER pk) <> Ok k) pks) ->
        exists (err : error) (w' : World),
          NewPersistentStore path w = Done (Some err) w' /\ files w' = files w).
Proof.
  split.
  - intros Hf. unfold NewPersistentStore.
    set (w0 := set_keys (fun _ => ∅) w).
    rewrite (bind_Done NewMemoryStore _ w w0 tt eq_refl).
    rewrite (bind_Done (os_MkdirAll _) _ w0 w0 None eq_refl).
    assert (Hf0 : files w0 !! path = None) by exact Hf.
    by rewrite (bind_Done _ _ _ _ _ (os_Stat_missing _ _ Hf0)).
  - intros data Hf Hbad. unfold NewPersistentStore.
    set (w0 := set_keys (fun _ => ∅) w).
    rewrite (bind_Done NewMemoryStore _ w w0 tt eq_refl).
    rewrite (bind_Done (os_MkdirAll _) _ w0 w0 None eq_refl).
    assert (Hf0 : files w0 !! path = Some data) by exact Hf.
    rewrite (bind_Done _ _ _ _ _ (os_Stat_found _ _ _ Hf0)).
    assert (Hload : exists (err : error) (w' : World),
               PersistentStore_load path w0 = Done (Some err) w' /\ files w' = files w).
    { unfold PersistentStore_load.
      rewrite (bind_Done _ _ _ _ _ (os_ReadFile_found _ _ _ Hf0)).
      destruct Hbad as [->|(pks & -> & HE)]; [by eexists _, w0|].
      destruct (PersistentStore_load_loop_Err pks w0 HE) as (err & w' & E & Hfs).
      by exists err, w'. }
    destruct Hload as (err & w' & E & Hfs).
    rewrite (bind_Done _ _ _ _ _ E). by eexists _, w'.
Qed.

End opening.

(* ------------------------------------------------------------------- *)
(** ** Generated AES keys *)
(* ------------------------------------------------------------------- *)

Section aeskeys.
Context `{Env}.

(** X25.  [GenerateAESKey] returns the next 32 bytes of the random
    source, a key under which [EncryptAESGCM] succeeds and
    [DecryptAESGCM] restores the plaintext; it fails when the random
    source fails. *)
Theorem GenerateAESKey_usable (w : World) (plaintext aad : bytes) :
  (rand_fails (rng w) = false ->
     rand_fails (rng w + 32) = false ->
     exists (key : bytes) (w1 : World) (framed : bytes) (w2 : World),
       GenerateAESKey w = Done (Ok key) w1
       /\ key = map rand_byte (seq (rng w) 32)
       /\ length key = 32%nat
       /\ EncryptAESGCM key plaintext aad w1 = Done (Ok framed) w2
       /\ DecryptAESGCM key framed aad = Ok plaintext)
  /\ (rand_fails (rng w) = true ->
      exists err, GenerateAESKey w = Done (Err err) w).
Proof.
  split.
  - intros Hr Hr'. set (key := map rand_byte (seq (rng w) 32)).
    set (w1 := set_rng (fun r => (r + 32)%nat) w).
    assert (Hlen : length key = 32%nat) by (unfold key; by rewrite length_map, length_seq).
    destruct (EncryptAESGCM_Done key plaintext aad w1) as (framed & HE & HD).
    { right. right. exact Hlen. }
    { exact Hr'. }
    exists key, w1, framed, (set_rng (fun r => (r + 12)%nat) w1). split; [|split; [done|split; [done|split; [exact HE|exact HD]]]].
    unfold GenerateAESKey. by rewrite (bind_Done _ _ _ _ _ (rand_Read_Ok 32 w Hr)).
  - intros Hr. unfold GenerateAESKey, rand_Read, mbind, Go_bind. rewrite Hr. eauto.
Qed.

End aeskeys.

(* ===================================================================== *)
(** * The properties on the concrete states *)
(* ===================================================================== *)

#[local] Existing Instance example_Env.
#[local] Existing Instance example_ECDSA.
#[local] Existing Instance example_X509.
#[local] Existing Instance example_JSON.
#[local] Existing Instance example_Scheduler.

Lemma pos_of_to_bytes (p : positive) : pos_of_bytes (pos_to_bytes p) = Some p.
Proof. induction p as [q IH|q IH|]; cbn; [by rewrite IH..|done]. Qed.

Lemma example_decode_encode {A : Type} `{Countable A} (x : A) :
  example_decode (example_encode x) = Some x.
Proof.
  unfold example_decode, example_encode. rewrite pos_of_to_bytes. cbn. apply decode_encode.
Qed.

Lemma example_map_range_Permutation (s : nat) (l : list (string * loc)) :
  map_range s l ≡ₚ l.
Proof. reflexivity. Qed.

Lemma example_go_order_Permutation (s : nat) (l : list (nat * bytes)) :
  go_order s l ≡ₚ l.
Proof. cbn. symmetry. apply Permutation_rev. Qed.

Lemma example_pkcs8_round_trip (k : ecdsa_PrivateKey) :
  example_key_valid k ->
  exists der, x509_MarshalPKCS8PrivateKey k = Some der
              /\ x509_ParsePKCS8PrivateKey der = Some (pkcs8_ecdsa k).
Proof.
  intros _. exists (example_encode k). split; [reflexivity|].
  cbn. by rewrite example_decode_encode.
Qed.

Lemma example_json_round_trip (ks : list persistedKey) :
  Forall (fun _ => True) ks ->
  exists data, json_MarshalIndent ks = Some data /\ json_Unmarshal data = Some ks.
Proof.
  intros _. exists (example_encode ks). split; [reflexivity|]. apply example_decode_encode.
Qed.

Lemma example_sign_verify (s : nat) (k : ecdsa_PrivateKey) (hash sig : bytes) :
  example_key_valid k -> ecdsa_SignASN1 s k hash = Some sig ->
  ecdsa_VerifyASN1 (PublicKey k) hash sig = true.
Proof.
  unfold example_key_valid. cbn. intros -> [= <-]. by apply bool_decide_eq_true_2.
Qed.

Lemma example_world_wf : store_wf example_world.
Proof.
  intros id p Hk. cbn in Hk.
  apply lookup_insert_Some in Hk as [[<- <-]|[_ Hk]]; [by eexists|].
  apply lookup_singleton_Some in Hk as [<- <-]. by eexists.
Qed.

Lemma example_world_entries (id : string) (e : KeyEntry) :
  entry_at example_world id = Some e ->
  e = example_entry "key-1" StatusActive 11 \/ e = example_entry "key-2" StatusRotated 22.
Proof.
  unfold entry_at. destruct (keys example_world !! id) as [p|] eqn:Hk; [|done].
  cbn in Hk. apply lookup_insert_Some in Hk as [[<- <-]|[_ Hk]].
  - intros [= <-]. by left.
  - apply lookup_singleton_Some in Hk as [<- <-]. intros [= <-]. by right.
Qed.

Lemma NewCipher_zero32 : aes.NewCipher key_zero32 = Ok block_zero32.
Proof. vm_compute. reflexivity. Qed.

Lemma NewCipher_zero16 : aes.NewCipher key_zero16 = Ok block_zero16.
Proof. vm_compute. reflexivity. Qed.

Lemma EncryptAESGCM_example :
  EncryptAESGCM key_zero32 plaintext_secret aad_zero example_world
  = Done (Ok framed_secret) (set_rng (fun r => (r + 12)%nat) example_world).
Proof. vm_compute. reflexivity. Qed.

(** C6 at [example_world]: the first put of [key-3] succeeds, the second
    fails and the first entry stays; an unknown id is not found. *)
Lemma MemoryStore_Put_twice_Get_example :
  heap example_world !! 3%nat = Some (example_entry "key-3" StatusActive 33)
  /\ keys example_world !! "key-3" = None
  /\ heap example_world !! 4%nat = Some (example_entry "key-3" StatusDeactivated 44)
  /\ (exists w1,
        MemoryStore_Put 3%nat example_world = Done None w1
        /\ MemoryStore_Put 4%nat w1
           = Done (Some (Errorf "key key-3 already exists")) w1
        /\ MemoryStore_Get "key-3" w1 = Done (Ok 3%nat) w1
        /\ entry_at w1 "key-3" = Some (example_entry "key-3" StatusActive 33))
  /\ MemoryStore_Get "key-9" example_world = Done (Err ErrKeyNotFound) example_world.
Proof.
  assert (H3 : heap example_world !! 3%nat = Some (example_entry "key-3" StatusActive 33))
    by reflexivity.
  assert (Hk : keys example_world !! "key-3" = None) by reflexivity.
  assert (H4 : heap example_world !! 4%nat
               = Some (example_entry "key-3" StatusDeactivated 44)) by reflexivity.
  destruct (MemoryStore_Put_twice_Get example_world 3%nat 4%nat _ _ H3 Hk H4 eq_refl)
    as [Hput Hget].
  split; [exact H3|]. split; [exact Hk|]. split; [exact H4|].
  split; [exact Hput|]. by apply Hget.
Defined.

(** C10 at [example_world]: the ROTATED [key-2] is deactivated; an unknown
    id is not found. *)
Lemma DeactivateKey_any_status_example :
  (exists w' meta,
      DeactivateKey MemoryStore "key-2" example_world
      = Done (Ok {| Deactivate_Metadata := meta |}) w'
      /\ meta_KeyId meta = "key-2"
      /\ meta_Status meta = KEY_STATUS_DEACTIVATED
      /\ entry_at w' "key-2" = Some (example_entry "key-2" StatusDeactivated 22))
  /\ DeactivateKey MemoryStore "key-9" example_world
     = Done (Err (status_Error NotFound "key not found")) example_world.
Proof.
  destruct (DeactivateKey_any_status example_world "key-2") as [Hfound _].
  destruct (DeactivateKey_any_status example_world "key-9") as [_ Hmissing].
  destruct (Hfound 2%nat (example_entry "key-2" StatusRotated 22) eq_refl eq_refl)
    as (w' & meta & HD & Hid & Hst & He & _).
  split; [|by apply Hmissing]. by exists w', meta.
Defined.

(** C2 at [example_world]: [Sign] answers for the ACTIVE [key-1], fails
    with failed-precondition for the ROTATED [key-2] and with not-found
    for an unknown id; [Verify] answers for [key-2]. *)
Lemma Sign_Verify_example :
  (exists sig w', Sign MemoryStore SoftwareHSM "key-1" [Byte.x68; Byte.x69] example_world
                  = Done (Ok {| Signature := sig; Sign_KeyId := "key-1" |}) w')
  /\ Sign MemoryStore SoftwareHSM "key-2" [Byte.x68; Byte.x69] example_world
     = Done (Err (status_Error FailedPrecondition "key is not active")) example_world
  /\ Sign MemoryStore SoftwareHSM "key-9" [Byte.x68; Byte.x69] example_world
     = Done (Err (status_Error NotFound "key not found")) example_world
  /\ (exists valid w', Verify MemoryStore SoftwareHSM "key-2" [Byte.x68; Byte.x69] [] example_world
                       = Done (Ok {| Valid := valid |}) w').
Proof.
  destruct (Sign_needs_ACTIVE_Verify_any_status example_world "key-1" [Byte.x68; Byte.x69] [])
    as (_ & H1 & _).
  destruct (Sign_needs_ACTIVE_Verify_any_status example_world "key-2" [Byte.x68; Byte.x69] [])
    as (_ & H2 & _).
  destruct (Sign_needs_ACTIVE_Verify_any_status example_world "key-9" [Byte.x68; Byte.x69] [])
    as (H9 & _ & _).
  destruct (H1 1%nat _ eq_refl eq_refl) as (_ & Hs & _).
  destruct (H2 2%nat _ eq_refl eq_refl) as (Hf & _ & Hv).
  split; [|split; [|split]].
  - destruct (Hs eq_refl _ eq_refl) as [w' Hw]. eauto.
  - by apply Hf.
  - by apply H9.
  - destruct Hv as [w' Hw]. eauto.
Defined.

(** C1 at [example_world]: rotating the ACTIVE [key-1] creates [uuid-1];
    rotating the ROTATED [key-2] fails and changes nothing. *)
Lemma RotateKey_example :
  (exists w' resp,
      RotateKey MemoryStore SoftwareHSM "key-1" example_world = Done (Ok resp) w'
      /\ meta_KeyId (NewKey resp) = "uuid-1"
      /\ meta_Status (NewKey resp) = KEY_STATUS_ACTIVE
      /\ meta_Algorithm (NewKey resp) = KEY_ALGORITHM_ECDSA_P256
      /\ meta_Labels (NewKey resp) = {[ "env" := "test" ]}
      /\ meta_Status (OldKey resp) = KEY_STATUS_ROTATED
      /\ meta_RotatedAt (OldKey resp) = Some 1001
      /\ (Status <$> entry_at w' "key-1") = Some StatusRotated
      /\ (Status <$> entry_at w' "uuid-1") = Some StatusActive)
  /\ RotateKey MemoryStore SoftwareHSM "key-2" example_world
     = Done (Err (status_Error FailedPrecondition "can only rotate active keys"))
            example_world.
Proof.
  destruct (RotateKey_ACTIVE_or_failed_precondition example_world "key-1" 1%nat
              (example_entry "key-1" StatusActive 11) eq_refl eq_refl) as [Hact _].
  destruct (RotateKey_ACTIVE_or_failed_precondition example_world "key-2" 2%nat
              (example_entry "key-2" StatusRotated 22) eq_refl eq_refl) as [_ Hrot].
  split; [|by apply Hrot].
  destruct (Hact eq_refl _ eq_refl eq_refl)
    as (w' & resp & HR & Hid & _ & Hst & Halg & Hlab & _ & Host & Hrat & Hold & Hnew).
  exists w', resp. repeat split; try assumption.
  - by rewrite Hold.
  - assert (E : uuid_NewString (S (rng example_world)) = "uuid-1") by reflexivity.
    rewrite E in Hnew. by rewrite Hnew.
Defined.

(** C4, the claim as stated fails: the frame that [EncryptAESGCM] builds
    for the additional data [aad_zero] is accepted by [DecryptAESGCM] with
    the different additional data [aad_collide], and decrypts to the
    plaintext. *)
Lemma DecryptAESGCM_accepts_another_aad :
  EncryptAESGCM key_zero32 plaintext_secret aad_zero example_world
  = Done (Ok framed_secret) (set_rng (fun r => (r + 12)%nat) example_world)
  /\ aad_collide <> aad_zero
  /\ DecryptAESGCM key_zero32 framed_secret aad_collide = Ok plaintext_secret.
Proof.
  split; [exact EncryptAESGCM_example|]. split; [discriminate|].
  vm_compute. reflexivity.
Qed.

(** C4 (as amended) at the concrete frame: the round trip, a rejected
    additional data, a rejected key and a key that is not an AES key. *)
Lemma DecryptAESGCM_EncryptAESGCM_example :
  EncryptAESGCM key_zero32 plaintext_secret aad_zero example_world
  = Done (Ok framed_secret) (set_rng (fun r => (r + 12)%nat) example_world)
  /\ DecryptAESGCM key_zero32 framed_secret aad_zero = Ok plaintext_secret
  /\ DecryptAESGCM key_zero32 framed_secret (bytes_of_string "wrong")
     = Err (Errorf "aes gcm decrypt: cipher: message authentication failed")
  /\ DecryptAESGCM key_zero16 framed_secret aad_zero
     = Err (Errorf "aes gcm decrypt: cipher: message authentication failed")
  /\ (exists e, DecryptAESGCM (replicate 5 Byte.x00) framed_secret aad_zero = Err e).
Proof.
  pose proof (DecryptAESGCM_EncryptAESGCM key_zero32 plaintext_secret aad_zero
                framed_secret example_world _ EncryptAESGCM_example)
    as (Hrt & _ & Hother).
  split; [exact EncryptAESGCM_example|]. split; [exact Hrt|]. split; [|split].
  - destruct (Hother key_zero32 (bytes_of_string "wrong")) as [_ Hb].
    destruct (Hb _ NewCipher_zero32) as [Hrej _]. apply Hrej.
    vm_compute. discriminate.
  - destruct (Hother key_zero16 aad_zero) as [_ Hb].
    destruct (Hb _ NewCipher_zero16) as [Hrej _]. apply Hrej.
    vm_compute. discriminate.
  - destruct (Hother (replicate 5 Byte.x00) aad_zero) as [Hbad _].
    apply (Hbad (aes.KeySizeError_of 5)). reflexivity.
Defined.

(** C8, the claim as stated fails: [EncryptAESGCM] succeeds with a key of
    16 bytes (AES-128; the output is test case 2 of the GCM
    specification behind the zero nonce). *)
Lemma EncryptAESGCM_accepts_16_byte_key :
  length key_zero16 = 16%nat
  /\ EncryptAESGCM key_zero16 (replicate 16 Byte.x00) [] example_world
     = Done (Ok (replicate 12 Byte.x00
                 ++ be_bytes 16 0x0388dace60b6a392f328c2b971b2fe78
                 ++ be_bytes 16 0xab6e47d42cec13bdf53a67b21257bddf))
            (set_rng (fun r => (r + 12)%nat) example_world).
Proof. split; [reflexivity|]. vm_compute. reflexivity. Qed.

(** C8 (as amended) at concrete keys: 32 bytes and 16 bytes succeed with
    the layout nonce ‖ ciphertext ‖ tag, 5 bytes fail. *)
Lemma EncryptAESGCM_key_length_and_layout_example :
  (exists nonce ct tag w',
      EncryptAESGCM key_zero32 plaintext_secret aad_zero example_world
      = Done (Ok (nonce ++ ct ++ tag)) w'
      /\ length nonce = 12%nat /\ length ct = 6%nat /\ length tag = 16%nat)
  /\ (exists err,
        EncryptAESGCM (replicate 5 Byte.x00) plaintext_secret aad_zero example_world
        = Done (Err err) example_world).
Proof.
  destruct (EncryptAESGCM_key_length_and_layout key_zero32 plaintext_secret aad_zero
              example_world) as (_ & Hok & _).
  destruct (EncryptAESGCM_key_length_and_layout (replicate 5 Byte.x00) plaintext_secret
              aad_zero example_world) as (Hbad & _ & _).
  split.
  - destruct (Hok (or_intror (or_intror eq_refl)) eq_refl)
      as (block & nonce & ct & tag & w' & _ & HE & _ & Hn & _ & Hc & _ & Ht).
    exists nonce, ct, tag, w'. by repeat split.
  - apply Hbad. unfold valid_aes_key_length. cbn. lia.
Defined.

(** C7 at concrete arguments. *)
Lemma DeriveKey_example :
  DeriveKey [Byte.x01; Byte.x02] (bytes_of_string "txn-key") 16
  = Ok (HKDF_SHA256 [Byte.x01; Byte.x02] [] (bytes_of_string "txn-key") 16)
  /\ Z.of_nat (length (HKDF_SHA256 [Byte.x01; Byte.x02] [] (bytes_of_string "txn-key") 16)) = 16
  /\ (exists err, DeriveKey [Byte.x01; Byte.x02] (bytes_of_string "txn-key") 0 = Err err)
  /\ (exists err, DeriveKey [Byte.x01; Byte.x02] (bytes_of_string "txn-key") 65 = Err err)
  /\ EncryptionServer_DeriveKey MemoryStore "key-1" (bytes_of_string "txn-key") 65 example_world
     = Done (Err (status_Error InvalidArgument "length must be 1-64 bytes")) example_world.
Proof.
  destruct (DeriveKey_length_range_deterministic
              [Byte.x01; Byte.x02] (bytes_of_string "txn-key") 16) as (H16 & _ & _).
  destruct (DeriveKey_length_range_deterministic
              [Byte.x01; Byte.x02] (bytes_of_string "txn-key") 0) as (_ & H0 & _).
  destruct (DeriveKey_length_range_deterministic
              [Byte.x01; Byte.x02] (bytes_of_string "txn-key") 65) as (_ & H65 & Hsrv).
  destruct (H16 ltac:(lia)) as [Hd Hl].
  destruct (Hsrv example_world "key-1" 1%nat _ eq_refl eq_refl eq_refl) as [Hinv _].
  split; [exact Hd|]. split; [exact Hl|]. split; [apply H0; lia|].
  split; [apply H65; lia|]. apply Hinv. lia.
Defined.

(** C3 at [example_world]. *)
Lemma symmetric_key_example :
  x509_MarshalPKCS8PrivateKey (example_key 11) = Some (example_encode (example_key 11))
  /\ length (HKDF_SHA256 (example_encode (example_key 11)) []
                         (bytes_of_string "vault-aes-gcm") 32) = 32%nat
  /\ deriveSymmetricKey 1%nat example_world
     = Done (Ok (HKDF_SHA256 (example_encode (example_key 11)) []
                             (bytes_of_string "vault-aes-gcm") 32)) example_world.
Proof.
  assert (Hm : x509_MarshalPKCS8PrivateKey
                 (PrivateKey (example_entry "key-1" StatusActive 11))
               = Some (example_encode (example_key 11))) by reflexivity.
  destruct (symmetric_key_is_HKDF_of_PKCS8 example_world "key-1" 1%nat
              (example_entry "key-1" StatusActive 11)
              (example_encode (example_key 11)) [] [] eq_refl eq_refl Hm)
    as (Hlen & Hder & _).
  split; [exact Hm|]. by split.
Defined.


(** C9, the claim as stated fails: of the two records of
    [example_audit_store_late], [Query] returns the one with the earlier
    timestamp first, and alone when the limit is 1; neither answer is the
    matching records in reverse chronological order. *)
Lemma Query_not_reverse_chronological :
  Query example_audit_store_late "key-1" "" 0 0 0
  = [ example_audit "b2" 10 "Sign" "key-1"; example_audit "b1" 20 "Sign" "key-1" ]
  /\ Entry_Timestamp (example_audit "b2" 10 "Sign" "key-1")
     < Entry_Timestamp (example_audit "b1" 20 "Sign" "key-1")
  /\ Query example_audit_store_late "key-1" "" 0 0 1
     = [ example_audit "b2" 10 "Sign" "key-1" ]
  /\ ~ Query_spec example_audit_store_late "key-1" "" 0 0 0
        (Query example_audit_store_late "key-1" "" 0 0 0)
  /\ ~ Query_spec example_audit_store_late "key-1" "" 0 0 1
        (Query example_audit_store_late "key-1" "" 0 0 1).
Proof.
  assert (H0 : Query example_audit_store_late "key-1" "" 0 0 0
               = [ example_audit "b2" 10 "Sign" "key-1";
                   example_audit "b1" 20 "Sign" "key-1" ]) by reflexivity.
  assert (H1 : Query example_audit_store_late "key-1" "" 0 0 1
               = [ example_audit "b2" 10 "Sign" "key-1" ]) by reflexivity.
  assert (Hf : List.filter (Query_matches "key-1" "" 0 0) example_audit_store_late
               = example_audit_store_late) by reflexivity.
  split; [exact H0|]. split; [cbn; lia|]. split; [exact H1|]. split.
  - rewrite H0. intros (matching & _ & Hs & Heq). cbn in Heq. subst matching.
    apply StronglySorted_inv in Hs as [_ Hs]. apply Forall_cons_1 in Hs as [Hs _].
    unfold newer_first in Hs. cbn in Hs. lia.
  - rewrite H1. intros (matching & Hp & Hs & Heq). rewrite Hf in Hp. symmetry in Hp.
    apply Permutation_length_2_inv in Hp as [-> | ->].
    + cbn in Heq. discriminate Heq.
    + apply StronglySorted_inv in Hs as [_ Hs]. apply Forall_cons_1 in Hs as [Hs _].
      unfold newer_first in Hs. cbn in Hs. lia.
Qed.

(** C9, as amended, at a store of five records in timestamp order: the
    two most recent records of [key-1] not after time 40, and all the
    records of [key-1] when the limit is 0, in reverse chronological
    order. *)
Lemma Query_example :
  Query example_audit_store "key-1" "" 0 40 2
  = [ example_audit "a4" 40 "Sign" "key-1"; example_audit "a2" 20 "Sign" "key-1" ]
  /\ Query example_audit_store "key-1" "" 0 0 0
     = [ example_audit "a5" 50 "Verify" "key-1"; example_audit "a4" 40 "Sign" "key-1";
         example_audit "a2" 20 "Sign" "key-1"; example_audit "a1" 10 "GenerateKey" "key-1" ]
  /\ StronglySorted newer_first (Query example_audit_store "key-1" "" 0 40 2)
  /\ Query_spec example_audit_store "key-1" "" 0 40 2
       (Query example_audit_store "key-1" "" 0 40 2).
Proof.
  destruct (Query_latest_retained_first_filtered_truncated example_audit_store
              "key-1" "" 0 40 2) as (Heq & _ & _ & _ & Hsorted).
  destruct (Query_latest_retained_first_filtered_truncated example_audit_store
              "key-1" "" 0 0 0) as (_ & _ & _ & Hall & _).
  split; [by rewrite Heq|]. split; [by rewrite Hall|].
  apply Hsorted. unfold example_audit_store.
  repeat (constructor; [|repeat (constructor; [unfold older_first; cbn; lia|]); constructor]).
  constructor.
Defined.

(** The store invariant along a put, a status update and a delete from
    [example_world]. *)
Lemma MemoryStore_keeps_store_wf_example :
  store_wf example_world
  /\ exists w1 w2 w3 : World,
       MemoryStore_Put 3%nat example_world = Done None w1 /\ store_wf w1
       /\ MemoryStore_UpdateStatus "key-1" StatusDeactivated w1 = Done None w2
       /\ store_wf w2
       /\ MemoryStore_Delete "key-2" w2 = Done None w3 /\ store_wf w3.
Proof.
  split; [exact example_world_wf|].
  set (w1 := set_keys <["key-3" := 3%nat]> example_world).
  set (w2 := set_heap <[1%nat := KeyEntry_with_Status StatusDeactivated
                                   (example_entry "key-1" StatusActive 11)]> w1).
  set (w3 := set_keys (delete "key-2") w2).
  assert (E1 : MemoryStore_Put 3%nat example_world = Done None w1)
    by (by apply (MemoryStore_Put_fresh 3%nat (example_entry "key-3" StatusActive 33))).
  assert (E2 : MemoryStore_UpdateStatus "key-1" StatusDeactivated w1 = Done None w2)
    by (by apply MemoryStore_UpdateStatus_found).
  assert (E3 : MemoryStore_Delete "key-2" w2 = Done None w3)
    by (by apply (MemoryStore_Delete_found "key-2" 2%nat)).
  destruct (MemoryStore_keeps_store_wf example_world example_world_wf) as (H1 & _).
  pose proof (H1 _ _ _ E1) as Hwf1.
  destruct (MemoryStore_keeps_store_wf w1 Hwf1) as (_ & H2 & _).
  pose proof (H2 _ _ _ _ E2) as Hwf2.
  destruct (MemoryStore_keeps_store_wf w2 Hwf2) as (_ & _ & H3 & _).
  pose proof (H3 _ _ _ E3) as Hwf3.
  by exists w1, w2, w3.
Defined.

(** The ROTATED [key-2] of [example_world] is set back to ACTIVE; an
    unknown id is not found. *)
Lemma MemoryStore_UpdateStatus_example :
  (exists w',
      MemoryStore_UpdateStatus "key-2" StatusActive example_world = Done None w'
      /\ entry_at w' "key-2" = Some (example_entry "key-2" StatusActive 22)
      /\ entry_at w' "key-1" = Some (example_entry "key-1" StatusActive 11))
  /\ MemoryStore_UpdateStatus "key-9" StatusActive example_world
     = Done (Some ErrKeyNotFound) example_world.
Proof.
  destruct (MemoryStore_UpdateStatus_any_transition example_world "key-2" StatusActive)
    as [Hfound _].
  destruct (MemoryStore_UpdateStatus_any_transition example_world "key-9" StatusActive)
    as [_ Hmissing].
  split; [|by apply Hmissing].
  destruct (Hfound 2%nat (example_entry "key-2" StatusRotated 22) eq_refl eq_refl)
    as (w' & HU & _ & He & Hothers).
  exists w'. split; [exact HU|]. split; [exact He|].
  by rewrite (Hothers example_world_wf "key-1").
Defined.

(** [key-1] is deleted from [example_world]; [key-2] stays. *)
Lemma MemoryStore_Delete_example :
  (exists w',
      MemoryStore_Delete "key-1" example_world = Done None w'
      /\ MemoryStore_Get "key-1" w' = Done (Err ErrKeyNotFound) w'
      /\ entry_at w' "key-2" = Some (example_entry "key-2" StatusRotated 22))
  /\ MemoryStore_Delete "key-9" example_world = Done (Some ErrKeyNotFound) example_world.
Proof.
  destruct (MemoryStore_Delete_removes example_world "key-1") as [Hfound _].
  destruct (MemoryStore_Delete_removes example_world "key-9") as [_ Hmissing].
  split; [|by apply Hmissing].
  destruct (Hfound 1%nat eq_refl) as (w' & HD & HG & Hothers).
  exists w'. split; [exact HD|]. split; [exact HG|]. by rewrite (Hothers "key-2").
Defined.

(** Listing the ROTATED keys of [example_world] returns [key-2] and not
    [key-1]. *)
Lemma MemoryStore_List_filters_example :
  store_wf example_world
  /\ exists (ps : list loc) (w' : World),
       MemoryStore_List StatusRotated example_world = Done (Ok ps) w'
       /\ 2%nat ∈ ps /\ 1%nat ∉ ps.
Proof.
  split; [exact example_world_wf|].
  destruct (MemoryStore_List_filters example_map_range_Permutation StatusRotated
              example_world example_world_wf) as (ps & w' & HL & _ & Hps).
  exists ps, w'. split; [exact HL|]. split.
  - apply Hps. exists "key-2", (example_entry "key-2" StatusRotated 22).
    split; [reflexivity|]. split; [reflexivity|]. by right.
  - intros Hin. apply Hps in Hin as (id & e & _ & He & Hst).
    injection He as <-. by destruct Hst.
Defined.

(** On the full buffer of [example_world_full] the entry is dropped; with
    room, in [example_world], it is queued. *)
Lemma Logger_Log_example :
  (exists w', Logger_Log "Sign" "key-1" "OK" "" ∅ example_world_full = Done tt w'
              /\ audit_entries w' = audit_entries example_world_full)
  /\ (exists w', Logger_Log "Sign" "key-1" "OK" "" ∅ example_world = Done tt w'
                 /\ audit_entries w'
                    = [ {| Entry_ID := "uuid-0"; Entry_Timestamp := 1000;
                           Entry_Operation := "Sign"; Entry_KeyID := "key-1";
                           Entry_Status := "OK"; Entry_PeerAddress := "";
                           Entry_Metadata := ∅ |} ]).
Proof.
  split.
  - destruct (Logger_Log_drops_when_full "Sign" "key-1" "OK" "" ∅ example_world_full)
      as (w' & HL & _ & Hfull & _).
    exists w'. split; [exact HL|]. apply Hfull. cbn. lia.
  - destruct (Logger_Log_drops_when_full "Sign" "key-1" "OK" "" ∅ example_world)
      as (w' & HL & Hroom & _).
    exists w'. split; [exact HL|]. rewrite Hroom by (cbn; lia). reflexivity.
Defined.

(** In [example_world_full] the first subscriber, whose channel is full,
    misses the event, and the second receives it. *)
Lemma broadcastEvent_example :
  exists w', broadcastEvent KEY_EVENT_TYPE_DEACTIVATED
               {| meta_KeyId := "key-1"; meta_Algorithm := KEY_ALGORITHM_ECDSA_P256;
                  meta_Status := KEY_STATUS_DEACTIVATED; meta_CreatedAt := Some 500;
                  meta_RotatedAt := None; meta_Labels := ∅ |} example_world_full
             = Done tt w'
             /\ subscribers w' !! 0%nat = subscribers example_world_full !! 0%nat
             /\ (length <$> subscribers w' !! 1%nat) = Some 1%nat.
Proof.
  destruct (broadcastEvent_never_blocks KEY_EVENT_TYPE_DEACTIVATED
              {| meta_KeyId := "key-1"; meta_Algorithm := KEY_ALGORITHM_ECDSA_P256;
                 meta_Status := KEY_STATUS_DEACTIVATED; meta_CreatedAt := Some 500;
                 meta_RotatedAt := None; meta_Labels := ∅ |} example_world_full)
    as (w' & HB & _ & Hsubs & _).
  exists w'. split; [exact HB|]. split.
  - destruct (Hsubs 0%nat _ eq_refl) as [_ Hfull]. rewrite Hfull; [done|]. cbn. lia.
  - destruct (Hsubs 1%nat _ eq_refl) as [Hroom _]. rewrite Hroom; [done|]. cbn. lia.
Defined.

(** The queued record of [example_world_full] is retained behind the
    record already there. *)
Lemma Logger_processLoop_step_example :
  exists w', Logger_processLoop_step example_world_full = Done true w'
             /\ audit_entries w' = []
             /\ audit_store w' = [ example_audit "a0" 5 "GenerateKey" "key-1";
                                   example_audit "a1" 10 "Sign" "key-1" ]
             /\ Query (audit_store w') "" "" 0 0 1 = [ example_audit "a1" 10 "Sign" "key-1" ].
Proof.
  destruct (Logger_processLoop_step_retains_oldest example_world_full) as [_ Hstep].
  destruct (Hstep _ _ eq_refl) as (w' & HS & Hq & Hst & HQ).
  exists w'. by rewrite Hst in *.
Defined.

(** Rotation of [key-1] when the generated id [uuid-1] is taken. *)
Lemma RotateKey_failed_Put_example :
  keys example_world_taken !! "uuid-1" = Some 2%nat
  /\ exists w',
       RotateKey MemoryStore SoftwareHSM "key-1" example_world_taken
       = Done (Err (status_Error Internal "store new key: key uuid-1 already exists")) w'
       /\ (Status <$> entry_at w' "key-1") = Some StatusRotated
       /\ keys w' = keys example_world_taken.
Proof.
  split; [reflexivity|].
  assert (E : uuid_NewString (S (rng example_world_taken)) = "uuid-1") by reflexivity.
  assert (Hg : ecdsa_GenerateKey
                 (rotation_curve (Algorithm (example_entry "key-1" StatusActive 11)))
                 (rng example_world_taken)
               = Some {| PublicKey := {| Curve := P256; X := 0; Y := 0 |}; D := 0 |})
    by reflexivity.
  assert (Ht : keys example_world_taken !! uuid_NewString (S (rng example_world_taken))
               = Some 2%nat) by reflexivity.
  destruct (RotateKey_failed_Put_leaves_old_key_ROTATED example_world_taken "key-1"
              1%nat 2%nat (example_entry "key-1" StatusActive 11) _
              eq_refl eq_refl eq_refl Hg Ht) as (w' & HR & Hk & He).
  rewrite E in HR. exists w'. split; [exact HR|]. split; [by rewrite He|exact Hk].
Defined.

(** [GenerateKey] at [example_world] on P-384, and with an unknown
    algorithm. *)
Lemma GenerateKey_example :
  (exists w' meta,
      GenerateKey MemoryStore SoftwareHSM KEY_ALGORITHM_ECDSA_P384 {[ "env" := "prod" ]}
        example_world
      = Done (Ok {| GenerateKey_Metadata := meta |}) w'
      /\ meta_KeyId meta = "uuid-1"
      /\ meta_Algorithm meta = KEY_ALGORITHM_ECDSA_P384
      /\ meta_Status meta = KEY_STATUS_ACTIVE
      /\ (Status <$> entry_at w' "uuid-1") = Some StatusActive
      /\ entry_at w' "key-1" = Some (example_entry "key-1" StatusActive 11))
  /\ GenerateKey MemoryStore SoftwareHSM 7 ∅ example_world
     = Done (Err (status_Error InvalidArgument "unsupported algorithm: 7")) example_world.
Proof.
  destruct (GenerateKey_creates_ACTIVE_key example_world KEY_ALGORITHM_ECDSA_P384
              {[ "env" := "prod" ]}) as (Hgen & _).
  destruct (GenerateKey_creates_ACTIVE_key example_world 7 ∅) as (_ & _ & _ & Hbad).
  split; [|by apply Hbad].
  assert (E : uuid_NewString (S (rng example_world)) = "uuid-1") by reflexivity.
  destruct (Hgen P384 AlgorithmECDSAP384 _ eq_refl eq_refl eq_refl)
    as (w' & meta & HG & -> & He & Hrest).
  rewrite E in He. destruct (Hrest example_world_wf) as [_ Hothers].
  exists w'. eexists. split; [exact HG|]. cbn [meta_KeyId meta_Algorithm meta_Status].
  split; [exact E|]. split; [reflexivity|]. split; [reflexivity|].
  split; [by rewrite He|]. by rewrite (Hothers "key-1").
Defined.

(** Inputs of 5 and of 20 bytes under the 32-byte zero key. *)
Lemma DecryptAESGCM_short_input_example :
  DecryptAESGCM key_zero32 (replicate 5 Byte.x00) [] = Err (Errorf "ciphertext too short")
  /\ DecryptAESGCM key_zero32 (replicate 20 Byte.x00) []
     = Err (Errorf "aes gcm decrypt: cipher: message authentication failed").
Proof.
  assert (Hk : valid_aes_key_length (length key_zero32)) by (right; right; reflexivity).
  destruct (DecryptAESGCM_short_input key_zero32 (replicate 5 Byte.x00) [] Hk) as [H5 _].
  destruct (DecryptAESGCM_short_input key_zero32 (replicate 20 Byte.x00) [] Hk) as [_ H20].
  split; [apply H5|apply H20]; cbn; lia.
Defined.

(** [key-1] of [example_world] encrypts, decrypts, is deactivated, and
    still decrypts. *)
Lemma Decrypt_Encrypt_across_deactivation_example :
  exists (ct : bytes) (w1 w2 w3 w4 : World),
    Encrypt MemoryStore "key-1" plaintext_secret aad_zero example_world
    = Done (Ok {| Ciphertext := ct; Encrypt_KeyId := "key-1" |}) w1
    /\ Decrypt MemoryStore "key-1" ct aad_zero w1
       = Done (Ok {| Plaintext := plaintext_secret |}) w2
    /\ (exists meta, DeactivateKey MemoryStore "key-1" w2
                     = Done (Ok {| Deactivate_Metadata := meta |}) w3)
    /\ Encrypt MemoryStore "key-1" plaintext_secret aad_zero w3
       = Done (Err (status_Error FailedPrecondition "key is not active")) w3
    /\ Decrypt MemoryStore "key-1" ct aad_zero w3
       = Done (Ok {| Plaintext := plaintext_secret |}) w4.
Proof.
  assert (Hm : x509_MarshalPKCS8PrivateKey
                 (PrivateKey (example_entry "key-1" StatusActive 11))
               = Some (example_encode (example_key 11))) by reflexivity.
  assert (Hr : rand_fails (rng example_world) = false) by reflexivity.
  destruct (Decrypt_Encrypt_across_deactivation example_world "key-1" 1%nat
              (example_entry "key-1" StatusActive 11) (example_encode (example_key 11))
              plaintext_secret aad_zero eq_refl eq_refl eq_refl Hm Hr)
    as (ct & w1 & w2 & w3 & w4 & meta & HE & HD & HX & _ & HE' & HD').
  exists ct, w1, w2, w3, w4. split; [exact HE|]. split; [exact HD|].
  split; [by exists meta|]. by split.
Defined.

(** The unstored [key-3] is put into a persistent store over
    [example_world]; after a restart the store holds it, with [key-1] and
    [key-2]. *)
Lemma PersistentStore_Put_survives_restart_example :
  exists w1 w2 : World,
    PersistentStore_Put "data/keys.json" 3%nat example_world = Done None w1
    /\ NewPersistentStore "data/keys.json" (restart w1) = Done None w2
    /\ entry_at w2 "key-3" = Some (example_entry "key-3" StatusActive 33)
    /\ entry_at w2 "key-1" = Some (example_entry "key-1" StatusActive 11)
    /\ entry_at w2 "key-2" = Some (example_entry "key-2" StatusRotated 22).
Proof.
  assert (Hser : serializable example_key_valid (fun _ => True) example_world).
  { split; [|done]. intros id e He.
    by destruct (example_world_entries id e He) as [-> | ->]. }
  destruct (PersistentStore_Put_survives_restart example_key_valid (fun _ => True)
              example_map_range_Permutation example_pkcs8_round_trip
              example_json_round_trip "data/keys.json" example_world 3%nat
              (example_entry "key-3" StatusActive 33)
              example_world_wf Hser eq_refl eq_refl eq_refl (fun _ _ => I))
    as (w1 & HP & _ & w2 & HN & H3 & Hothers).
  exists w1, w2. split; [exact HP|]. split; [exact HN|]. split; [exact H3|].
  split; [by rewrite (Hothers "key-1")|by rewrite (Hothers "key-2")].
Defined.

(** Listing the ROTATED keys of [example_world] answers with [key-2] and
    not with [key-1]. *)
Lemma ListKeys_filters_example :
  store_wf example_world
  /\ exists (es : list KeyEntry) (w' : World),
       ListKeys MemoryStore KEY_STATUS_ROTATED example_world
       = Done (Ok {| Keys := KeyMetadata_of <$> es |}) w'
       /\ example_entry "key-2" StatusRotated 22 ∈ es
       /\ example_entry "key-1" StatusActive 11 ∉ es.
Proof.
  split; [exact example_world_wf|].
  destruct (ListKeys_filters example_map_range_Permutation KEY_STATUS_ROTATED
              example_world example_world_wf) as (es & w' & HL & _ & _ & Hes & _).
  exists es, w'. split; [exact HL|]. split.
  - apply Hes. split; [reflexivity|]. by right.
  - intros Hin. apply Hes in Hin as [_ [Hst|Hst]]; discriminate.
Defined.

(** The public key of the ROTATED [key-2] is returned; an unknown id is
    not found. *)
Lemma GetPublicKey_any_status_example :
  GetPublicKey MemoryStore "key-2" example_world
  = Done (Ok {| GetPublicKey_KeyId := "key-2";
                GetPublicKey_PublicKeyDer :=
                  example_encode {| PublicKey := PublicKey (example_key 22); D := 0 |};
                GetPublicKey_Algorithm := KEY_ALGORITHM_ECDSA_P256 |}) example_world
  /\ GetPublicKey MemoryStore "key-9" example_world
     = Done (Err (status_Error NotFound "key not found")) example_world.
Proof.
  destruct (GetPublicKey_any_status example_world "key-2") as [_ Hfound].
  destruct (GetPublicKey_any_status example_world "key-9") as [Hmissing _].
  assert (Hm : x509_MarshalPKIXPublicKey
                 (PublicKey (PrivateKey (example_entry "key-2" StatusRotated 22)))
               = Some (example_encode {| PublicKey := PublicKey (example_key 22); D := 0 |}))
    by reflexivity.
  destruct (Hfound 2%nat _ _ eq_refl eq_refl Hm) as [HG _].
  split; [exact HG|by apply Hmissing].
Defined.

(** Closing the logger of [example_world_full] retains the queued record
    after the retained one. *)
Lemma Logger_Close_example :
  exists w',
    Logger_Close example_world_full = Done tt w'
    /\ audit_entries w' = []
    /\ audit_store w'
       = [example_audit "a0" 5 "GenerateKey" "key-1"; example_audit "a1" 10 "Sign" "key-1"].
Proof.
  destruct (Logger_Close_retains_queue example_world_full) as (w' & HC & Hq & Hs & _).
  exists w'. split; [exact HC|]. split; [exact Hq|exact Hs].
Defined.

(** A signature under [key-1] of [example_world] is on record once the
    logger is closed, and is the newest record of the key. *)
Lemma Sign_is_audited_example :
  exists (resp : SignResponse) (w1 w2 : World),
    Sign MemoryStore SoftwareHSM "key-1" [Byte.x68; Byte.x69] example_world
    = Done (Ok resp) w1
    /\ Logger_Close w1 = Done tt w2
    /\ Query (audit_store w2) "key-1" "Sign" 0 0 1
       = [logged "Sign" "key-1" "OK" ∅ (set_rng S example_world)].
Proof.
  assert (Hroom : (length (audit_entries example_world)
                   < audit_bufferSize example_world)%nat) by (cbn; lia).
  destruct (Sign_is_audited example_world "key-1" 1%nat
              (example_entry "key-1" StatusActive 11) [Byte.x68; Byte.x69]
              eq_refl eq_refl eq_refl Hroom) as (r & w1 & w2 & HS & HC & _ & HQ & Hres).
  destruct r as [resp|err]; [|destruct Hres as [Hnone _]; discriminate Hnone].
  exists resp, w1, w2. split; [exact HS|]. split; [exact HC|exact HQ].
Defined.

(** A signature made under [key-1] verifies, and still verifies once the
    key is deactivated and signs no more. *)
Lemma Verify_accepts_Sign_example :
  exists (sig : bytes) (w1 w2 w3 w4 : World),
    Sign MemoryStore SoftwareHSM "key-1" [Byte.x68; Byte.x69] example_world
    = Done (Ok {| Signature := sig; Sign_KeyId := "key-1" |}) w1
    /\ Verify MemoryStore SoftwareHSM "key-1" [Byte.x68; Byte.x69] sig w1
       = Done (Ok {| Valid := true |}) w2
    /\ (exists meta, DeactivateKey MemoryStore "key-1" w2
                     = Done (Ok {| Deactivate_Metadata := meta |}) w3)
    /\ Sign MemoryStore SoftwareHSM "key-1" [Byte.x68; Byte.x69] w3
       = Done (Err (status_Error FailedPrecondition "key is not active")) w3
    /\ Verify MemoryStore SoftwareHSM "key-1" [Byte.x68; Byte.x69] sig w3
       = Done (Ok {| Valid := true |}) w4.
Proof.
  set (e := example_entry "key-1" StatusActive 11).
  assert (Hs : ecdsa_SignASN1 (rng example_world) (PrivateKey e)
                 (sha256.Sum256 [Byte.x68; Byte.x69])
               = Some (be_bytes 8 11 ++ sha256.Sum256 [Byte.x68; Byte.x69]))
    by reflexivity.
  assert (Hv : example_key_valid (PrivateKey e)) by reflexivity.
  destruct (Verify_accepts_Sign_across_deactivation example_key_valid example_sign_verify
              example_world "key-1" 1%nat e [Byte.x68; Byte.x69] _
              eq_refl eq_refl eq_refl Hv Hs)
    as (w1 & w2 & w3 & w4 & meta & HS & HV & HD & HS' & HV').
  eexists _, w1, w2, w3, w4. split; [exact HS|]. split; [exact HV|].
  split; [by exists meta|]. by split.
Defined.

(** After the rotation of [key-1] in [example_world] the old key signs
    and rotates no more, and the new key [uuid-1] signs. *)
Lemma RotateKey_then_Sign_example :
  exists (w' : World) (resp : RotateKeyResponse),
    RotateKey MemoryStore SoftwareHSM "key-1" example_world = Done (Ok resp) w'
    /\ Sign MemoryStore SoftwareHSM "key-1" [Byte.x68; Byte.x69] w'
       = Done (Err (status_Error FailedPrecondition "key is not active")) w'
    /\ RotateKey MemoryStore SoftwareHSM "key-1" w'
       = Done (Err (status_Error FailedPrecondition "can only rotate active keys")) w'
    /\ exists sig w'',
         Sign MemoryStore SoftwareHSM "uuid-1" [Byte.x68; Byte.x69] w'
         = Done (Ok {| Signature := sig; Sign_KeyId := "uuid-1" |}) w''.
Proof.
  set (e := example_entry "key-1" StatusActive 11).
  set (k := {| PublicKey := {| Curve := P256; X := 0; Y := 0 |}; D := 0 |}).
  assert (Hg : ecdsa_GenerateKey (rotation_curve (Algorithm e)) (rng example_world)
               = Some k) by reflexivity.
  assert (Hfree : keys example_world !! uuid_NewString (S (rng example_world)) = None)
    by reflexivity.
  assert (E : uuid_NewString (S (rng example_world)) = "uuid-1") by reflexivity.
  destruct (RotateKey_then_Sign example_world "key-1" 1%nat e k [Byte.x68; Byte.x69] []
              eq_refl eq_refl eq_refl Hg Hfree)
    as (w' & resp & HR & _ & HS & HR' & _ & Hnew).
  exists w', resp. split; [exact HR|]. split; [exact HS|]. split; [exact HR'|].
  destruct (Hnew (be_bytes 8 0 ++ sha256.Sum256 [Byte.x68; Byte.x69]) eq_refl)
    as (w'' & HS'').
  rewrite E in HS''. by eexists _, w''.
Defined.

(** The key that [DeriveKey] returns for [key-1] with the context of the
    encryption service decrypts what [Encrypt] produced. *)
Lemma DeriveKey_returns_the_encryption_key_example :
  exists (ct : bytes) (w1 : World) (key : bytes) (w2 : World),
    Encrypt MemoryStore "key-1" plaintext_secret aad_zero example_world
    = Done (Ok {| Ciphertext := ct; Encrypt_KeyId := "key-1" |}) w1
    /\ EncryptionServer_DeriveKey MemoryStore "key-1" (bytes_of_string "vault-aes-gcm") 32 w1
       = Done (Ok {| DerivedKey := key |}) w2
    /\ DecryptAESGCM key ct aad_zero = Ok plaintext_secret.
Proof.
  assert (Hm : x509_MarshalPKCS8PrivateKey
                 (PrivateKey (example_entry "key-1" StatusActive 11))
               = Some (example_encode (example_key 11))) by reflexivity.
  assert (Hr : rand_fails (rng example_world) = false) by reflexivity.
  exact (DeriveKey_returns_the_encryption_key example_world "key-1" 1%nat
           (example_entry "key-1" StatusActive 11) (example_encode (example_key 11))
           plaintext_secret aad_zero eq_refl eq_refl eq_refl Hm Hr).
Defined.

(** A batch of three under [key-1], run last to first, has its three
    results at the indices of the data; a batch under the ROTATED [key-2]
    or an unknown id is refused. *)
Lemma BatchSign_example :
  (exists (results : list (option SignResult)) (w' : World),
      BatchSign MemoryStore SoftwareHSM "key-1" [[Byte.x61]; [Byte.x62]; [Byte.x63]]
        example_world
      = Done (Ok {| Results := results |}) w'
      /\ length results = 3%nat
      /\ exists res,
           results !! 1%nat = Some (Some res)
           /\ signed_by (example_key 11) [Byte.x62]
                (SignResult_Signature res) (SignResult_Error res))
  /\ BatchSign MemoryStore SoftwareHSM "key-2" [[Byte.x61]; [Byte.x62]; [Byte.x63]]
       example_world
     = Done (Err (status_Error FailedPrecondition "key is not active")) example_world
  /\ BatchSign MemoryStore SoftwareHSM "key-9" [[Byte.x61]; [Byte.x62]; [Byte.x63]]
       example_world
     = Done (Err (status_Error NotFound "key not found")) example_world.
Proof.
  set (Data := [[Byte.x61]; [Byte.x62]; [Byte.x63]]).
  destruct (BatchSign_one_result_per_item example_go_order_Permutation
              example_world "key-1" Data) as [_ H1].
  destruct (BatchSign_one_result_per_item example_go_order_Permutation
              example_world "key-2" Data) as [_ H2].
  destruct (BatchSign_one_result_per_item example_go_order_Permutation
              example_world "key-9" Data) as [H9 _].
  destruct (H1 1%nat (example_entry "key-1" StatusActive 11) eq_refl eq_refl) as [_ Hact].
  destruct (H2 2%nat (example_entry "key-2" StatusRotated 22) eq_refl eq_refl) as [Hrot _].
  destruct (Hact eq_refl) as (results & w1 & w' & HB & Hlen & Hres & _).
  split; [|split; [by apply Hrot|by apply H9]].
  exists results, w'. split; [exact HB|]. split; [exact Hlen|].
  exact (Hres 1%nat [Byte.x62] eq_refl).
Defined.

(** [example_stream] over [example_world]: a signature for [key-1], then
    the two refusals, in the order of the requests, and no error at
    EOF. *)
Lemma StreamSign_example :
  exists (r1 : StreamSignResponse) (w' : World),
    StreamSign MemoryStore SoftwareHSM example_stream example_world
    = Done (None, [r1;
                   {| StreamSign_Signature := []; StreamSign_Error := "key is not active" |};
                   {| StreamSign_Signature := []; StreamSign_Error := "key not found" |}]) w'
    /\ signed_by (example_key 11) [Byte.x68; Byte.x69]
         (StreamSign_Signature r1) (StreamSign_Error r1).
Proof.
  destruct (StreamSign_answers_in_order example_world example_stream
              [example_request "key-1"; example_request "key-2"; example_request "key-9"]
              [] (store_wf_ptrs_valid _ example_world_wf) eq_refl (fun _ _ => eq_refl)
              None eq_refl) as (sent & w' & HS & Hans & _).
  apply Forall2_cons_inv_l in Hans as (r1 & sent1 & A1 & Hans & ->).
  apply Forall2_cons_inv_l in Hans as (r2 & sent2 & A2 & Hans & ->).
  apply Forall2_cons_inv_l in Hans as (r3 & sent3 & A3 & Hans & ->).
  apply Forall2_nil_inv_l in Hans as ->.
  assert (E2 : r2 = {| StreamSign_Signature := []; StreamSign_Error := "key is not active" |})
    by exact A2.
  assert (E3 : r3 = {| StreamSign_Signature := []; StreamSign_Error := "key not found" |})
    by exact A3.
  subst r2 r3. exists r1, w'. split; [exact HS|exact A1].
Defined.


(** With the token [s3cret] configured, a request that carries
    [Bearer s3cret], or the bare [s3cret], reaches the handler; one that
    carries another token, or no metadata, is refused. *)
Lemma AuthUnary_example :
  AuthUnary "s3cret" (Some {[ "authorization" := ["Bearer s3cret"] ]})
    (mret (Ok 7%nat)) example_world
  = Done (Ok 7%nat) example_world
  /\ AuthUnary "s3cret" (Some {[ "authorization" := ["s3cret"; "Bearer other"] ]})
       (mret (Ok 7%nat)) example_world
     = Done (Ok 7%nat) example_world
  /\ (exists msg,
        AuthUnary "s3cret" (Some {[ "authorization" := ["Bearer other"; "Bearer s3cret"] ]})
          (mret (Ok 7%nat)) example_world
        = Done (Err (status_Error Unauthenticated msg)) example_world)
  /\ (exists msg,
        AuthUnary "s3cret" None (mret (Ok 7%nat)) example_world
        = Done (Err (status_Error Unauthenticated msg)) example_world).
Proof.
  split; [|split; [|split]].
  - destruct (AuthUnary_lets_through_iff "s3cret"
                (Some {[ "authorization" := ["Bearer s3cret"] ]})
                (mret (Ok 7%nat)) example_world) as (Hacc & _ & Hiff).
    rewrite Hacc; [reflexivity|]. apply (Hiff _ _ eq_refl). by left.
  - destruct (AuthUnary_lets_through_iff "s3cret"
                (Some {[ "authorization" := ["s3cret"; "Bearer other"] ]})
                (mret (Ok 7%nat)) example_world) as (Hacc & _ & Hiff).
    rewrite Hacc; [reflexivity|]. apply (Hiff _ _ eq_refl). by right.
  - destruct (AuthUnary_lets_through_iff "s3cret"
                (Some {[ "authorization" := ["Bearer other"; "Bearer s3cret"] ]})
                (mret (Ok 7%nat)) example_world) as (_ & Hrej & Hiff).
    apply Hrej. intros Hb. apply (Hiff _ _ eq_refl) in Hb as [Hb|[Hb _]]; discriminate.
  - destruct (AuthUnary_lets_through_iff "s3cret" None
                (mret (Ok 7%nat)) example_world) as (_ & Hrej & _).
    apply Hrej. intros (m & v & rest & Hmd & _). discriminate.
Defined.

(** [example_world] has no key file: the store opens empty.  The file of
    [example_world_corrupt] does not decode: opening fails and the file
    stays. *)
Lemma NewPersistentStore_without_usable_file_example :
  NewPersistentStore "data/keys.json" example_world
  = Done None (set_keys (fun _ => ∅) example_world)
  /\ exists (err : error) (w' : World),
       NewPersistentStore "data/keys.json" example_world_corrupt = Done (Some err) w'
       /\ files w' !! "data/keys.json" = Some [Byte.x7b].
Proof.
  destruct (NewPersistentStore_without_usable_file "data/keys.json" example_world)
    as [Hnone _].
  destruct (NewPersistentStore_without_usable_file "data/keys.json" example_world_corrupt)
    as [_ Hbad].
  split; [by apply Hnone|].
  assert (Hj : json_Unmarshal [Byte.x7b] = None) by reflexivity.
  destruct (Hbad [Byte.x7b] eq_refl (or_introl Hj)) as (err & w' & HN & Hf).
  exists err, w'. split; [exact HN|]. by rewrite Hf.
Defined.

(** In [example_world] the generated key is the 32 zero bytes of the
    random source, and a frame sealed under it opens. *)
Lemma GenerateAESKey_example :
  exists (key : bytes) (w1 : World) (framed : bytes) (w2 : World),
    GenerateAESKey example_world = Done (Ok key) w1
    /\ key = key_zero32
    /\ EncryptAESGCM key plaintext_secret aad_zero w1 = Done (Ok framed) w2
    /\ DecryptAESGCM key framed aad_zero = Ok plaintext_secret.
Proof.
  destruct (GenerateAESKey_usable example_world plaintext_secret aad_zero) as [Hgen _].
  destruct (Hgen eq_refl eq_refl) as (key & w1 & framed & w2 & HG & Hk & _ & HE & HD).
  exists key, w1, framed, w2. split; [exact HG|]. split; [exact Hk|]. by split.
Defined.

(** The one watcher of [example_world], whose channel is empty, receives
    the DEACTIVATED event of [key-2], and the ROTATED event of [key-1]
    with the metadata of the new key [uuid-1]. *)
Lemma key_events_example :
  (exists (w' : World) (meta : KeyMetadata),
      DeactivateKey MemoryStore "key-2" example_world
      = Done (Ok {| Deactivate_Metadata := meta |}) w'
      /\ subscribers w' !! 0%nat
         = Some [ {| event_Type := KEY_EVENT_TYPE_DEACTIVATED; event_Metadata := meta;
                     event_Timestamp := 1000 |} ])
  /\ (exists (w' : World) (resp : RotateKeyResponse),
        RotateKey MemoryStore SoftwareHSM "key-1" example_world = Done (Ok resp) w'
        /\ meta_KeyId (NewKey resp) = "uuid-1"
        /\ subscribers w' !! 0%nat
           = Some [ {| event_Type := KEY_EVENT_TYPE_ROTATED; event_Metadata := NewKey resp;
                       event_Timestamp := 1002 |} ]).
Proof.
  destruct (key_events_reach_watchers example_world) as (_ & Hrot & Hdeact).
  split.
  - destruct (Hdeact "key-2" 2%nat (example_entry "key-2" StatusRotated 22)
                eq_refl eq_refl) as (w' & meta & HD & _ & _ & Hn).
    exists w', meta. split; [exact HD|]. exact (Hn 0%nat [] eq_refl).
  - set (k := {| PublicKey := {| Curve := P256; X := 0; Y := 0 |}; D := 0 |}).
    assert (Hg : ecdsa_GenerateKey
                   (rotation_curve (Algorithm (example_entry "key-1" StatusActive 11)))
                   (rng example_world) = Some k) by reflexivity.
    assert (Hfree : keys example_world !! uuid_NewString (S (rng example_world)) = None)
      by reflexivity.
    assert (E : uuid_NewString (S (rng example_world)) = "uuid-1") by reflexivity.
    destruct (Hrot "key-1" 1%nat (example_entry "key-1" StatusActive 11) k
                eq_refl eq_refl eq_refl Hg Hfree) as (w' & resp & HR & Hid & _ & _ & Hn).
    exists w', resp. split; [exact HR|]. split; [by rewrite Hid|].
    exact (Hn 0%nat [] eq_refl).
Defined.
